(** * Job orchestration and dispatch of the file-converter services

    A shallow embedding of
    - [services/shared/models/job.py]        (the job row and its enumerations),
    - [services/shared/queue.py]             (the Redis priority queue),
    - [services/shared/storage.py]           (the object store),
    - [services/job-manager-service/main.py] (upload, status, download, the
      listings, cancel, retry-uploaded, clean-up),
    - [services/docx-pdf-service/conversion_worker.py] (the worker harness and
      the DOCX conversion), with the conversions of
      [services/pdf-docx-service/conversion_worker.py] and
      [services/image-service/conversion_worker.py], whose harness is the same,
    - [services/pdf-docx-service/main.py]    (the health endpoint),
    - [services/monitoring-service/main.py]  (the queue lengths),
    followed by the properties of the orchestration subsystem and further
    properties of the queue, the Job Manager, the workers and the stores.

    Conventions of the model.
    - Python [str] is [string]; every character is a code point below 256.
    - Python [int] is [Z]; a Redis score (a double) is the [Z] it holds.
    - [None] is [None]; a raised exception is an explicit result.
    - A [datetime] is its number of microseconds; the bytes of an object or
      of a file are a [string].
    - Redis, the job store, the object store and the conversion tools are
      external.  The sorted-set commands follow the Redis command reference,
      and every outcome the code branches on (a raised connection error, a
      failed upload, a tool exit status, the clock) is an explicit argument
      of the function that observes it.
    - A fault of Redis or of a worker's database session is an exception
      raised before the command takes effect.  The read endpoints and the
      clean-up of the Job Manager are modelled with a database session that
      works and with configured hours that [timedelta] accepts.
    - Queries are read as PostgreSQL, the configured database, runs them.
    - Each endpoint and each status write is one step; what other services
      do while a worker awaits its conversion is part of the conversion the
      harness is given. *)

From Stdlib Require Import ZArith List String Ascii Bool Lia Sorted.
From Stdlib Require Import DecimalString DecimalZ DecimalPos DecimalFacts.
From stdpp Require Import base gmap sets strings list.

(** ** Enumerations of [shared/models/job.py] and [shared/queue.py] *)

Inductive JobStatus :=
  | UPLOADED | PENDING | PROCESSING | COMPLETED | FAILED | CANCELLED.

Inductive ConversionType :=
  | DOCX_TO_PDF | PDF_TO_DOCX | PDF_TO_JPG | PDF_TO_PNG | JPG_TO_PDF | PNG_TO_PDF.

Inductive QueueName :=
  | DOCX_PDF | PDF_DOCX | PDF_IMAGE | IMAGE_PDF | NOTIFICATIONS.

#[global] Instance JobStatus_eq_dec : EqDecision JobStatus.
Proof. solve_decision. Defined.
#[global] Instance ConversionType_eq_dec : EqDecision ConversionType.
Proof. solve_decision. Defined.
#[global] Instance QueueName_eq_dec : EqDecision QueueName.
Proof. solve_decision. Defined.

Definition JobStatus_value (s : JobStatus) : string :=
  match s with
  | UPLOADED => "uploaded" | PENDING => "pending" | PROCESSING => "processing"
  | COMPLETED => "completed" | FAILED => "failed" | CANCELLED => "cancelled"
  end.

Definition ConversionType_value (c : ConversionType) : string :=
  match c with
  | DOCX_TO_PDF => "docx_to_pdf" | PDF_TO_DOCX => "pdf_to_docx"
  | PDF_TO_JPG => "pdf_to_jpg" | PDF_TO_PNG => "pdf_to_png"
  | JPG_TO_PDF => "jpg_to_pdf" | PNG_TO_PDF => "png_to_pdf"
  end.

Definition QueueName_value (q : QueueName) : string :=
  match q with
  | DOCX_PDF => "queue:docx_pdf" | PDF_DOCX => "queue:pdf_docx"
  | PDF_IMAGE => "queue:pdf_image" | IMAGE_PDF => "queue:image_pdf"
  | NOTIFICATIONS => "queue:notifications"
  end.

(** The terminal statuses of the state machine. *)
Definition terminal (s : JobStatus) : bool :=
  match s with
  | COMPLETED | FAILED | CANCELLED => true
  | _ => false
  end.

(** ** The JSON text of a queue message

    [json.dumps] and [json.loads] on the values a [QueueMessage] holds:
    strings, integers and a flat [metadata] dictionary of scalars (every
    producer in the repository builds exactly such a dictionary).  Floats,
    arrays and deeper nesting are outside the model: [loads] gives [None]
    on them. *)
Module Json.

Inductive scalar :=
  | Null
  | Bool (b : bool)
  | Int (z : Z)
  | Str (s : string).

#[global] Instance scalar_eq_dec : EqDecision scalar.
Proof. solve_decision. Defined.

(** A value of the top-level object: a scalar or a flat dictionary. *)
Inductive value :=
  | Scalar (v : scalar)
  | Dict (d : list (string * scalar)).

Definition dq : ascii := "034".   (* the double quote *)
Definition bs : ascii := "092".   (* the backslash *)

Definition hex_digit (n : N) : ascii :=
  match n with
  | 0%N => "0" | 1%N => "1" | 2%N => "2" | 3%N => "3" | 4%N => "4"
  | 5%N => "5" | 6%N => "6" | 7%N => "7" | 8%N => "8" | 9%N => "9"
  | 10%N => "a" | 11%N => "b" | 12%N => "c" | 13%N => "d" | 14%N => "e"
  | _ => "f"
  end%char.

Definition hex_value (c : ascii) : option N :=
  let n := N_of_ascii c in
  if ((48 <=? n) && (n <=? 57))%N then Some (n - 48)%N
  else if ((97 <=? n) && (n <=? 102))%N then Some (n - 87)%N
  else if ((65 <=? n) && (n <=? 70))%N then Some (n - 55)%N
  else None.

(** [ESCAPE_DCT] of the encoder with [ensure_ascii]: the two-character
    escapes first, [\u00XX] for every other character outside
    [' '..'~']. *)
Definition escape_char (c : ascii) : string :=
  let n := N_of_ascii c in
  if Ascii.eqb c dq then String bs (String dq EmptyString)
  else if Ascii.eqb c bs then String bs (String bs EmptyString)
  else if (n =? 8)%N then String bs "b"
  else if (n =? 12)%N then String bs "f"
  else if (n =? 10)%N then String bs "n"
  else if (n =? 13)%N then String bs "r"
  else if (n =? 9)%N then String bs "t"
  else if ((n <? 32) || (126 <? n))%N then
    String bs (String "u" (String "0" (String "0"
      (String (hex_digit (n / 16)) (String (hex_digit (n mod 16)) EmptyString)))))
  else String c EmptyString.

Fixpoint escape (s : string) : string :=
  match s with
  | EmptyString => EmptyString
  | String c s' => escape_char c +:+ escape s'
  end.

Definition dumps_str (s : string) : string :=
  String dq (escape s +:+ String dq EmptyString).

Definition dumps_int (z : Z) : string :=
  NilZero.string_of_int (Z.to_int z).

Definition dumps_scalar (v : scalar) : string :=
  match v with
  | Null => "null"
  | Bool true => "true"
  | Bool false => "false"
  | Int z => dumps_int z
  | Str s => dumps_str s
  end.

(** The items of a dictionary, in insertion order, separated by [", "]. *)
Fixpoint dumps_items {V} (dv : V -> string) (l : list (string * V)) : string :=
  match l with
  | [] => EmptyString
  | [(k, v)] => dumps_str k +:+ ": " +:+ dv v
  | (k, v) :: rest => dumps_str k +:+ ": " +:+ dv v +:+ ", " +:+ dumps_items dv rest
  end.

Definition dumps_dict {V} (dv : V -> string) (l : list (string * V)) : string :=
  "{" +:+ dumps_items dv l +:+ "}".

Definition dumps_value (v : value) : string :=
  match v with
  | Scalar x => dumps_scalar x
  | Dict d => dumps_dict dumps_scalar d
  end.

Definition dumps (o : list (string * value)) : string :=
  dumps_dict dumps_value o.

(** *** Decoding *)

Definition is_ws (c : ascii) : bool :=
  let n := N_of_ascii c in
  ((n =? 32) || (n =? 9) || (n =? 10) || (n =? 13))%N.

Fixpoint skip_ws (s : string) : string :=
  match s with
  | String c s' => if is_ws c then skip_ws s' else s
  | EmptyString => s
  end.

Definition unescape (c : ascii) : option ascii :=
  if Ascii.eqb c dq then Some dq
  else if Ascii.eqb c bs then Some bs
  else if Ascii.eqb c "/" then Some "/"%char
  else if Ascii.eqb c "b" then Some "008"%char
  else if Ascii.eqb c "f" then Some "012"%char
  else if Ascii.eqb c "n" then Some "010"%char
  else if Ascii.eqb c "r" then Some "013"%char
  else if Ascii.eqb c "t" then Some "009"%char
  else None.

Definition hex4 (a b c d : ascii) : option N :=
  match hex_value a, hex_value b, hex_value c, hex_value d with
  | Some x, Some y, Some z, Some w => Some (((x * 16 + y) * 16 + z) * 16 + w)%N
  | _, _, _, _ => None
  end.

Definition cons_fst (c : ascii) (r : option (string * string)) : option (string * string) :=
  match r with
  | Some (s, rest) => Some (String c s, rest)
  | None => None
  end.

(** [scanstring], entered after the opening quote: the decoded contents and
    the text after the closing quote.  A raw control character is an
    error, as in the strict decoder. *)
Fixpoint scan_string (s : string) : option (string * string) :=
  match s with
  | EmptyString => None
  | String c s1 =>
      if Ascii.eqb c dq then Some (EmptyString, s1)
      else if Ascii.eqb c bs then
        match s1 with
        | EmptyString => None
        | String e s2 =>
            if Ascii.eqb e "u" then
              match s2 with
              | String h1 (String h2 (String h3 (String h4 s3))) =>
                  match hex4 h1 h2 h3 h4 with
                  | Some n =>
                      if (n <? 256)%N then cons_fst (ascii_of_N n) (scan_string s3)
                      else None
                  | None => None
                  end
              | _ => None
              end
            else
              match unescape e with
              | Some ch => cons_fst ch (scan_string s2)
              | None => None
              end
        end
      else if (N_of_ascii c <? 32)%N then None
      else cons_fst c (scan_string s1)
  end.

(** A decimal digit, as the constructor of [Decimal.uint] that prepends it. *)
Definition digit (c : ascii) : option (Decimal.uint -> Decimal.uint) :=
  let n := N_of_ascii c in
  if (n =? 48)%N then Some Decimal.D0
  else if (n =? 49)%N then Some Decimal.D1
  else if (n =? 50)%N then Some Decimal.D2
  else if (n =? 51)%N then Some Decimal.D3
  else if (n =? 52)%N then Some Decimal.D4
  else if (n =? 53)%N then Some Decimal.D5
  else if (n =? 54)%N then Some Decimal.D6
  else if (n =? 55)%N then Some Decimal.D7
  else if (n =? 56)%N then Some Decimal.D8
  else if (n =? 57)%N then Some Decimal.D9
  else None.

(** The digits at the head of [s], most significant first. *)
Fixpoint scan_digits (s : string) : Decimal.uint * string :=
  match s with
  | EmptyString => (Decimal.Nil, s)
  | String c s' =>
      match digit c with
      | Some d => let '(u, rest) := scan_digits s' in (d u, rest)
      | None => (Decimal.Nil, s)
      end
  end.

(** The number pattern of the decoder restricted to integers: an optional
    minus sign, then a single zero or a digit string with no leading zero,
    not followed by a fraction or an exponent. *)
Definition scan_nat (s : string) : option (Z * string) :=
  let '(u, rest) := scan_digits s in
  let leading_zero :=
    match u with
    | Decimal.D0 Decimal.Nil => false
    | Decimal.D0 _ => true
    | _ => false
    end in
  match u with
  | Decimal.Nil => None
  | _ =>
      if leading_zero then None
      else
        match rest with
        | String c _ =>
            if Ascii.eqb c "." || Ascii.eqb c "e" || Ascii.eqb c "E" then None
            else Some (Z.of_uint u, rest)
        | EmptyString => Some (Z.of_uint u, rest)
        end
  end.

Definition scan_int (s : string) : option (Z * string) :=
  match s with
  | String "-" s' =>
      match scan_nat s' with
      | Some (z, rest) => Some ((- z)%Z, rest)
      | None => None
      end
  | _ => scan_nat s
  end.

Definition scan_scalar (s : string) : option (scalar * string) :=
  match s with
  | String "n" (String "u" (String "l" (String "l" r))) => Some (Null, r)
  | String "t" (String "r" (String "u" (String "e" r))) => Some (Bool true, r)
  | String "f" (String "a" (String "l" (String "s" (String "e" r)))) => Some (Bool false, r)
  | String c s' =>
      if Ascii.eqb c dq then
        match scan_string s' with
        | Some (x, r) => Some (Str x, r)
        | None => None
        end
      else
        match scan_int s with
        | Some (z, r) => Some (Int z, r)
        | None => None
        end
  | EmptyString => None
  end.

(** The key/value loop of [JSONObject], entered at the quote of a key. *)
Fixpoint scan_members {V} (pv : string -> option (V * string)) (fuel : nat)
    (s : string) : option (list (string * V) * string) :=
  match fuel with
  | O => None
  | S fuel' =>
      match s with
      | String c s1 =>
          if Ascii.eqb c dq then
            match scan_string s1 with
            | Some (k, s2) =>
                match skip_ws s2 with
                | String ":" s3 =>
                    match pv (skip_ws s3) with
                    | Some (v, s4) =>
                        match skip_ws s4 with
                        | String "}" s5 => Some ([(k, v)], s5)
                        | String "," s5 =>
                            match scan_members pv fuel' (skip_ws s5) with
                            | Some (l, r) => Some ((k, v) :: l, r)
                            | None => None
                            end
                        | _ => None
                        end
                    | None => None
                    end
                | _ => None
                end
            | None => None
            end
          else None
      | EmptyString => None
      end
  end.

(** [JSONObject], entered after the opening brace. *)
Definition scan_object {V} (pv : string -> option (V * string)) (s : string)
    : option (list (string * V) * string) :=
  match skip_ws s with
  | String "}" r => Some ([], r)
  | s' => scan_members pv (String.length s') s'
  end.

Definition scan_value (s : string) : option (value * string) :=
  match s with
  | String "{" s' =>
      match scan_object scan_scalar s' with
      | Some (d, r) => Some (Dict d, r)
      | None => None
      end
  | _ =>
      match scan_scalar s with
      | Some (v, r) => Some (Scalar v, r)
      | None => None
      end
  end.

(** [json.loads] where the document is an object; [None] is a raised
    [JSONDecodeError] (or a document that is not an object, on which the
    caller's keyword expansion raises). *)
Definition loads (s : string) : option (list (string * value)) :=
  match skip_ws s with
  | String "{" s' =>
      match scan_object scan_value s' with
      | Some (o, r) =>
          match skip_ws r with
          | EmptyString => Some o
          | _ => None
          end
      | None => None
      end
  | _ => None
  end.

End Json.

(** ** [QueueMessage] of [shared/queue.py] *)

Record QueueMessage := mkMessage {
  job_id : string;
  conversion_type : string;
  file_path : string;
  filename : string;
  priority : Z;
  retry_count : Z;
  metadata : option (list (string * Json.scalar));
}.

#[global] Instance QueueMessage_eq_dec : EqDecision QueueMessage.
Proof. solve_decision. Defined.

(** [asdict(self)]: the fields in declaration order. *)
Definition asdict (m : QueueMessage) : list (string * Json.value) :=
  [ ("job_id", Json.Scalar (Json.Str (job_id m)));
    ("conversion_type", Json.Scalar (Json.Str (conversion_type m)));
    ("file_path", Json.Scalar (Json.Str (file_path m)));
    ("filename", Json.Scalar (Json.Str (filename m)));
    ("priority", Json.Scalar (Json.Int (priority m)));
    ("retry_count", Json.Scalar (Json.Int (retry_count m)));
    ("metadata", match metadata m with
                 | None => Json.Scalar Json.Null
                 | Some d => Json.Dict d
                 end) ]%string.

(** [QueueMessage.to_json]. *)
Definition to_json (m : QueueMessage) : string := Json.dumps (asdict m).

(** The keyword arguments collected so far while the constructor call of
    [from_json] unpacks the decoded dictionary. *)
Record kwargs := mkKwargs {
  kw_job_id : option string;
  kw_conversion_type : option string;
  kw_file_path : option string;
  kw_filename : option string;
  kw_priority : option Z;
  kw_retry_count : option Z;
  kw_metadata : option (option (list (string * Json.scalar)));
}.

Definition no_kwargs : kwargs := mkKwargs None None None None None None None.

(** One keyword of that call.  A later duplicate of a key replaces the
    earlier one, as in the dictionary [json.loads] builds; a key that is not
    a field raises [TypeError].  The record is kept typed: a value of
    another JSON type than the field's is outside the model. *)
Definition bind_kwarg (acc : option kwargs) (kv : string * Json.value) : option kwargs :=
  match acc with
  | None => None
  | Some a =>
      let '(k, v) := kv in
      if String.eqb k "job_id" then
        match v with
        | Json.Scalar (Json.Str s) =>
            Some (mkKwargs (Some s) (kw_conversion_type a) (kw_file_path a) (kw_filename a)
                    (kw_priority a) (kw_retry_count a) (kw_metadata a))
        | _ => None
        end
      else if String.eqb k "conversion_type" then
        match v with
        | Json.Scalar (Json.Str s) =>
            Some (mkKwargs (kw_job_id a) (Some s) (kw_file_path a) (kw_filename a)
                    (kw_priority a) (kw_retry_count a) (kw_metadata a))
        | _ => None
        end
      else if String.eqb k "file_path" then
        match v with
        | Json.Scalar (Json.Str s) =>
            Some (mkKwargs (kw_job_id a) (kw_conversion_type a) (Some s) (kw_filename a)
                    (kw_priority a) (kw_retry_count a) (kw_metadata a))
        | _ => None
        end
      else if String.eqb k "filename" then
        match v with
        | Json.Scalar (Json.Str s) =>
            Some (mkKwargs (kw_job_id a) (kw_conversion_type a) (kw_file_path a) (Some s)
                    (kw_priority a) (kw_retry_count a) (kw_metadata a))
        | _ => None
        end
      else if String.eqb k "priority" then
        match v with
        | Json.Scalar (Json.Int z) =>
            Some (mkKwargs (kw_job_id a) (kw_conversion_type a) (kw_file_path a) (kw_filename a)
                    (Some z) (kw_retry_count a) (kw_metadata a))
        | _ => None
        end
      else if String.eqb k "retry_count" then
        match v with
        | Json.Scalar (Json.Int z) =>
            Some (mkKwargs (kw_job_id a) (kw_conversion_type a) (kw_file_path a) (kw_filename a)
                    (kw_priority a) (Some z) (kw_metadata a))
        | _ => None
        end
      else if String.eqb k "metadata" then
        match v with
        | Json.Scalar Json.Null =>
            Some (mkKwargs (kw_job_id a) (kw_conversion_type a) (kw_file_path a) (kw_filename a)
                    (kw_priority a) (kw_retry_count a) (Some None))
        | Json.Dict d =>
            Some (mkKwargs (kw_job_id a) (kw_conversion_type a) (kw_file_path a) (kw_filename a)
                    (kw_priority a) (kw_retry_count a) (Some (Some d)))
        | _ => None
        end
      else None
  end.

(** The dataclass constructor: the four fields without a default are
    required, the others default to [0], [0] and [None]. *)
Definition construct (a : kwargs) : option QueueMessage :=
  match kw_job_id a, kw_conversion_type a, kw_file_path a, kw_filename a with
  | Some j, Some c, Some p, Some f =>
      Some (mkMessage j c p f
              (default 0%Z (kw_priority a))
              (default 0%Z (kw_retry_count a))
              (default None (kw_metadata a)))
  | _, _, _, _ => None
  end.

(** [QueueMessage.from_json]; [None] stands for a raised exception. *)
Definition from_json (json_str : string) : option QueueMessage :=
  match Json.loads json_str with
  | Some data =>
      match fold_left bind_kwarg data (Some no_kwargs) with
      | Some a => construct a
      | None => None
      end
  | None => None
  end.

(** ** Redis sorted sets

    The commands [RedisQueue] issues, on the value of one key.  A sorted set
    is kept as Redis orders it: ascending by score, members of equal score in
    lexicographic order. *)
Module Redis.

Definition zset := list (string * Z).

Definition entry_ltb (a b : string * Z) : bool :=
  (a.2 <? b.2)%Z || ((a.2 =? b.2)%Z && String.ltb a.1 b.1).

Fixpoint zinsert (e : string * Z) (z : zset) : zset :=
  match z with
  | [] => [e]
  | x :: rest => if entry_ltb e x then e :: z else x :: zinsert e rest
  end.

Definition zmem (member : string) (z : zset) : bool :=
  existsb (fun e => String.eqb e.1 member) z.

Definition zremove (member : string) (z : zset) : zset :=
  List.filter (fun e => negb (String.eqb e.1 member)) z.

(** [ZADD key score member]: the new set and the number of members that
    were added (an existing member only has its score updated). *)
Definition zadd (z : zset) (member : string) (score : Z) : zset * Z :=
  (zinsert (member, score) (zremove member z), if zmem member z then 0%Z else 1%Z).

(** [ZPOPMAX key]: the member with the highest score, removed. *)
Fixpoint zpopmax (z : zset) : option ((string * Z) * zset) :=
  match z with
  | [] => None
  | [e] => Some (e, [])
  | x :: rest =>
      match zpopmax rest with
      | Some (e, rest') => Some (e, x :: rest')
      | None => None
      end
  end.

(** [ZRANGE key 0 -1]: every member, lowest score first. *)
Definition zrange_all (z : zset) : list string := map fst z.

(** [ZREM key member]: the new set and the number of members removed. *)
Definition zrem (z : zset) (member : string) : zset * Z :=
  (zremove member z, if zmem member z then 1%Z else 0%Z).

(** [ZCARD key]. *)
Definition zcard (z : zset) : Z := Z.of_nat (length z).

(** The key space: one sorted set per queue name (a missing key is the
    empty set). *)
Definition keyspace := QueueName -> zset.

Definition empty : keyspace := fun _ => [].

Definition set_key (r : keyspace) (k : QueueName) (z : zset) : keyspace :=
  fun k' => if decide (k' = k) then z else r k'.

End Redis.

(** ** [RedisQueue] of [shared/queue.py]

    Every method wraps its Redis calls in [try ... except Exception] and
    turns a raised error into its failure value.  [fault] says that the
    Redis client raises (connection lost) before the command takes effect. *)

Definition enqueue (fault : bool) (r : Redis.keyspace) (queue_name : QueueName)
    (message : QueueMessage) : Redis.keyspace * bool :=
  if fault then (r, false)
  else
    let score := (- priority message)%Z in
    let '(z, result) := Redis.zadd (r queue_name) (to_json message) score in
    (Redis.set_key r queue_name z, negb (result =? 0)%Z).

(** [BZPOPMAX] returns nothing when the set stays empty until the timeout. *)
Definition dequeue (fault : bool) (r : Redis.keyspace) (queue_name : QueueName)
    : Redis.keyspace * option QueueMessage :=
  if fault then (r, None)
  else
    match Redis.zpopmax (r queue_name) with
    | Some ((message_json, score), z) =>
        let r' := Redis.set_key r queue_name z in
        match from_json message_json with
        | Some message => (r', Some message)
        | None => (r', None)
        end
    | None => (r, None)
    end.

Definition get_queue_size (fault : bool) (r : Redis.keyspace) (queue_name : QueueName) : Z :=
  if fault then 0%Z else Redis.zcard (r queue_name).

(** The loop of [remove_job] over the members read by [ZRANGE]. *)
Fixpoint remove_job_scan (z : Redis.zset) (messages : list string) (jid : string)
    : Redis.zset * bool :=
  match messages with
  | [] => (z, false)
  | message_json :: rest =>
      match from_json message_json with
      | None => (z, false)
      | Some message =>
          if String.eqb (job_id message) jid then
            let '(z', result) := Redis.zrem z message_json in
            if negb (result =? 0)%Z then (z', true)
            else remove_job_scan z' rest jid
          else remove_job_scan z rest jid
      end
  end.

Definition remove_job (fault : bool) (r : Redis.keyspace) (queue_name : QueueName)
    (jid : string) : Redis.keyspace * bool :=
  if fault then (r, false)
  else
    let messages := Redis.zrange_all (r queue_name) in
    let '(z, removed) := remove_job_scan (r queue_name) messages jid in
    (Redis.set_key r queue_name z, removed).

(** ** The job row of [shared/models/job.py] *)
Module Job.

Record t := mk {
  id : string;
  filename : string;
  conversion_type : ConversionType;
  status : JobStatus;
  original_size : Z;
  file_path : string;
  output_path : option string;
  assigned_service : option string;
  worker_id : option string;
  created_at : option Z;
  started_at : option Z;
  completed_at : option Z;
  error_message : option string;
  retry_count : Z;
  max_retries : Z;
  client_ip : option string;
  user_agent : option string;
  session_id : option string;
}.

Definition set_status (s : JobStatus) (j : t) : t :=
  mk (id j) (filename j) (conversion_type j) s (original_size j) (file_path j)
     (output_path j) (assigned_service j) (worker_id j) (created_at j) (started_at j)
     (completed_at j) (error_message j) (retry_count j) (max_retries j) (client_ip j)
     (user_agent j) (session_id j).

Definition set_output_path (o : option string) (j : t) : t :=
  mk (id j) (filename j) (conversion_type j) (status j) (original_size j) (file_path j)
     o (assigned_service j) (worker_id j) (created_at j) (started_at j)
     (completed_at j) (error_message j) (retry_count j) (max_retries j) (client_ip j)
     (user_agent j) (session_id j).

Definition set_assigned_service (o : option string) (j : t) : t :=
  mk (id j) (filename j) (conversion_type j) (status j) (original_size j) (file_path j)
     (output_path j) o (worker_id j) (created_at j) (started_at j)
     (completed_at j) (error_message j) (retry_count j) (max_retries j) (client_ip j)
     (user_agent j) (session_id j).

Definition set_worker_id (o : option string) (j : t) : t :=
  mk (id j) (filename j) (conversion_type j) (status j) (original_size j) (file_path j)
     (output_path j) (assigned_service j) o (created_at j) (started_at j)
     (completed_at j) (error_message j) (retry_count j) (max_retries j) (client_ip j)
     (user_agent j) (session_id j).

Definition set_started_at (o : option Z) (j : t) : t :=
  mk (id j) (filename j) (conversion_type j) (status j) (original_size j) (file_path j)
     (output_path j) (assigned_service j) (worker_id j) (created_at j) o
     (completed_at j) (error_message j) (retry_count j) (max_retries j) (client_ip j)
     (user_agent j) (session_id j).

Definition set_completed_at (o : option Z) (j : t) : t :=
  mk (id j) (filename j) (conversion_type j) (status j) (original_size j) (file_path j)
     (output_path j) (assigned_service j) (worker_id j) (created_at j) (started_at j)
     o (error_message j) (retry_count j) (max_retries j) (client_ip j)
     (user_agent j) (session_id j).

Definition set_error_message (o : option string) (j : t) : t :=
  mk (id j) (filename j) (conversion_type j) (status j) (original_size j) (file_path j)
     (output_path j) (assigned_service j) (worker_id j) (created_at j) (started_at j)
     (completed_at j) o (retry_count j) (max_retries j) (client_ip j)
     (user_agent j) (session_id j).

End Job.

(** Python truthiness of an optional string: [None] and [""] are false. *)
Definition truthy (o : option string) : bool :=
  match o with
  | Some s => negb (String.eqb s "")
  | None => false
  end.

(** ** The job table

    The rows of the [jobs] table; [id] is the primary key.  The manager's
    session is taken to be available; a lost connection is modelled where
    the code handles it on its own, in the workers' [_update_status]. *)
Definition table := list Job.t.

(** [db.query(Job).filter(Job.id == job_id).first()]. *)
Definition query_first (db : table) (jid : string) : option Job.t :=
  List.find (fun j => String.eqb (Job.id j) jid) db.


(** Attribute writes on the row [first()] returned, then [db.commit()]. *)
Fixpoint update_row (db : table) (jid : string) (f : Job.t -> Job.t) : table :=
  match db with
  | [] => []
  | j :: rest =>
      if String.eqb (Job.id j) jid then f j :: rest
      else j :: update_row rest jid f
  end.

(** The status a table holds for a job id. *)
Definition status_of (db : table) (jid : string) : option JobStatus :=
  Job.status <$> query_first db jid.


(** The stores shared by the services. *)
Record World := mkWorld {
  jobs : table;
  redis : Redis.keyspace;
}.

(** ** The Job Manager, [job-manager-service/main.py] *)

(** What an endpoint gives its caller: a body, or a raised [HTTPException]. *)
Inductive response (A : Type) :=
  | Return (body : A)
  | HTTPException (status_code : Z) (detail : string).
Arguments Return {A} body.
Arguments HTTPException {A} status_code detail.

Definition succeeded {A} (r : response A) : bool :=
  match r with
  | Return _ => true
  | HTTPException _ _ => false
  end.

(** The generic handler of every endpoint: [except Exception as e] raises
    [HTTPException(500, "Internal server error: " + str(e))]. *)
Definition internal_error {A} (e : string) : response A :=
  HTTPException 500 ("Internal server error: " +:+ e).

(** [str.lower] on code points below 256. *)
Definition lower_char (c : ascii) : ascii :=
  let n := N_of_ascii c in
  if ((65 <=? n) && (n <=? 90))%N then ascii_of_N (n + 32)
  else if ((192 <=? n) && (n <=? 222) && negb (n =? 215))%N then ascii_of_N (n + 32)
  else c.

Fixpoint lower (s : string) : string :=
  match s with
  | EmptyString => EmptyString
  | String c s' => String (lower_char c) (lower s')
  end.

Definition endswith (s suffix : string) : bool :=
  (String.length suffix <=? String.length s)%nat
  && String.eqb (substring (String.length s - String.length suffix) (String.length suffix) s) suffix.

(** [conversion_map] of [upload_file]. *)
Definition conversion_map (key : string) : option (ConversionType * QueueName) :=
  if String.eqb key "docx_to_pdf" then Some (DOCX_TO_PDF, DOCX_PDF)
  else if String.eqb key "pdf_to_docx" then Some (PDF_TO_DOCX, PDF_DOCX)
  else if String.eqb key "pdf_to_jpg" then Some (PDF_TO_JPG, PDF_IMAGE)
  else if String.eqb key "pdf_to_png" then Some (PDF_TO_PNG, PDF_IMAGE)
  else if String.eqb key "jpg_to_pdf" then Some (JPG_TO_PDF, IMAGE_PDF)
  else if String.eqb key "png_to_pdf" then Some (PNG_TO_PDF, IMAGE_PDF)
  else None.

(** The conversion type and queue of an upload: the explicit parameter when
    it names a known conversion, else the file extension. *)
Definition detect_conversion (conversion_type : option string) (file_name : string)
    : option (ConversionType * QueueName) :=
  let filename_lower := lower file_name in
  match (if truthy conversion_type then conversion_map (default "" conversion_type) else None) with
  | Some p => Some p
  | None =>
      if endswith filename_lower ".docx" then Some (DOCX_TO_PDF, DOCX_PDF)
      else if endswith filename_lower ".pdf" then Some (PDF_TO_DOCX, PDF_DOCX)
      else if endswith filename_lower ".jpg" || endswith filename_lower ".jpeg"
      then Some (JPG_TO_PDF, IMAGE_PDF)
      else if endswith filename_lower ".png" then Some (PNG_TO_PDF, IMAGE_PDF)
      else None
  end.

(** The request of [POST /upload]. *)
Record UploadRequest := mkUpload {
  up_filename : string;
  up_conversion_type : option string;
  up_size : Z;                       (* len(file_content) *)
  up_client_ip : option string;
  up_user_agent : option string;
  up_session_id : string;
}.

(** What the request meets outside the process. *)
Record UploadEnv := mkUploadEnv {
  env_job_id : string;               (* str(uuid.uuid4()) *)
  env_max_size : Z;                  (* MAX_FILE_SIZE *)
  env_storage_ok : bool;             (* storage.upload_data(...) *)
  env_redis_fault : bool;            (* the Redis client raises in enqueue *)
  env_now : Z;                       (* the server clock, for created_at *)
}.

Record UploadBody := mkUploadBody {
  body_job_id : string;
  body_filename : string;
  body_conversion_type : string;
  body_status : string;
  body_message : string;
}.

(** The dispatch message [upload_file] builds for the row it inserted. *)
Definition upload_message (job : Job.t) : QueueMessage :=
  mkMessage (Job.id job) (ConversionType_value (Job.conversion_type job))
    (Job.file_path job) (Job.filename job) 1%Z 0%Z
    (Some [("original_size"%string, Json.Int (Job.original_size job));
           ("client_ip"%string,
            match Job.client_ip job with
            | Some ip => Json.Str ip
            | None => Json.Null
            end)]).

(** The row [upload_file] inserts. *)
Definition upload_row (req : UploadRequest) (env : UploadEnv) (conv_type : ConversionType)
    : Job.t :=
  Job.mk (env_job_id env) (up_filename req) conv_type UPLOADED (up_size req)
    ("uploads/" +:+ env_job_id env +:+ "_" +:+ up_filename req)
    None None None (Some (env_now env)) None None None 0%Z 3%Z
    (up_client_ip req) (up_user_agent req) (Some (up_session_id req)).

Definition upload_file (w : World) (req : UploadRequest) (env : UploadEnv)
    : World * response UploadBody :=
  if String.eqb (up_filename req) "" then (w, HTTPException 400 "No file provided")
  else
    match detect_conversion (up_conversion_type req) (up_filename req) with
    | None => (w, HTTPException 400 "Unsupported file type. Supported: .docx, .pdf, .jpg, .png")
    | Some (conv_type, queue_name) =>
        if (env_max_size env <? up_size req)%Z then (w, HTTPException 413
                ("File too large. Maximum size: "
                 +:+ Json.dumps_int (env_max_size env / (1024 * 1024)) +:+ "MB"))
        else
          let jid := env_job_id env in
          (* STEP 1: the object store first *)
          if negb (env_storage_ok env) then
            (w, HTTPException 500 "Failed to upload file to storage")
          else
            (* STEP 2: the row, with status UPLOADED; a duplicate primary key
               raises in commit and reaches the generic handler *)
            match query_first (jobs w) jid with
            | Some _ => (w, internal_error "duplicate key value violates unique constraint")
            | None =>
                let job := upload_row req env conv_type in
                let db1 := jobs w ++ [job] in
                (* STEP 3: the queue *)
                let message := upload_message job in
                let '(r1, queue_success) :=
                  enqueue (env_redis_fault env) (redis w) queue_name message in
                let db2 :=
                  if queue_success then update_row db1 jid (Job.set_status PENDING) else db1 in
                let final_status := if queue_success then PENDING else UPLOADED in
                (mkWorld db2 r1,
                 Return (mkUploadBody jid (up_filename req) (ConversionType_value conv_type)
                           (JobStatus_value final_status)
                           (if bool_decide (final_status = UPLOADED)
                            then "File uploaded successfully"
                            else "File uploaded and conversion queued successfully")))
            end
    end.

(** Attribute access on the enumeration classes: [None] is [AttributeError]. *)
Definition ConversionType_attr (name : string) : option ConversionType :=
  if String.eqb name "DOCX_TO_PDF" then Some DOCX_TO_PDF
  else if String.eqb name "PDF_TO_DOCX" then Some PDF_TO_DOCX
  else if String.eqb name "PDF_TO_JPG" then Some PDF_TO_JPG
  else if String.eqb name "PDF_TO_PNG" then Some PDF_TO_PNG
  else if String.eqb name "JPG_TO_PDF" then Some JPG_TO_PDF
  else if String.eqb name "PNG_TO_PDF" then Some PNG_TO_PDF
  else None.

Definition QueueName_attr (name : string) : option QueueName :=
  if String.eqb name "DOCX_PDF" then Some DOCX_PDF
  else if String.eqb name "PDF_DOCX" then Some PDF_DOCX
  else if String.eqb name "PDF_IMAGE" then Some PDF_IMAGE
  else if String.eqb name "IMAGE_PDF" then Some IMAGE_PDF
  else if String.eqb name "NOTIFICATIONS" then Some NOTIFICATIONS
  else None.

(** The [if / elif / else] of [cancel_job] that picks the queue of a pending
    job.  The third condition reads [ConversionType.MP4_TO_MP3]; [None] is
    the [AttributeError] a failed attribute access raises. *)
Definition cancel_queue_name (ct : ConversionType) : option QueueName :=
  if bool_decide (ct = DOCX_TO_PDF) then Some DOCX_PDF
  else if bool_decide (ct = PDF_TO_DOCX) then Some PDF_DOCX
  else
    match ConversionType_attr "MP4_TO_MP3" with
    | None => None
    | Some mp4 =>
        if bool_decide (ct = mp4) then QueueName_attr "MP4_MP3"
        else Some DOCX_PDF
    end.

Record CancelBody := mkCancelBody {
  cancel_job_id : string;
  cancel_status : string;
  cancel_message : string;
}.

(** The writes of a cancel on the row: [status] and [completed_at]. *)
Definition mark_cancelled (now : Z) (j : Job.t) : Job.t :=
  Job.set_completed_at (Some now) (Job.set_status CANCELLED j).

(** [DELETE /jobs/{job_id}].  [fault] is a Redis fault in [remove_job], [now]
    the clock read for [completed_at]. *)
Definition cancel_job (w : World) (jid : string) (fault : bool) (now : Z)
    : World * response CancelBody :=
  match query_first (jobs w) jid with
  | None => (w, HTTPException 404 "Job not found")
  | Some job =>
      if terminal (Job.status job) then
        (w, HTTPException 400
              ("Cannot cancel job with status: " +:+ JobStatus_value (Job.status job)))
      else
        let mark r :=
          (mkWorld (update_row (jobs w) jid (mark_cancelled now)) r,
           Return (mkCancelBody jid "cancelled" "Job cancelled successfully")) in
        if bool_decide (Job.status job = PENDING) then
          match cancel_queue_name (Job.conversion_type job) with
          | None => (w, internal_error "MP4_TO_MP3")
          | Some queue_name =>
              let '(r, _) := remove_job fault (redis w) queue_name jid in
              mark r
          end
        else mark (redis w)
  end.

(** [queue_map] of [retry_uploaded_jobs]. *)
Definition queue_map (ct : ConversionType) : option QueueName :=
  match ct with
  | DOCX_TO_PDF => Some DOCX_PDF
  | PDF_TO_DOCX => Some PDF_DOCX
  | PDF_TO_JPG | PDF_TO_PNG => Some PDF_IMAGE
  | JPG_TO_PDF | PNG_TO_PDF => Some IMAGE_PDF
  end.






(** ** The worker harness, [docx-pdf-service/conversion_worker.py]

    The three conversion services run the same loop; they differ in the
    service name written to the row and in the conversion they call. *)

(** Exceptions.  [asyncio.CancelledError] is not an [Exception]: the handlers
    written [except Exception] let it pass. *)
Inductive exn :=
  | Exception (msg : string)
  | CancelledError.

Inductive result (A : Type) :=
  | Ok (a : A)
  | Raise (e : exn).
Arguments Ok {A} a.
Arguments Raise {A} e.

(** The state of one [ConversionWorker] instance. *)
Record Worker := mkWorker {
  is_running : bool;
  active_jobs : gset string;
}.

(** Worker code runs over the shared stores and its own instance. *)
Definition M (A : Type) : Type := World * Worker -> result A * (World * Worker).

Definition ret {A} (a : A) : M A := fun st => (Ok a, st).

Definition raise {A} (e : exn) : M A := fun st => (Raise e, st).

Definition bind {A B} (m : M A) (k : A -> M B) : M B :=
  fun st =>
    match m st with
    | (Ok a, st') => k a st'
    | (Raise e, st') => (Raise e, st')
    end.

Notation "x <- m ;; k" := (bind m (fun x => k))
  (at level 100, m at next level, right associativity).
Notation "m ;;; k" := (bind m (fun _ => k))
  (at level 100, right associativity).

(** [try: body / except Exception as e: handler (str e)]. *)
Definition try_except {A} (body : M A) (handler : string -> M A) : M A :=
  fun st =>
    match body st with
    | (Raise (Exception msg), st') => handler msg st'
    | other => other
    end.

(** [try: body / finally: cleanup]: the cleanup runs on every path; the
    outcome of the body stands unless the cleanup itself raises. *)
Definition try_finally {A} (body : M A) (cleanup : M unit) : M A :=
  fun st =>
    match body st with
    | (r, st') =>
        match cleanup st' with
        | (Ok _, st'') => (r, st'')
        | (Raise e, st'') => (Raise e, st'')
        end
    end.

Definition active_jobs_add (jid : string) : M unit :=
  fun '(w, k) => (Ok tt, (w, mkWorker (is_running k) ({[jid]} ∪ active_jobs k))).

Definition active_jobs_discard (jid : string) : M unit :=
  fun '(w, k) => (Ok tt, (w, mkWorker (is_running k) (active_jobs k ∖ {[jid]}))).

(** The keyword arguments the harness passes to [_update_status]. *)
Inductive kwarg :=
  | worker_id_ (v : string)
  | started_at_ (v : Z)
  | output_path_ (v : option string)
  | error_message_ (v : option string)
  | completed_at_ (v : Z).

(** [setattr(job, k, v)]; every keyword names a column. *)
Definition setattr (j : Job.t) (kw : kwarg) : Job.t :=
  match kw with
  | worker_id_ v => Job.set_worker_id (Some v) j
  | started_at_ v => Job.set_started_at (Some v) j
  | output_path_ v => Job.set_output_path v j
  | error_message_ v => Job.set_error_message v j
  | completed_at_ v => Job.set_completed_at (Some v) j
  end.

(** The write of [_update_status] on the row it found. *)
Definition write_status (service_name : string) (s : JobStatus) (kwargs_ : list kwarg)
    (j : Job.t) : Job.t :=
  fold_left setattr kwargs_
    (Job.set_assigned_service (Some service_name) (Job.set_status s j)).

(** The effect of [_update_status] on the shared stores: the whole body sits
    in [try ... except Exception] that logs; [db_fault] says the session
    raises, and then nothing is written.  A missing row is skipped. *)
Definition status_write (service_name : string) (db_fault : bool) (jid : string)
    (s : JobStatus) (kwargs_ : list kwarg) (w : World) : World :=
  if db_fault then w
  else
    match query_first (jobs w) jid with
    | Some _ =>
        mkWorld (update_row (jobs w) jid (write_status service_name s kwargs_)) (redis w)
    | None => w
    end.

(** [_update_status] never raises. *)
Definition _update_status (service_name : string) (db_fault : bool) (jid : string)
    (s : JobStatus) (kwargs_ : list kwarg) : M unit :=
  fun '(w, k) => (Ok tt, (status_write service_name db_fault jid s kwargs_ w, k)).

(** What a conversion returns: [(success, output_path, error)]. *)
Definition outcome : Type := bool * option string * option string.

(** A conversion, as the harness sees it: it is awaited, so the shared
    stores may have changed when it returns, and it may raise. *)
Definition conversion : Type := QueueMessage -> World -> result outcome * World.

Definition await (c : World -> result outcome * World) : M outcome :=
  fun '(w, k) => let '(r, w') := c w in (r, (w', k)).

(** What one call of [_process_job] meets. *)
Record JobEnv := mkJobEnv {
  claim_fault : bool;       (* the session raises in the PROCESSING write *)
  final_fault : bool;       (* the session raises in the last write *)
  started : Z;              (* datetime.utcnow() at the claim *)
  completed : Z;            (* datetime.utcnow() at the end *)
  convert : conversion;
}.

(** The keywords of the status writes of [_process_job]. *)
Definition claim_kwargs (worker_id : string) (env : JobEnv) : list kwarg :=
  [worker_id_ worker_id; started_at_ (started env)].

Definition completed_kwargs (out : option string) (env : JobEnv) : list kwarg :=
  [output_path_ out; completed_at_ (completed env)].

Definition failed_kwargs (err : option string) (env : JobEnv) : list kwarg :=
  [error_message_ err; completed_at_ (completed env)].

Definition _process_job (service_name worker_id : string) (message : QueueMessage)
    (env : JobEnv) : M unit :=
  let jid := job_id message in
  try_finally
    (try_except
       (active_jobs_add jid ;;;
        _update_status service_name (claim_fault env) jid PROCESSING
          (claim_kwargs worker_id env) ;;;
        r <- await (convert env message) ;;
        let '(success, out, err) := r in
        if success then
          _update_status service_name (final_fault env) jid COMPLETED
            (completed_kwargs out env)
        else
          _update_status service_name (final_fault env) jid FAILED
            (failed_kwargs err env))
       (fun e =>
          _update_status service_name (final_fault env) jid FAILED
            (failed_kwargs (Some e) env)))
    (active_jobs_discard jid).

(** One turn of [_worker_loop]. *)
Record Turn := mkTurn {
  cancelled : bool;         (* task.cancel() reaches the wait for a message *)
  dequeue_fault : bool;     (* the Redis client raises in dequeue *)
  job_env : JobEnv;
}.

Definition await_dequeue (t : Turn) (queue_name : QueueName) : M (option QueueMessage) :=
  fun '(w, k) =>
    if cancelled t then (Raise CancelledError, (w, k))
    else
      let '(r, message) := dequeue (dequeue_fault t) (redis w) queue_name in
      (Ok message, (mkWorld (jobs w) r, k)).

(** The body of the [while] of [_worker_loop], inside its [try]. *)
Definition worker_turn (service_name worker_id : string) (queue_name : QueueName)
    (t : Turn) : M unit :=
  message <- await_dequeue t queue_name ;;
  match message with
  | Some m => _process_job service_name worker_id m (job_env t)
  | None => ret tt
  end.

(** [_worker_loop] over the turns the scheduler grants it.  The value is the
    number of turns entered: [CancelledError] breaks the loop, any other
    exception is logged and the loop goes on after a pause. *)
Fixpoint _worker_loop (service_name worker_id : string) (queue_name : QueueName)
    (turns : list Turn) : World * Worker -> nat * (World * Worker) :=
  fun st =>
    match turns with
    | [] => (O, st)
    | t :: rest =>
        if is_running st.2 then
          match worker_turn service_name worker_id queue_name t st with
          | (Raise CancelledError, st') => (1%nat, st')
          | (_, st') =>
              let '(n, st'') := _worker_loop service_name worker_id queue_name rest st' in
              (S n, st'')
          end
        else (O, st)
    end.

(** *** The conversion of the DOCX service *)

(** A call into the object store, the file system or the tool. *)
Inductive call (A : Type) :=
  | Returns (a : A)
  | Raises (e : string).
Arguments Returns {A} a.
Arguments Raises {A} e.

Inductive process :=
  | TimedOut                                   (* asyncio.TimeoutError *)
  | Exited (returncode : Z) (stderr : string).

(** What one run of [_docx_to_pdf] meets, in the order of its calls. *)
Record ToolRun := mkToolRun {
  mkdtemp : call unit;
  download_file : call bool;
  libreoffice : call process;
  output_exists : bool;                        (* os.path.exists(output_file) *)
  pdf_files : list string;                     (* glob of the temp directory *)
  upload_file_ : call bool;
}.

Definition _docx_to_pdf (jid : string) (run : ToolRun) : outcome :=
  match mkdtemp run with
  | Raises e => (false, None, Some e)
  | Returns _ =>
      match download_file run with
      | Raises e => (false, None, Some e)
      | Returns false => (false, None, Some "Failed to download input file")
      | Returns true =>
          match libreoffice run with
          | Raises e => (false, None, Some e)
          | Returns TimedOut => (false, None, Some "Conversion timeout")
          | Returns (Exited returncode stderr) =>
              if negb (returncode =? 0)%Z then
                (false, None,
                 Some (if String.eqb stderr "" then "LibreOffice conversion failed" else stderr))
              else if negb (output_exists run) && bool_decide (pdf_files run = []) then
                (false, None, Some "Output PDF not found")
              else
                let output_path := ("converted/" +:+ jid +:+ ".pdf")%string in
                match upload_file_ run with
                | Raises e => (false, None, Some e)
                | Returns true => (true, Some output_path, None)
                | Returns false => (false, None, Some "Failed to upload output file")
                end
          end
      end
  end.

(** The DOCX conversion as the harness calls it: it touches no shared store. *)
Definition docx_conversion (run : ToolRun) : conversion :=
  fun message w => (Ok (_docx_to_pdf (job_id message) run), w).

(** *** The conversion of the PDF-to-DOCX service,
    [pdf-docx-service/conversion_worker.py] *)
Module PdfDocx.

(** What one run of [_pdf_to_docx] meets, in the order of its calls. *)
Record Run := mkRun {
  download_to_temp : call bool;                (* a temp path, or None *)
  mkstemp : call unit;
  pdf2docx : call unit;                        (* raises on error or timeout *)
  output_nonempty : bool;                      (* exists and getsize > 0 *)
  upload : call bool;
}.

Definition _pdf_to_docx (jid : string) (run : Run) : outcome :=
  match download_to_temp run with
  | Raises e => (false, None, Some e)
  | Returns false => (false, None, Some "Failed to download"%string)
  | Returns true =>
      match mkstemp run with
      | Raises e => (false, None, Some e)
      | Returns _ =>
          match pdf2docx run with
          | Raises e => (false, None, Some e)
          | Returns _ =>
              if output_nonempty run then
                let out_path := ("converted/" +:+ jid +:+ ".docx")%string in
                match upload run with
                | Raises e => (false, None, Some e)
                | Returns true => (true, Some out_path, None)
                | Returns false => (false, None, Some "Conversion failed"%string)
                end
              else (false, None, Some "Conversion failed"%string)
          end
      end
  end.

Definition conversion_ (run : Run) : conversion :=
  fun message w => (Ok (_pdf_to_docx (job_id message) run), w).

End PdfDocx.

(** *** The conversions of the image service,
    [image-service/conversion_worker.py] *)
Module ImageService.

(** What one run of [_pdf_to_image] or [_image_to_pdf] meets. *)
Record Run := mkRun {
  download_to_temp : call bool;                (* a temp path, or None *)
  pages : call nat;                            (* len(convert_from_path(...)) *)
  write_files : call unit;                     (* mkstemp, save, zip, img2pdf *)
  output_nonempty : bool;                      (* exists and getsize > 0 *)
  upload : call bool;
}.

Definition _pdf_to_image (jid fmt : string) (run : Run) : outcome :=
  match download_to_temp run with
  | Raises e => (false, None, Some e)
  | Returns false => (false, None, Some "Failed to download"%string)
  | Returns true =>
      match pages run with
      | Raises e => (false, None, Some e)
      | Returns n =>
          match write_files run with
          | Raises e => (false, None, Some e)
          | Returns _ =>
              let out_path :=
                if Nat.eqb n 1 then ("converted/" +:+ jid +:+ "." +:+ fmt)%string
                else ("converted/" +:+ jid +:+ ".zip")%string in
              match upload run with
              | Raises e => (false, None, Some e)
              | Returns true => (true, Some out_path, None)
              | Returns false => (false, None, Some "Upload failed"%string)
              end
          end
      end
  end.

Definition _image_to_pdf (jid : string) (run : Run) : outcome :=
  match download_to_temp run with
  | Raises e => (false, None, Some e)
  | Returns false => (false, None, Some "Failed to download"%string)
  | Returns true =>
      match write_files run with
      | Raises e => (false, None, Some e)
      | Returns _ =>
          if output_nonempty run then
            let out_path := ("converted/" +:+ jid +:+ ".pdf")%string in
            match upload run with
            | Raises e => (false, None, Some e)
            | Returns true => (true, Some out_path, None)
            | Returns false => (false, None, Some "Conversion failed"%string)
            end
          else (false, None, Some "Conversion failed"%string)
      end
  end.

(** The dispatch of [_process_job] on the conversion type of the message. *)
Definition conversion_ (run : Run) : conversion :=
  fun message w =>
    let ct := conversion_type message in
    (Ok (if String.eqb ct (ConversionType_value PDF_TO_JPG)
         then _pdf_to_image (job_id message) "jpg" run
         else if String.eqb ct (ConversionType_value PDF_TO_PNG)
         then _pdf_to_image (job_id message) "png" run
         else if String.eqb ct (ConversionType_value JPG_TO_PDF)
                 || String.eqb ct (ConversionType_value PNG_TO_PDF)
         then _image_to_pdf (job_id message) run
         else (false, None, Some ("Unknown type: " +:+ ct)%string)),
     w).

End ImageService.

(** ** More of [RedisQueue]: [peek], [clear_queue], [get_all_queue_stats] *)

(** Two more commands on the key space. *)
Module RedisCmd.

(** [ZREVRANGE key start stop WITHSCORES]: the entries between two ranks,
    from the highest score down.  A negative rank counts from the end and
    the ranks are clamped as the server does it. *)
Definition zrevrange (z : Redis.zset) (start stop : Z) : list (string * Z) :=
  let llen := Z.of_nat (length z) in
  let start1 := if (start <? 0)%Z then (llen + start)%Z else start in
  let stop1 := if (stop <? 0)%Z then (llen + stop)%Z else stop in
  let start2 := if (start1 <? 0)%Z then 0%Z else start1 in
  if (stop1 <? start2)%Z || (llen <=? start2)%Z then []
  else
    let stop2 := if (llen <=? stop1)%Z then (llen - 1)%Z else stop1 in
    firstn (Z.to_nat (stop2 - start2 + 1)) (skipn (Z.to_nat start2) (rev z)).

(** [DEL key]: the number of keys removed.  A sorted set without members
    is not a key. *)
Definition del (r : Redis.keyspace) (k : QueueName) : Redis.keyspace * Z :=
  (Redis.set_key r k [], match r k with [] => 0%Z | _ :: _ => 1%Z end).

End RedisCmd.

(** The loop of [peek]: every entry is decoded; [None] is an exception
    raised by [from_json]. *)
Fixpoint peek_messages (results : list (string * Z)) : option (list QueueMessage) :=
  match results with
  | [] => Some []
  | (message_json, score) :: rest =>
      match from_json message_json with
      | Some message =>
          match peek_messages rest with
          | Some messages => Some (message :: messages)
          | None => None
          end
      | None => None
      end
  end.

Definition peek (fault : bool) (r : Redis.keyspace) (queue_name : QueueName) (count : Z)
    : list QueueMessage :=
  if fault then []
  else
    match peek_messages (RedisCmd.zrevrange (r queue_name) 0 (count - 1)) with
    | Some messages => messages
    | None => []
    end.

Definition clear_queue (fault : bool) (r : Redis.keyspace) (queue_name : QueueName)
    : Redis.keyspace * bool :=
  if fault then (r, false)
  else
    let '(r', result) := RedisCmd.del r queue_name in
    (r', negb (result =? 0)%Z).

(** The members of the enumeration [QueueName], in the order of the class. *)
Definition QueueName_members : list QueueName :=
  [DOCX_PDF; PDF_DOCX; PDF_IMAGE; IMAGE_PDF; NOTIFICATIONS].

(** [get_all_queue_stats]: a dictionary from the key of each queue to its
    size; [fault] tells for which queue the Redis client raises. *)
Definition get_all_queue_stats (fault : QueueName -> bool) (r : Redis.keyspace)
    : gmap string Z :=
  fold_left
    (fun stats queue_name =>
       <[QueueName_value queue_name := get_queue_size (fault queue_name) r queue_name]> stats)
    QueueName_members ∅.

(** ** The object store, [shared/storage.py]

    The bucket is a map from object names to the bytes stored under them,
    the local file system a map from paths to contents.  Every method of
    [StorageConfig] catches [S3Error] and turns it into its failure value;
    any other exception of the client (the server cannot be reached)
    passes through to the caller. *)
Module Storage.

Definition store := gmap string string.

Definition files := gmap string string.

(** How the MinIO client answers one request. *)
Inductive client :=
  | Answers                    (* the request is served *)
  | S3Error                    (* the server answers with an error *)
  | Fails (e : string).        (* an exception that is not an [S3Error] *)

(** [fget_object]: a missing object is an [S3Error] of the server. *)
Definition download_file (c : client) (s : store) (fs : files)
    (object_name file_path : string) : files * call bool :=
  match c with
  | Answers =>
      match s !! object_name with
      | Some data => (<[file_path := data]> fs, Returns true)
      | None => (fs, Returns false)
      end
  | S3Error => (fs, Returns false)
  | Fails e => (fs, Raises e)
  end.

(** [get_object]: the bytes the response streams, or [None]. *)
Definition get_object (c : client) (s : store) (object_name : string)
    : call (option string) :=
  match c with
  | Answers => Returns (s !! object_name)
  | S3Error => Returns None
  | Fails e => Raises e
  end.

(** [remove_object] succeeds whether or not the object exists. *)
Definition delete_object (c : client) (s : store) (object_name : string)
    : store * call bool :=
  match c with
  | Answers => (delete object_name s, Returns true)
  | S3Error => (s, Returns false)
  | Fails e => (s, Raises e)
  end.

(** [download_to_temp].  [mkstemp] is the path [tempfile.mkstemp] creates,
    an empty file, unless it raises.  The outer handler catches every
    exception and returns [None]. *)
Definition download_to_temp (mkstemp : call string) (c : client) (s : store) (fs : files)
    (object_name : string) : files * option string :=
  match mkstemp with
  | Raises _ => (fs, None)
  | Returns temp_path =>
      let fs1 := <[temp_path := ""%string]> fs in
      match download_file c s fs1 object_name temp_path with
      | (fs2, Returns true) => (fs2, Some temp_path)
      | (fs2, Returns false) => (delete temp_path fs2, None)    (* unlink(missing_ok=True) *)
      | (fs2, Raises _) => (fs2, None)
      end
  end.

End Storage.

(** ** More of the job row, [shared/models/job.py] *)

(** Lookup of a member by its value, [JobStatus(value)]; [None] is the
    [ValueError] of a value no member has. *)
Definition JobStatus_of_value (value : string) : option JobStatus :=
  List.find (fun s => String.eqb (JobStatus_value s) value)
    [UPLOADED; PENDING; PROCESSING; COMPLETED; FAILED; CANCELLED].

Definition ConversionType_of_value (value : string) : option ConversionType :=
  List.find (fun c => String.eqb (ConversionType_value c) value)
    [DOCX_TO_PDF; PDF_TO_DOCX; PDF_TO_JPG; PDF_TO_PNG; JPG_TO_PDF; PNG_TO_PDF].

(** The dictionary of [Job.to_dict].  A datetime is the number of
    microseconds since the epoch; [isoformat] prints it and is left out. *)
Record JobDict := mkJobDict {
  dict_id : string;
  dict_filename : string;
  dict_conversion_type : string;
  dict_status : string;
  dict_original_size : Z;
  dict_file_path : string;
  dict_output_path : option string;
  dict_assigned_service : option string;
  dict_created_at : option Z;
  dict_started_at : option Z;
  dict_completed_at : option Z;
  dict_error_message : option string;
  dict_retry_count : Z;
  dict_max_retries : Z;
}.

Definition to_dict (j : Job.t) : JobDict :=
  mkJobDict (Job.id j) (Job.filename j) (ConversionType_value (Job.conversion_type j))
    (JobStatus_value (Job.status j)) (Job.original_size j) (Job.file_path j)
    (Job.output_path j) (Job.assigned_service j) (Job.created_at j) (Job.started_at j)
    (Job.completed_at j) (Job.error_message j) (Job.retry_count j) (Job.max_retries j).

(** ** More of the Job Manager: status, download, listings, clean-up *)

(** [get_or_create_session_id]: the session id and the cookie set on the
    response.  [fresh] is the new id, 32 hexadecimal digits of a SHA-256. *)
Record Cookie := mkCookie {
  cookie_key : string;
  cookie_value : string;
  cookie_max_age : Z;
  cookie_httponly : bool;
  cookie_samesite : string;
}.

Definition get_or_create_session_id (cookie : option string) (fresh : string)
    : string * option Cookie :=
  if truthy cookie then (default ""%string cookie, None)
  else (fresh, Some (mkCookie "session_id" fresh (30 * 24 * 60 * 60) true "lax")).

(** [GET /status/{job_id}]. *)
Definition get_job_status (db : table) (jid : string) : response JobDict :=
  match query_first db jid with
  | None => HTTPException 404 "Job not found"
  | Some job => Return (to_dict job)
  end.

(** *** Download *)

(** [file_obj.read(n)] on what is left to read: the chunk and the rest. *)
Fixpoint read (n : nat) (unread : string) : string * string :=
  match n, unread with
  | S n', String c s => let '(chunk, rest) := read n' s in (String c chunk, rest)
  | _, _ => (EmptyString, unread)
  end.

Definition chunk_size : nat := Z.to_nat 8192.

(** The generator of [download_file]: chunks of 8192 bytes until a read
    returns nothing.  Every turn but the last takes at least one byte, so
    the length of the object bounds the number of turns. *)
Fixpoint generate_loop (turns : nat) (unread : string) : list string :=
  match turns with
  | O => []
  | S turns' =>
      let '(chunk, rest) := read chunk_size unread in
      if String.eqb chunk "" then [] else chunk :: generate_loop turns' rest
  end.

Definition generate (file_obj : string) : list string :=
  generate_loop (S (String.length file_obj)) file_obj.

(** [str.rfind] of one character, from position [i] on: the index of the
    last occurrence, or -1. *)
Fixpoint rfind_from (c : ascii) (s : string) (i : Z) : Z :=
  match s with
  | EmptyString => (-1)%Z
  | String x s' =>
      let later := rfind_from c s' (i + 1) in
      if (0 <=? later)%Z then later else if Ascii.eqb x c then i else (-1)%Z
  end.

Definition rfind (c : ascii) (s : string) : Z := rfind_from c s 0.

(** The loop of [genericpath._splitext] over the positions between the
    last separator and the last dot: whether one of them is not a dot. *)
Fixpoint name_before_dot (p : string) (filenameIndex : nat) (turns : nat) : bool :=
  match turns with
  | O => false
  | S turns' =>
      if negb (String.eqb (substring filenameIndex 1 p) ".") then true
      else name_before_dot p (S filenameIndex) turns'
  end.

(** [os.path.splitext]. *)
Definition splitext (p : string) : string * string :=
  let sepIndex := rfind "/" p in
  let dotIndex := rfind "." p in
  if (sepIndex <? dotIndex)%Z
     && name_before_dot p (Z.to_nat (sepIndex + 1)) (Z.to_nat (dotIndex - (sepIndex + 1)))
  then (substring 0 (Z.to_nat dotIndex) p,
        substring (Z.to_nat dotIndex) (String.length p - Z.to_nat dotIndex) p)
  else (p, EmptyString).

(** [output_map] of [download_file]: the extension and the media type. *)
Definition output_map (ct : ConversionType) : option (string * string) :=
  match ct with
  | DOCX_TO_PDF => Some (".pdf", "application/pdf")
  | PDF_TO_DOCX =>
      Some (".docx",
            "application/vnd.openxmlformats-officedocument.wordprocessingml.document")
  | PDF_TO_JPG => Some (".jpg", "image/jpeg")
  | PDF_TO_PNG => Some (".png", "image/png")
  | JPG_TO_PDF => Some (".pdf", "application/pdf")
  | PNG_TO_PDF => Some (".pdf", "application/pdf")
  end%string.

(** The name and the media type of the download. *)
Definition output_name (job : Job.t) : string * string :=
  let base_name := (splitext (Job.filename job)).1 in
  if truthy (Job.output_path job) && endswith (default ""%string (Job.output_path job)) ".zip"
  then (base_name +:+ "_pages.zip", "application/zip"%string)
  else
    match output_map (Job.conversion_type job) with
    | Some (ext, content_type) => (base_name +:+ ext, content_type)
    | None => ("converted_" +:+ Job.filename job, "application/octet-stream"%string)
    end.

(** The [StreamingResponse]. *)
Record Download := mkDownload {
  chunks : list string;
  media_type : string;
  content_disposition : string;
}.

(** [GET /download/{job_id}], the endpoint [download_file] of the Job
    Manager; the name is taken by the step of a conversion run.  [c] is how
    the MinIO client answers. *)
Definition download (db : table) (s : Storage.store) (c : Storage.client) (jid : string)
    : response Download :=
  match query_first db jid with
  | None => HTTPException 404 "Job not found"
  | Some job =>
      if negb (bool_decide (Job.status job = COMPLETED)) then
        HTTPException 400
          ("Job not completed. Current status: " +:+ JobStatus_value (Job.status job))
      else if negb (truthy (Job.output_path job)) then
        HTTPException 404 "Output file not found"
      else
        match Storage.get_object c s (default ""%string (Job.output_path job)) with
        | Raises e => internal_error e
        | Returns None => HTTPException 404 "File not found in storage"
        | Returns (Some file_obj) =>
            let '(output_filename, content_type) := output_name job in
            Return (mkDownload (generate file_obj) content_type
                      ("attachment; filename=" +:+ output_filename))
        end
  end.

(** *** Listings *)

(** The filters of [list_jobs] and [list_session_jobs], the same statements
    in both: [status], then [conversion_type].  An absent or empty
    parameter filters nothing; a value that no member of the enumeration
    has is answered with 400. *)
Definition apply_filters (query : table) (status conversion_type : option string)
    : response table :=
  let by_status :=
    if truthy status then
      match JobStatus_of_value (default ""%string status) with
      | Some status_enum =>
          Return (List.filter (fun j => bool_decide (Job.status j = status_enum)) query)
      | None => HTTPException 400 ("Invalid status: " +:+ default ""%string status)
      end
    else Return query in
  match by_status with
  | HTTPException code detail => HTTPException code detail
  | Return query1 =>
      if truthy conversion_type then
        match ConversionType_of_value (default ""%string conversion_type) with
        | Some type_enum =>
            Return (List.filter
                      (fun j => bool_decide (Job.conversion_type j = type_enum)) query1)
        | None =>
            HTTPException 400
              ("Invalid conversion type: " +:+ default ""%string conversion_type)
        end
      else Return query1
  end.

(** [ORDER BY created_at DESC] as PostgreSQL sorts: NULL counts as larger
    than every value; rows that compare equal keep the order of the
    table. *)
Definition created_not_before (a b : Job.t) : bool :=
  match Job.created_at a, Job.created_at b with
  | None, _ => true
  | Some _, None => false
  | Some x, Some y => (y <=? x)%Z
  end.

Fixpoint insert_desc (j : Job.t) (sorted : table) : table :=
  match sorted with
  | [] => [j]
  | x :: rest => if created_not_before j x then j :: sorted else x :: insert_desc j rest
  end.

Definition order_by_created_at_desc (query : table) : table :=
  fold_right insert_desc [] query.

(** [.offset(offset).limit(limit).all()]. *)
Definition page (query : table) (limit offset : Z) : table :=
  firstn (Z.to_nat limit) (skipn (Z.to_nat offset) (order_by_created_at_desc query)).

Record ListBody := mkListBody {
  list_jobs_ : list JobDict;
  list_total : Z;
  list_limit : Z;
  list_offset : Z;
}.

(** [GET /jobs].  PostgreSQL refuses a negative LIMIT or OFFSET; the error
    reaches the generic handler. *)
Definition list_jobs (db : table) (status conversion_type : option string)
    (limit offset : Z) : response ListBody :=
  match apply_filters db status conversion_type with
  | HTTPException code detail => HTTPException code detail
  | Return query =>
      if (limit <? 0)%Z then internal_error "LIMIT must not be negative"
      else if (offset <? 0)%Z then internal_error "OFFSET must not be negative"
      else
        Return (mkListBody (map to_dict (page query limit offset))
                  (Z.of_nat (length query)) limit offset)
  end.

Record SessionListBody := mkSessionListBody {
  session_jobs : list JobDict;
  session_total : Z;
  session_limit : Z;
  session_offset : Z;
  session_session_id : string;
  session_set_cookie : option Cookie;
}.

(** [GET /session/jobs]. *)
Definition list_session_jobs (db : table) (cookie : option string) (fresh : string)
    (status conversion_type : option string) (limit offset : Z)
    : response SessionListBody :=
  let '(session_id, set_cookie) := get_or_create_session_id cookie fresh in
  let query0 :=
    List.filter (fun j => bool_decide (Job.session_id j = Some session_id)) db in
  match apply_filters query0 status conversion_type with
  | HTTPException code detail => HTTPException code detail
  | Return query =>
      if (limit <? 0)%Z then internal_error "LIMIT must not be negative"
      else if (offset <? 0)%Z then internal_error "OFFSET must not be negative"
      else
        Return (mkSessionListBody (map to_dict (page query limit offset))
                  (Z.of_nat (length query)) limit offset session_id set_cookie)
  end.

(** *** Clean-up *)

(** [timedelta(hours=h)], in microseconds. *)
Definition timedelta_hours (h : Z) : Z := (h * 3600 * 1000000)%Z.

(** What one call of [cleanup_expired_jobs] meets. *)
Record CleanupEnv := mkCleanupEnv {
  expiry_hours : Z;                        (* JOB_EXPIRY_HOURS *)
  failed_expiry_hours : Z;                 (* FAILED_JOB_EXPIRY_HOURS *)
  utcnow_cutoff : Z;                       (* the clock, first read *)
  utcnow_failed_cutoff : Z;                (* the clock, second read *)
  storage_client : string -> Storage.client;   (* by object name *)
}.

(** The filter of the query for expired jobs; a comparison with a NULL
    [created_at] is not true. *)
Definition expired (env : CleanupEnv) (j : Job.t) : bool :=
  let cutoff_time := (utcnow_cutoff env - timedelta_hours (expiry_hours env))%Z in
  let failed_cutoff_time :=
    (utcnow_failed_cutoff env - timedelta_hours (failed_expiry_hours env))%Z in
  match Job.created_at j with
  | None => false
  | Some created_at =>
      ((created_at <? cutoff_time)%Z
       && (bool_decide (Job.status j = COMPLETED) || bool_decide (Job.status j = CANCELLED)))
      || ((created_at <? failed_cutoff_time)%Z && bool_decide (Job.status j = FAILED))
  end.

(** [db.delete(job)]. *)
Definition delete_row (db : table) (jid : string) : table :=
  List.filter (fun j => negb (String.eqb (Job.id j) jid)) db.

(** One turn of the loop: the two objects, then the row.  An exception
    that is not an [S3Error] ends the turn where it is raised; it is
    logged and the loop goes on. *)
Definition cleanup_one (env : CleanupEnv) (acc : table * Storage.store * Z) (job : Job.t)
    : table * Storage.store * Z :=
  let '(db, s, cleaned_count) := acc in
  let '(s1, r1) :=
    if negb (String.eqb (Job.file_path job) "") then
      Storage.delete_object (storage_client env (Job.file_path job)) s (Job.file_path job)
    else (s, Returns true) in
  match r1 with
  | Raises _ => (db, s1, cleaned_count)
  | Returns _ =>
      let '(s2, r2) :=
        if truthy (Job.output_path job) then
          Storage.delete_object
            (storage_client env (default ""%string (Job.output_path job))) s1
            (default ""%string (Job.output_path job))
        else (s1, Returns true) in
      match r2 with
      | Raises _ => (db, s2, cleaned_count)
      | Returns _ => (delete_row db (Job.id job), s2, (cleaned_count + 1)%Z)
      end
  end.

Record CleanupBody := mkCleanupBody {
  cleaned_jobs : Z;
  body_expiry_hours : Z;
  body_failed_expiry_hours : Z;
  cleanup_message : string;
}.

(** [POST /admin/cleanup]. *)
Definition cleanup_expired_jobs (db : table) (s : Storage.store) (env : CleanupEnv)
    : table * Storage.store * response CleanupBody :=
  let expired_jobs := List.filter (expired env) db in
  let '(db', s', cleaned_count) := fold_left (cleanup_one env) expired_jobs (db, s, 0%Z) in
  (db', s',
   Return (mkCleanupBody cleaned_count (expiry_hours env) (failed_expiry_hours env)
             ("Successfully cleaned up " +:+ Json.dumps_int cleaned_count
              +:+ " expired jobs"))).

(** ** The health endpoint of a conversion service,
    [pdf-docx-service/main.py] *)
Record Health := mkHealth {
  health_status : string;
  health_service : string;
  health_active_jobs : Z;
}.

(** [GET /health]: the number of jobs in the active set of the worker. *)
Definition health (worker : Worker) : Health :=
  mkHealth "healthy" "pdf-docx-service" (Z.of_nat (size (active_jobs worker))).

(** ** The queue lengths of the monitoring service,
    [monitoring-service/main.py] *)
Module Monitoring.

(** The sorted set under a key given by name, as a client that does not
    use [QueueName] reads it; a name that is no queue's is a key that does
    not exist. *)
Definition key (r : Redis.keyspace) (name : string) : Redis.zset :=
  match List.find (fun q => String.eqb (QueueName_value q) name) QueueName_members with
  | Some q => r q
  | None => []
  end.

(** [str.replace(old, new)]: the occurrences of [old] from left to right,
    none overlapping another; [skip] counts the characters of an occurrence
    still to pass over.  With an empty [old], [new] goes before every
    character and at the end. *)
Fixpoint replace_from (old new : string) (skip : nat) (s : string) : string :=
  match s with
  | EmptyString => EmptyString
  | String c s' =>
      match skip with
      | S skip' => replace_from old new skip' s'
      | O =>
          if String.prefix old s
          then new +:+ replace_from old new (String.length old - 1) s'
          else String c (replace_from old new 0 s')
      end
  end.

Fixpoint intersperse (new : string) (s : string) : string :=
  match s with
  | EmptyString => new
  | String c s' => new +:+ String c (intersperse new s')
  end.

Definition replace (old new s : string) : string :=
  if String.eqb old "" then intersperse new s else replace_from old new 0 s.

Definition queue_names : list string :=
  ["queue:docx_pdf"; "queue:pdf_docx"; "queue:pdf_image"; "queue:image_pdf"]%string.

(** The loop of [get_redis_queue_stats], inside its [try]: the dictionary
    filled until a [zcard] raises.  [fault] tells for which key it does. *)
Fixpoint stats_loop (fault : string -> bool) (r : Redis.keyspace) (names : list string)
    (queues : gmap string Z) : gmap string Z :=
  match names with
  | [] => queues
  | queue :: rest =>
      if fault queue then queues
      else
        let length := Redis.zcard (key r queue) in
        let short_name := replace "queue:" "" queue in
        stats_loop fault r rest (<[short_name := length]> queues)
  end.

(** [get_redis_queue_stats]; [redis_client] says whether the module holds
    a client at all. *)
Definition get_redis_queue_stats (redis_client : bool) (fault : string -> bool)
    (r : Redis.keyspace) : gmap string Z :=
  if negb redis_client then
    list_to_map (map (fun q => (replace "queue:" "" q, 0%Z)) queue_names)
  else stats_loop fault r queue_names ∅.

End Monitoring.

(** * Predicates and scenarios

    The predicates the properties are stated with, and the concrete systems
    they are read on. *)

(** ** Predicates *)

(** Where a number may end: no digit, fraction or exponent follows. *)
Definition no_digit_head (rest : string) : Prop :=
  match rest with
  | EmptyString => True
  | String c _ => Json.digit c = None
  end.

Definition int_follow (rest : string) : Prop :=
  match rest with
  | EmptyString => True
  | String c _ =>
      Json.digit c = None
      /\ Ascii.eqb c "." || Ascii.eqb c "e" || Ascii.eqb c "E" = false
  end.

(** What follows a value inside an object: a comma or the closing brace. *)
Definition sep_head (rest : string) : Prop :=
  exists r, rest = String "," r \/ rest = String "}" r.

(** The first character of a number. *)
Definition num_head (c : ascii) : bool :=
  Ascii.eqb c "-" || match Json.digit c with Some _ => true | None => false end.

(** The order of a sorted set on the scores. *)
Definition score_le (a b : string * Z) : Prop := (a.2 <= b.2)%Z.

(** An entry as [enqueue] writes it: the text of a message under its negated
    priority. *)
Definition message_entry (e : string * Z) : Prop :=
  exists m, e = (to_json m, (- priority m)%Z).

(** A queue that holds messages only, in the order of their scores. *)
Definition queue_wf (z : Redis.zset) : Prop :=
  StronglySorted score_le z /\ Forall message_entry z.

(** Attribute writes never touch the primary key. *)
Definition keeps_id (f : Job.t -> Job.t) : Prop := forall j, Job.id (f j) = Job.id j.




(** The stores as the conversion finds them: after the claim. *)
Definition claimed (service_name worker_id : string) (message : QueueMessage)
    (env : JobEnv) (w : World) : World :=
  status_write service_name (claim_fault env) (job_id message) PROCESSING
    (claim_kwargs worker_id env) w.

(** The worker after a job went through [_process_job]. *)
Definition released (jid : string) (k : Worker) : Worker :=
  mkWorker (is_running k) (({[jid]} ∪ active_jobs k) ∖ {[jid]}).

(** A turn in which no cancellation arrives. *)
Definition uncancelled (t : Turn) : Prop :=
  cancelled t = false
  /\ forall m w, (convert (job_env t) m w).1 <> Raise CancelledError.






(** ** Scenarios *)

(** Dispatch messages that differ in job id and priority only. *)
Definition message_with (jid : string) (p : Z) : QueueMessage :=
  mkMessage jid "docx_to_pdf" ("uploads/" +:+ jid +:+ "_a.docx") "a.docx" p 0 None.

(** The queue of the DOCX service after messages of priority 5, 1 and 9 were
    enqueued, in this order. *)
Definition queue_5_1_9 : Redis.keyspace :=
  let r1 := (enqueue false Redis.empty DOCX_PDF (message_with "job-five" 5)).1 in
  let r2 := (enqueue false r1 DOCX_PDF (message_with "job-one" 1)).1 in
  (enqueue false r2 DOCX_PDF (message_with "job-nine" 9)).1.

(** A queue whose only member is not the JSON text of a message. *)
Definition queue_with_garbage : Redis.keyspace :=
  Redis.set_key Redis.empty DOCX_PDF [("not a message"%string, 0%Z)].

Definition empty_world : World := mkWorld [] Redis.empty.

Definition idle_worker : Worker := mkWorker true ∅.

(** An upload of [report.docx]; [redis_fault] says whether Redis is down. *)
Definition docx_request : UploadRequest :=
  mkUpload "report.docx" None 2048 (Some "10.0.0.7"%string) None "session-1".

Definition docx_env (redis_fault : bool) : UploadEnv :=
  mkUploadEnv "job-1" (100 * 1024 * 1024) true redis_fault 1000.

(** The dispatch message of [report.docx]. *)
Definition docx_message : QueueMessage :=
  upload_message (upload_row docx_request (docx_env false) DOCX_TO_PDF).

(** A run of the tool in which every step works. *)
Definition good_run : ToolRun :=
  mkToolRun (Returns tt) (Returns true) (Returns (Exited 0 "")) true [] (Returns true).


(** A job whose writes and conversion all work. *)
Definition good_env : JobEnv := mkJobEnv false false 1001 1002 (docx_conversion good_run).

(** A conversion that lets an exception escape, and a job that meets it. *)
Definition raising_conversion : conversion :=
  fun _ w => (Raise (Exception "boom"), w).

Definition raising_env : JobEnv := mkJobEnv false false 1001 1002 raising_conversion.



(** The system after [report.docx] was uploaded and queued. *)
Definition docx_pending : World :=
  (upload_file empty_world docx_request (docx_env false)).1.

(** The same system once a worker has claimed the job: the first two
    statements of [_process_job]. *)
Definition docx_claimed : World * Worker :=
  (bind (active_jobs_add "job-1")
     (fun _ => _update_status "docx-pdf-service" false "job-1" PROCESSING
                 (claim_kwargs "docx-pdf-worker-0" good_env))
     (docx_pending, idle_worker)).2.

(** The same system once a worker has taken the job to its end. *)
Definition docx_completed : World :=
  (_process_job "docx-pdf-service" "docx-pdf-worker-0" docx_message good_env
     (docx_pending, idle_worker)).2.1.

(** An upload of a PDF to be rendered as JPG, a job of the image service,
    and the system after it was queued. *)
Definition jpg_request : UploadRequest :=
  mkUpload "scan.pdf" (Some "pdf_to_jpg"%string) 4096 None None "session-1".

Definition jpg_pending : World :=
  (upload_file empty_world jpg_request (docx_env false)).1.

(** ** Predicates and scenarios of the further properties *)

(** What [n] calls of [dequeue] in a row return, until one comes back
    empty-handed. *)
Fixpoint drain (n : nat) (r : Redis.keyspace) (queue_name : QueueName) : list QueueMessage :=
  match n with
  | O => []
  | S n' =>
      match dequeue false r queue_name with
      | (r', Some message) => message :: drain n' r' queue_name
      | (_, None) => []
      end
  end.


(** Whether an entry of a sorted set is the text of a message for a job. *)
Definition entry_for (jid : string) (e : string * Z) : bool :=
  match from_json e.1 with
  | Some message => String.eqb (job_id message) jid
  | None => false
  end.

(** The field names of a [QueueMessage]. *)
Definition message_fields : list string :=
  ["job_id"; "conversion_type"; "file_path"; "filename"; "priority"; "retry_count";
   "metadata"]%string.

(** The fields a [QueueMessage] cannot be built without. *)
Definition required_fields : list string :=
  ["job_id"; "conversion_type"; "file_path"; "filename"]%string.

(** The keyword bound so far for a required field. *)
Definition kw_required (k : string) (a : kwargs) : option string :=
  if String.eqb k "job_id" then kw_job_id a
  else if String.eqb k "conversion_type" then kw_conversion_type a
  else if String.eqb k "file_path" then kw_file_path a
  else kw_filename a.

(** The entry [enqueue] writes for a message. *)
Definition entry_of (m : QueueMessage) : string * Z := (to_json m, (- priority m)%Z).

(** The objects of a job: its input and, once it has one, its output. *)
Definition job_objects (j : Job.t) : list string :=
  (if String.eqb (Job.file_path j) "" then [] else [Job.file_path j])
  ++ (if truthy (Job.output_path j) then [default ""%string (Job.output_path j)] else []).

(** The object store answers every request of a clean-up, if only with an
    [S3Error]. *)
Definition reachable (env : CleanupEnv) : Prop :=
  forall name e, storage_client env name <> Storage.Fails e.

(** Whether the store serves the requests about an object. *)
Definition served (env : CleanupEnv) (name : string) : bool :=
  match storage_client env name with
  | Storage.Answers => true
  | _ => false
  end.

(** The deletion of objects, one after the other, where the store serves it. *)
Definition purge (env : CleanupEnv) (names : list string) (s : Storage.store)
    : Storage.store :=
  fold_left (fun s name => if served env name then delete name s else s) names s.

(** Whether a character occurs in a string, and whether a string is made
    of dots only. *)
Fixpoint occurs (c : ascii) (s : string) : bool :=
  match s with
  | EmptyString => false
  | String x s' => Ascii.eqb x c || occurs c s'
  end.

Fixpoint all_dots (s : string) : bool :=
  match s with
  | EmptyString => true
  | String x s' => Ascii.eqb x "." && all_dots s'
  end.

(** A plain file name: a stem that is not made of dots only, a dot and an
    extension, with no further dot in the extension and no slash at all. *)
Definition plain_name (stem ext : string) : Prop :=
  occurs "/" stem = false /\ all_dots stem = false
  /\ occurs "/" ext = false /\ occurs "." ext = false.

(** Where a conversion stores its output: under the id of the job. *)
Definition converted (jid ext : string) : string := "converted/" +:+ jid +:+ ext.

(** Whether a run of the image service found a PDF of one page. *)
Definition single_page (run : ImageService.Run) : bool :=
  match ImageService.pages run with
  | Returns n => Nat.eqb n 1
  | Raises _ => false
  end.

(** The bytes a streamed body adds up to. *)
Definition body_bytes (chunks_ : list string) : string :=
  fold_right (fun chunk rest => chunk +:+ rest) EmptyString chunks_.

(** The size of a chunk of a stream: between one byte and 8192. *)
Definition chunk_ok (chunk : string) : Prop :=
  (1 <= String.length chunk <= chunk_size)%nat.

(** The rows a listing is asked for: those whose status and conversion
    type have the values of the two parameters, where given. *)
Definition passes (status conversion_type : option string) (j : Job.t) : bool :=
  (negb (truthy status)
   || String.eqb (JobStatus_value (Job.status j)) (default ""%string status))
  && (negb (truthy conversion_type)
      || String.eqb (ConversionType_value (Job.conversion_type j))
           (default ""%string conversion_type)).

(** The values a filter parameter may take: none, or the value of a member. *)
Definition valid_filter (values : list string) (parameter : option string) : Prop :=
  truthy parameter = false \/ In (default ""%string parameter) values.

Definition status_values : list string :=
  ["uploaded"; "pending"; "processing"; "completed"; "failed"; "cancelled"]%string.

Definition conversion_values : list string :=
  ["docx_to_pdf"; "pdf_to_docx"; "pdf_to_jpg"; "pdf_to_png"; "jpg_to_pdf"; "png_to_pdf"]%string.

(** The order of the sort, and what it means for rows with a creation
    time: newest first. *)
Definition ordered_desc (a b : Job.t) : Prop := created_not_before a b = true.

Definition newest_first (a b : Job.t) : Prop :=
  forall x y, Job.created_at a = Some x -> Job.created_at b = Some y -> (y <= x)%Z.

(** A run of the image service on a PDF of one page in which every step
    works. *)
Definition one_page_run : ImageService.Run :=
  ImageService.mkRun (Returns true) (Returns 1%nat) (Returns tt) true (Returns true).

(** A table at the age of thirty hours: two jobs of the first hour, one
    done and one still queued, a job that failed after twenty hours and a
    job done just now; with the objects of the first job in the store. *)
Definition aged (jid : string) (s : JobStatus) (created_at : Z) (out : option string)
    : Job.t :=
  Job.mk jid "a.docx" DOCX_TO_PDF s 10 ("uploads/" +:+ jid) out None None
    (Some created_at) None None None 0 3 None None None.

Definition old_table : table :=
  [aged "job-done" COMPLETED 0 (Some "converted/job-done.pdf"%string);
   aged "job-queued" PENDING 0 None;
   aged "job-failed" FAILED (timedelta_hours 20) None;
   aged "job-fresh" COMPLETED (timedelta_hours 30) (Some "converted/job-fresh.pdf"%string)].

Definition old_store : Storage.store :=
  <["uploads/job-done"%string := "docx"%string]>
    (<["converted/job-done.pdf"%string := "pdf"%string]>
       (<["uploads/job-queued"%string := "docx"%string]> ∅)).

Definition cleanup_env (client : Storage.client) : CleanupEnv :=
  mkCleanupEnv 24 6 (timedelta_hours 30) (timedelta_hours 30) (fun _ => client).

(** The columns of a row no worker writes. *)
Definition given_columns (j : Job.t)
    : string * string * ConversionType * Z * string * option Z * Z * Z
      * option string * option string * option string :=
  (Job.id j, Job.filename j, Job.conversion_type j, Job.original_size j, Job.file_path j,
   Job.created_at j, Job.retry_count j, Job.max_retries j, Job.client_ip j,
   Job.user_agent j, Job.session_id j).

(** A conversion that leaves the shared stores alone, as the conversions
    of the three services do. *)
Definition keeps_stores (c : conversion) : Prop := forall m w, (c m w).2 = w.

(** The turns of a worker in which the Redis client serves the dequeue. *)
Definition served_turns (turns : list Turn) : nat :=
  length (List.filter (fun t => negb (dequeue_fault t)) turns).

(** A turn without cancellation whose conversion keeps to its own job. *)
Definition quiet (t : Turn) : Prop :=
  uncancelled t /\ keeps_stores (convert (job_env t)).

(** The name the monitoring service reports a queue under. *)
Definition short_name (q : QueueName) : string :=
  Monitoring.replace "queue:" "" (QueueName_value q).

(** The queues of the conversion services. *)
Definition conversion_queue (q : QueueName) : Prop := q <> NOTIFICATIONS.

(** * Properties *)

(** ** The JSON text of a message

    The decoder reads back what the encoder wrote: a message survives
    [to_json] followed by [from_json], so distinct messages have distinct
    texts. *)
Module JsonFacts.
Import Json.

Lemma scan_string_escape_char c tail :
  scan_string (escape_char c +:+ tail) = cons_fst c (scan_string tail).
Proof.
  destruct c as [[] [] [] [] [] [] [] []]; reflexivity.
Qed.

Lemma append_assoc (a b c : string) : (a +:+ b) +:+ c = a +:+ (b +:+ c).
Proof.
  induction a as [|x a IH]; [reflexivity|].
  change (String x ((a +:+ b) +:+ c) = String x (a +:+ (b +:+ c))). rewrite IH. reflexivity.
Qed.

Lemma length_append (a b : string) :
  String.length (a +:+ b) = String.length a + String.length b.
Proof.
  induction a as [|x a IH]; [reflexivity|].
  change (S (String.length (a +:+ b)) = S (String.length a + String.length b)).
  rewrite IH. reflexivity.
Qed.

Lemma scan_string_escape s rest :
  scan_string (escape s +:+ String dq rest) = Some (s, rest).
Proof.
  induction s as [|c s IH]; [reflexivity|].
  cbn [escape]. rewrite append_assoc, scan_string_escape_char, IH. reflexivity.
Qed.

Lemma scan_digits_no_digit rest : no_digit_head rest -> scan_digits rest = (Decimal.Nil, rest).
Proof. destruct rest as [|c r]; cbn; [reflexivity|]. intros ->. reflexivity. Qed.

Lemma scan_digits_string_of_uint u rest :
  no_digit_head rest ->
  scan_digits (NilEmpty.string_of_uint u +:+ rest) = (u, rest).
Proof.
  intros H. induction u; cbn [NilEmpty.string_of_uint];
    try (change (String ?c ?s +:+ rest) with (String c (s +:+ rest));
         cbn [scan_digits]; rewrite IHu; reflexivity).
  apply scan_digits_no_digit. exact H.
Qed.

Lemma unorm_shape d :
  match Decimal.unorm d with
  | Decimal.Nil => False
  | Decimal.D0 Decimal.Nil => True
  | Decimal.D0 _ => False
  | _ => True
  end.
Proof.
  induction d; cbn; try exact I. exact IHd.
Qed.

Lemma to_uint_normal p : Decimal.unorm (Pos.to_uint p) = Pos.to_uint p.
Proof.
  rewrite <- (DecimalPos.Unsigned.to_of (Pos.to_uint p)), DecimalPos.Unsigned.of_to.
  reflexivity.
Qed.

Lemma scan_nat_uint u rest :
  Decimal.unorm u = u -> int_follow rest ->
  scan_nat (NilEmpty.string_of_uint u +:+ rest) = Some (Z.of_uint u, rest).
Proof.
  intros Hn Hf. unfold scan_nat.
  rewrite scan_digits_string_of_uint by (destruct rest; [exact I|apply Hf]).
  pose proof (unorm_shape u) as Hs. rewrite Hn in Hs.
  destruct rest as [|c r].
  - destruct u as [|u'|u'|u'|u'|u'|u'|u'|u'|u'|u']; try contradiction; try reflexivity.
    destruct u'; try contradiction; reflexivity.
  - destruct Hf as [_ Hf].
    destruct u as [|u'|u'|u'|u'|u'|u'|u'|u'|u'|u']; try contradiction;
      try (rewrite Hf; reflexivity).
    destruct u'; try contradiction. rewrite Hf. reflexivity.
Qed.

Lemma scan_int_nonneg u rest :
  u <> Decimal.Nil ->
  scan_int (NilEmpty.string_of_uint u +:+ rest)
  = scan_nat (NilEmpty.string_of_uint u +:+ rest).
Proof. destruct u; [contradiction|..]; reflexivity. Qed.

Lemma string_of_uint_nonnil u :
  u <> Decimal.Nil -> NilZero.string_of_uint u = NilEmpty.string_of_uint u.
Proof. destruct u; [contradiction|..]; reflexivity. Qed.

Lemma scan_int_dumps_int z rest :
  int_follow rest -> scan_int (dumps_int z +:+ rest) = Some (z, rest).
Proof.
  intros Hf. unfold dumps_int.
  rewrite <- (DecimalZ.of_to z) at 2.
  destruct z as [|p|p]; cbn [Z.to_int NilZero.string_of_int Z.of_int].
  - rewrite string_of_uint_nonnil by discriminate.
    rewrite scan_int_nonneg by discriminate.
    apply scan_nat_uint; [reflexivity|exact Hf].
  - rewrite string_of_uint_nonnil by apply DecimalPos.Unsigned.to_uint_nonnil.
    rewrite scan_int_nonneg by apply DecimalPos.Unsigned.to_uint_nonnil.
    apply scan_nat_uint; [apply to_uint_normal|exact Hf].
  - rewrite string_of_uint_nonnil by apply DecimalPos.Unsigned.to_uint_nonnil.
    change (String "-" ?s +:+ rest) with (String "-" (s +:+ rest)).
    unfold scan_int.
    rewrite scan_nat_uint; [reflexivity|apply to_uint_normal|exact Hf].
Qed.

Lemma sep_head_int_follow rest : sep_head rest -> int_follow rest.
Proof. intros [r [-> | ->]]; split; reflexivity. Qed.

Lemma scan_scalar_num c t :
  num_head c = true ->
  scan_scalar (String c t)
  = match scan_int (String c t) with
    | Some (z, r) => Some (Int z, r)
    | None => None
    end.
Proof.
  destruct c as [[] [] [] [] [] [] [] []]; intros H; try discriminate H; reflexivity.
Qed.

Lemma skip_ws_num c t : num_head c = true -> skip_ws (String c t) = String c t.
Proof.
  destruct c as [[] [] [] [] [] [] [] []]; intros H; try discriminate H; reflexivity.
Qed.

Lemma scan_value_num c t :
  num_head c = true ->
  scan_value (String c t)
  = match scan_scalar (String c t) with
    | Some (v, r) => Some (Scalar v, r)
    | None => None
    end.
Proof.
  destruct c as [[] [] [] [] [] [] [] []]; intros H; try discriminate H; reflexivity.
Qed.

Lemma dumps_int_head z rest :
  exists c t, dumps_int z +:+ rest = String c t /\ num_head c = true.
Proof.
  unfold dumps_int. destruct z as [|p|p]; cbn [Z.to_int NilZero.string_of_int].
  - eexists _, _. split; reflexivity.
  - pose proof (DecimalPos.Unsigned.to_uint_nonnil p) as H.
    destruct (Pos.to_uint p); [contradiction|..]; eexists _, _; split; reflexivity.
  - eexists _, _. split; reflexivity.
Qed.

Lemma scan_scalar_dumps v rest :
  sep_head rest ->
  skip_ws (dumps_scalar v +:+ rest) = dumps_scalar v +:+ rest
  /\ scan_scalar (dumps_scalar v +:+ rest) = Some (v, rest)
  /\ scan_value (dumps_scalar v +:+ rest) = Some (Scalar v, rest).
Proof.
  intros Hsep. destruct v as [|[]|z|s]; cbn [dumps_scalar].
  - repeat split; reflexivity.
  - repeat split; reflexivity.
  - repeat split; reflexivity.
  - destruct (dumps_int_head z rest) as (c & t & E & Hc).
    pose proof (scan_int_dumps_int z rest (sep_head_int_follow _ Hsep)) as Hi.
    rewrite E in Hi |- *.
    assert (Hs : scan_scalar (String c t) = Some (Int z, rest))
      by (rewrite (scan_scalar_num c t Hc), Hi; reflexivity).
    split; [exact (skip_ws_num c t Hc)|]. split; [exact Hs|].
    rewrite (scan_value_num c t Hc), Hs. reflexivity.
  - unfold dumps_str.
    change (String dq (escape s +:+ String dq EmptyString) +:+ rest)
      with (String dq ((escape s +:+ String dq EmptyString) +:+ rest)).
    rewrite append_assoc.
    change (String dq EmptyString +:+ rest) with (String dq rest).
    split; [reflexivity|].
    assert (Hs : scan_scalar (String dq (escape s +:+ String dq rest)) = Some (Str s, rest)).
    { change (scan_scalar (String dq (escape s +:+ String dq rest)))
        with (match scan_string (escape s +:+ String dq rest) with
              | Some (x, r) => Some (Str x, r)
              | None => None
              end).
      rewrite scan_string_escape. reflexivity. }
    split; [exact Hs|].
    change (scan_value (String dq (escape s +:+ String dq rest)))
      with (match scan_scalar (String dq (escape s +:+ String dq rest)) with
            | Some (v, r) => Some (Scalar v, r)
            | None => None
            end).
    rewrite Hs. reflexivity.
Qed.

Section Members.
Context {V : Type} (dv : V -> string) (pv : string -> option (V * string)).
Hypothesis pv_dv : forall v rest, sep_head rest -> pv (skip_ws (dv v +:+ rest)) = Some (v, rest).

Lemma dumps_items_cons k v l :
  l <> [] ->
  dumps_items dv ((k, v) :: l)
  = dumps_str k +:+ ": " +:+ dv v +:+ ", " +:+ dumps_items dv l.
Proof. destruct l; [contradiction|reflexivity]. Qed.

Lemma member_step fuel k v tail :
  sep_head tail ->
  scan_members pv (S fuel) (dumps_str k +:+ ": " +:+ dv v +:+ tail)
  = match tail with
    | String "}" s5 => Some ([(k, v)], s5)
    | String "," s5 =>
        match scan_members pv fuel (skip_ws s5) with
        | Some (l, r) => Some ((k, v) :: l, r)
        | None => None
        end
    | _ => None
    end.
Proof.
  intros Hsep. unfold dumps_str.
  change (String dq (escape k +:+ String dq EmptyString) +:+ ": " +:+ dv v +:+ tail)
    with (String dq ((escape k +:+ String dq EmptyString) +:+ ": " +:+ dv v +:+ tail)).
  rewrite append_assoc.
  change (String dq EmptyString +:+ ": " +:+ dv v +:+ tail)
    with (String dq (String ":" (String " " (dv v +:+ tail)))).
  cbn [scan_members]. change (Ascii.eqb dq dq) with true. cbv iota.
  rewrite scan_string_escape.
  change (skip_ws (String ":" (String " " (dv v +:+ tail))))
    with (String ":" (String " " (dv v +:+ tail))).
  cbv iota.
  change (skip_ws (String " " (dv v +:+ tail))) with (skip_ws (dv v +:+ tail)).
  rewrite (pv_dv v tail Hsep).
  destruct Hsep as [r [-> | ->]]; reflexivity.
Qed.

Lemma scan_members_dumps l : forall fuel rest,
  l <> [] -> length l <= fuel ->
  scan_members pv fuel (dumps_items dv l +:+ String "}" rest) = Some (l, rest).
Proof.
  induction l as [|[k v] l IH]; intros fuel rest Hne Hfuel; [contradiction|].
  destruct fuel as [|fuel]; [cbn in Hfuel; lia|].
  destruct l as [|kv l'].
  - change (dumps_items dv [(k, v)]) with (dumps_str k +:+ ": " +:+ dv v).
    rewrite !append_assoc.
    rewrite member_step; [reflexivity|].
    eexists. right. reflexivity.
  - rewrite dumps_items_cons by discriminate.
    rewrite !append_assoc.
    change (", " +:+ dumps_items dv (kv :: l') +:+ String "}" rest)
      with (String "," (String " " (dumps_items dv (kv :: l') +:+ String "}" rest))).
    rewrite member_step.
    + change (skip_ws (String " " (dumps_items dv (kv :: l') +:+ String "}" rest)))
        with (skip_ws (dumps_items dv (kv :: l') +:+ String "}" rest)).
      assert (Hskip : skip_ws (dumps_items dv (kv :: l') +:+ String "}" rest)
                      = dumps_items dv (kv :: l') +:+ String "}" rest).
      { destruct kv as [k' v']. destruct l'; reflexivity. }
      rewrite Hskip, IH; [reflexivity|discriminate|cbn in *; lia].
    + eexists. left. reflexivity.
Qed.

Lemma length_dumps_str k : 1 <= String.length (dumps_str k).
Proof. unfold dumps_str. cbn [String.length]. lia. Qed.

Lemma length_dumps_items l rest :
  length l <= String.length (dumps_items dv l +:+ rest).
Proof.
  induction l as [|[k v] l IH]; [cbn; lia|].
  pose proof (length_dumps_str k) as Hk.
  destruct l as [|kv l'].
  - change (dumps_items dv [(k, v)]) with (dumps_str k +:+ ": " +:+ dv v).
    rewrite !length_append. cbn [length]. lia.
  - rewrite dumps_items_cons by discriminate.
    rewrite !length_append in *. cbn [length] in *. lia.
Qed.

Lemma scan_object_dumps l rest :
  scan_object pv (dumps_items dv l +:+ String "}" rest) = Some (l, rest).
Proof.
  destruct l as [|[k v] l]; [reflexivity|].
  unfold scan_object.
  assert (E : exists t, dumps_items dv ((k, v) :: l) +:+ String "}" rest = String dq t).
  { destruct l; eexists; reflexivity. }
  destruct E as [t E].
  pose proof (scan_members_dumps ((k, v) :: l) (String.length (String dq t)) rest) as H.
  pose proof (length_dumps_items ((k, v) :: l) (String "}" rest)) as Hl.
  rewrite E in H, Hl |- *.
  change (skip_ws (String dq t)) with (String dq t). cbv iota.
  apply H; [discriminate|exact Hl].
Qed.

End Members.

Lemma scan_scalar_skip v rest :
  sep_head rest -> scan_scalar (skip_ws (dumps_scalar v +:+ rest)) = Some (v, rest).
Proof.
  intros H. destruct (scan_scalar_dumps v rest H) as (-> & Hs & _). exact Hs.
Qed.

Lemma scan_value_skip v rest :
  sep_head rest -> scan_value (skip_ws (dumps_value v +:+ rest)) = Some (v, rest).
Proof.
  intros H. destruct v as [x|d]; cbn [dumps_value].
  - destruct (scan_scalar_dumps x rest H) as (-> & _ & Hv). exact Hv.
  - unfold dumps_dict. rewrite !append_assoc.
    change ("{" +:+ dumps_items dumps_scalar d +:+ "}" +:+ rest)
      with (String "{" (dumps_items dumps_scalar d +:+ String "}" rest)).
    change (skip_ws (String "{" ?s)) with (String "{" s).
    change (scan_value (String "{" ?s))
      with (match scan_object scan_scalar s with
            | Some (dd, r) => Some (Dict dd, r)
            | None => None
            end).
    rewrite (scan_object_dumps dumps_scalar scan_scalar scan_scalar_skip). reflexivity.
Qed.

Lemma loads_dumps o : loads (dumps o) = Some o.
Proof.
  unfold dumps, dumps_dict.
  change ("{" +:+ dumps_items dumps_value o +:+ "}")
    with (String "{" (dumps_items dumps_value o +:+ String "}" EmptyString)).
  unfold loads. change (skip_ws (String "{" ?s)) with (String "{" s). cbv iota.
  rewrite (scan_object_dumps dumps_value scan_value scan_value_skip). reflexivity.
Qed.

Lemma from_json_to_json m : from_json (to_json m) = Some m.
Proof.
  unfold from_json, to_json. rewrite loads_dumps.
  destruct m as [j c p f pr rc [d|]]; reflexivity.
Qed.

Lemma to_json_inj m m' : to_json m = to_json m' -> m = m'.
Proof.
  intros H. apply (f_equal from_json) in H. rewrite !from_json_to_json in H.
  injection H as H. exact H.
Qed.

End JsonFacts.

(** ** Sorted sets *)
Section ZsetFacts.

Lemma zremove_zinsert_same member score z :
  Redis.zremove member (Redis.zinsert (member, score) z) = Redis.zremove member z.
Proof.
  induction z as [|x z IH]; simpl.
  - rewrite String.eqb_refl. reflexivity.
  - destruct (Redis.entry_ltb (member, score) x); simpl.
    + rewrite String.eqb_refl. reflexivity.
    + destruct (negb (x.1 =? member)%string); [f_equal|]; exact IH.
Qed.

Lemma zremove_idem member z :
  Redis.zremove member (Redis.zremove member z) = Redis.zremove member z.
Proof.
  unfold Redis.zremove. induction z as [|x z IH]; simpl; [reflexivity|].
  destruct (negb (x.1 =? member)%string) eqn:E; simpl; rewrite ?E, IH; reflexivity.
Qed.

Lemma zmem_zinsert_same member score z :
  Redis.zmem member (Redis.zinsert (member, score) z) = true.
Proof.
  induction z as [|x z IH]; simpl.
  - rewrite String.eqb_refl. reflexivity.
  - destruct (Redis.entry_ltb (member, score) x); simpl.
    + rewrite String.eqb_refl. reflexivity.
    + rewrite IH. apply orb_true_r.
Qed.

(** Adding a member a second time with the same score changes nothing. *)
Lemma zadd_zadd member score z :
  Redis.zadd (Redis.zadd z member score).1 member score
  = ((Redis.zadd z member score).1, 0%Z).
Proof.
  unfold Redis.zadd. simpl.
  rewrite zremove_zinsert_same, zremove_idem, zmem_zinsert_same. reflexivity.
Qed.

Lemma zpopmax_snoc z e : Redis.zpopmax (z ++ [e]) = Some (e, z).
Proof.
  induction z as [|x z IH]; [reflexivity|].
  change ((x :: z) ++ [e]) with (x :: (z ++ [e])).
  simpl. rewrite IH. destruct (z ++ [e]) eqn:E; [|reflexivity].
  destruct z; discriminate.
Qed.

Lemma zpopmax_inv z e z' : Redis.zpopmax z = Some (e, z') -> z = z' ++ [e].
Proof.
  revert z'. induction z as [|x z IH]; intros z' H; [discriminate|].
  simpl in H. destruct z as [|y z].
  - injection H as <- <-. reflexivity.
  - destruct (Redis.zpopmax (y :: z)) as [[e0 r]|]; [|discriminate].
    injection H as <- <-. rewrite (IH r eq_refl). reflexivity.
Qed.

Lemma zpopmax_nil_inv z : Redis.zpopmax z = None -> z = [].
Proof.
  induction z as [|x z IH]; [reflexivity|]. simpl.
  destruct z as [|y z]; [discriminate|].
  destruct (Redis.zpopmax (y :: z)) as [[e0 r]|]; [discriminate|].
  intros _. discriminate (IH eq_refl).
Qed.

Lemma set_key_same (r : Redis.keyspace) k z : Redis.set_key r k z k = z.
Proof. unfold Redis.set_key. rewrite decide_True by reflexivity. reflexivity. Qed.

End ZsetFacts.

(** ** The priority queue *)

Section QueueOrder.

Lemma Forall_zinsert (P : string * Z -> Prop) e z :
  Forall P (Redis.zinsert e z) <-> P e /\ Forall P z.
Proof.
  induction z as [|x z IH]; cbn.
  - rewrite !List.Forall_cons_iff. tauto.
  - destruct (Redis.entry_ltb e x).
    + rewrite !List.Forall_cons_iff. tauto.
    + rewrite !List.Forall_cons_iff, IH. tauto.
Qed.

Lemma entry_ltb_true a b : Redis.entry_ltb a b = true -> score_le a b.
Proof.
  unfold Redis.entry_ltb, score_le. intros H. apply orb_true_iff in H.
  destruct H as [H|H]; [apply Z.ltb_lt in H; lia|].
  apply andb_true_iff in H. destruct H as [H _]. apply Z.eqb_eq in H. lia.
Qed.

Lemma entry_ltb_false a b : Redis.entry_ltb a b = false -> score_le b a.
Proof.
  unfold Redis.entry_ltb, score_le. intros H. apply orb_false_iff in H.
  destruct H as [H _]. apply Z.ltb_ge in H. exact H.
Qed.

Lemma zinsert_sorted e z :
  StronglySorted score_le z -> StronglySorted score_le (Redis.zinsert e z).
Proof.
  induction 1 as [|x z Hs IH Hx]; cbn.
  - constructor; constructor.
  - destruct (Redis.entry_ltb e x) eqn:E.
    + constructor; [constructor; assumption|].
      apply entry_ltb_true in E. constructor; [exact E|].
      eapply List.Forall_impl; [|exact Hx]. unfold score_le in *. intros y Hy. lia.
    + constructor; [exact IH|]. apply Forall_zinsert. split; [|exact Hx].
      apply entry_ltb_false. exact E.
Qed.

Lemma zremove_sorted member z :
  StronglySorted score_le z -> StronglySorted score_le (Redis.zremove member z).
Proof.
  unfold Redis.zremove. induction 1 as [|x z Hs IH Hx]; cbn; [constructor|].
  destruct (negb _); [|exact IH].
  constructor; [exact IH|]. apply List.Forall_forall. intros y Hy.
  apply filter_In in Hy. destruct Hy as [Hy _].
  rewrite List.Forall_forall in Hx. apply Hx. exact Hy.
Qed.

Lemma Forall_zremove (P : string * Z -> Prop) member z :
  Forall P z -> Forall P (Redis.zremove member z).
Proof.
  intros H. apply List.Forall_forall. intros y Hy. unfold Redis.zremove in Hy.
  apply filter_In in Hy. rewrite List.Forall_forall in H. apply H. tauto.
Qed.

Lemma sorted_snoc z e :
  StronglySorted score_le (z ++ [e]) -> Forall (fun x => score_le x e) z.
Proof.
  induction z as [|x z IH]; cbn; intros H; [constructor|].
  apply StronglySorted_inv in H. destruct H as [Hs Hx].
  constructor; [|exact (IH Hs)].
  rewrite List.Forall_forall in Hx. apply Hx. apply in_or_app. right. left. reflexivity.
Qed.

Lemma sorted_app_l z e :
  StronglySorted score_le (z ++ [e]) -> StronglySorted score_le z.
Proof.
  induction z as [|x z IH]; cbn; intros H; [constructor|].
  apply StronglySorted_inv in H. destruct H as [Hs Hx].
  constructor; [exact (IH Hs)|].
  apply List.Forall_forall. intros y Hy. rewrite List.Forall_forall in Hx. apply Hx.
  apply in_or_app. left. exact Hy.
Qed.

Lemma queue_wf_empty : queue_wf [].
Proof. split; constructor. Qed.

Lemma enqueue_wf r queue_name message fault k :
  queue_wf (r k) -> queue_wf ((enqueue fault r queue_name message).1 k).
Proof.
  intros [Hs Hm]. unfold enqueue. destruct fault; [split; assumption|].
  unfold Redis.zadd. cbn [fst]. unfold Redis.set_key.
  destruct (decide (k = queue_name)) as [->|_]; [|split; assumption].
  split.
  - apply zinsert_sorted, zremove_sorted. exact Hs.
  - apply Forall_zinsert. split; [exists message; reflexivity|].
    apply Forall_zremove. exact Hm.
Qed.

(** On a queue that holds messages only, under the scores [enqueue] gives
    them, [dequeue] returns a message of the lowest priority present. *)
Lemma dequeue_lowest_priority (r : Redis.keyspace) (queue_name : QueueName) :
  queue_wf (r queue_name) ->
  r queue_name <> [] ->
  exists m,
    (dequeue false r queue_name).2 = Some m
    /\ In (to_json m, (- priority m)%Z) (r queue_name)
    /\ (forall m', In (to_json m', (- priority m')%Z) (r queue_name) ->
                   (priority m <= priority m')%Z)
    /\ queue_wf ((dequeue false r queue_name).1 queue_name).
Proof.
  intros [Hs Hm] Hne. unfold dequeue.
  destruct (Redis.zpopmax (r queue_name)) as [[[member score] z]|] eqn:E.
  - apply zpopmax_inv in E. rewrite E in Hs, Hm.
    pose proof (sorted_snoc _ _ Hs) as Hmax.
    apply List.Forall_app in Hm. destruct Hm as [Hmz Hme].
    apply List.Forall_inv in Hme. destruct Hme as [m Hme]. injection Hme as -> ->.
    rewrite JsonFacts.from_json_to_json. exists m. cbn [fst snd].
    split; [reflexivity|]. split; [rewrite E; apply in_or_app; right; left; reflexivity|].
    split.
    + intros m' Hin. rewrite E in Hin. apply in_app_or in Hin.
      destruct Hin as [Hin|[Hin|[]]].
      * rewrite List.Forall_forall in Hmax. specialize (Hmax _ Hin).
        unfold score_le in Hmax. cbn in Hmax. lia.
      * injection Hin as _ Hin. lia.
    + rewrite set_key_same. split; [exact (sorted_app_l _ _ Hs)|exact Hmz].
  - apply zpopmax_nil_inv in E. contradiction.
Qed.

End QueueOrder.

(** C1 (the code departs from the claim).  [enqueue] scores a message with
    the negated priority and [dequeue] pops the member with the highest
    score: on a queue that holds priorities 5, 1 and 9 the first dequeue
    returns the priority-1 message, the lowest priority present, and the
    priority-9 message is the last one to leave. *)
Theorem dequeue_5_1_9_returns_priority_1 :
  (dequeue false queue_5_1_9 DOCX_PDF).2 = Some (message_with "job-one" 1)
  /\ map snd (queue_5_1_9 DOCX_PDF) = [(-9)%Z; (-5)%Z; (-1)%Z]
  /\ (let r1 := (dequeue false queue_5_1_9 DOCX_PDF).1 in
      let r2 := (dequeue false r1 DOCX_PDF).1 in
      (dequeue false r1 DOCX_PDF).2 = Some (message_with "job-five" 5)
      /\ (dequeue false r2 DOCX_PDF).2 = Some (message_with "job-nine" 9)).
Proof. vm_compute. repeat split; reflexivity. Qed.

(** C9.  Enqueue is idempotent on identical content: once a message is in a
    queue, enqueueing the same message again reports [False] and leaves every
    queue as it was, so no duplicate entry exists and the size is the one
    after the first enqueue; this holds whether or not the Redis client
    fails on the second call. *)
Theorem enqueue_idempotent (r : Redis.keyspace) (queue_name : QueueName)
    (message : QueueMessage) (fault : bool) :
  let r1 := (enqueue false r queue_name message).1 in
  let r2 := (enqueue fault r1 queue_name message).1 in
  (enqueue fault r1 queue_name message).2 = false
  /\ (forall k, r2 k = r1 k)
  /\ get_queue_size false r2 queue_name = get_queue_size false r1 queue_name
  /\ Redis.zmem (to_json message) (r1 queue_name) = true.
Proof.
  cbv zeta.
  assert (E1 : enqueue false r queue_name message
               = (Redis.set_key r queue_name
                    (Redis.zadd (r queue_name) (to_json message) (- priority message)).1,
                  negb ((Redis.zadd (r queue_name) (to_json message) (- priority message)).2
                        =? 0)%Z)) by reflexivity.
  rewrite E1. cbn [fst snd].
  set (z1 := (Redis.zadd (r queue_name) (to_json message) (- priority message)).1).
  assert (Hmem : Redis.zmem (to_json message) z1 = true) by apply zmem_zinsert_same.
  destruct fault.
  - unfold enqueue. cbn [fst snd]. repeat split. rewrite (set_key_same r queue_name z1). exact Hmem.
  - unfold enqueue. rewrite (set_key_same r queue_name z1). subst z1. rewrite zadd_zadd.
    set (z1 := (Redis.zadd (r queue_name) (to_json message) (- priority message)).1) in *.
    cbn [fst snd].
    assert (Hk : forall k, Redis.set_key (Redis.set_key r queue_name z1) queue_name z1 k
                           = Redis.set_key r queue_name z1 k).
    { intros k. unfold Redis.set_key. destruct (decide (k = queue_name)); reflexivity. }
    repeat split.
    + exact Hk.
    + unfold get_queue_size. rewrite Hk. reflexivity.
    + exact Hmem.
Qed.

(** C10.  [dequeue] returns [None] when the queue is empty at the timeout,
    when the Redis client fails, and when the popped member does not
    deserialize; in the last case the member has left the queue (what stays
    is the queue without its last entry), so it is lost and the caller sees
    the same [None] in the three cases. *)
Theorem dequeue_none (r : Redis.keyspace) (queue_name : QueueName) :
  (r queue_name = [] -> dequeue false r queue_name = (r, None))
  /\ dequeue true r queue_name = (r, None)
  /\ (forall z member score,
        r queue_name = z ++ [(member, score)] ->
        from_json member = None ->
        dequeue false r queue_name = (Redis.set_key r queue_name z, None)
        /\ (dequeue false r queue_name).1 queue_name = z
        /\ Redis.zcard ((dequeue false r queue_name).1 queue_name)
           = (Redis.zcard (r queue_name) - 1)%Z).
Proof.
  split; [|split].
  - intros H. unfold dequeue. rewrite H. reflexivity.
  - reflexivity.
  - intros z member score H Hbad.
    assert (E : dequeue false r queue_name = (Redis.set_key r queue_name z, None)).
    { unfold dequeue. rewrite H, zpopmax_snoc, Hbad. reflexivity. }
    rewrite E. cbn [fst]. rewrite (set_key_same r queue_name z).
    split; [reflexivity|]. split; [reflexivity|].
    rewrite H. unfold Redis.zcard. rewrite length_app. simpl. lia.
Qed.

Lemma dequeue_none_witness :
  dequeue false Redis.empty DOCX_PDF = (Redis.empty, None)
  /\ dequeue true queue_with_garbage DOCX_PDF = (queue_with_garbage, None)
  /\ (dequeue false queue_with_garbage DOCX_PDF).2 = None
  /\ (dequeue false queue_with_garbage DOCX_PDF).1 DOCX_PDF = [].
Proof.
  split; [|split; [|split]].
  - exact (proj1 (dequeue_none Redis.empty DOCX_PDF) eq_refl).
  - exact (proj1 (proj2 (dequeue_none queue_with_garbage DOCX_PDF))).
  - destruct (dequeue_none queue_with_garbage DOCX_PDF) as (_ & _ & H).
    destruct (H [] "not a message"%string 0%Z) as (E & _ & _);
      [reflexivity | vm_compute; reflexivity |].
    rewrite E. reflexivity.
  - destruct (dequeue_none queue_with_garbage DOCX_PDF) as (_ & _ & H).
    destruct (H [] "not a message"%string 0%Z) as (_ & E & _);
      [reflexivity | vm_compute; reflexivity |].
    exact E.
Defined.

(** ** The job table *)
Section TableFacts.

Lemma keeps_id_set_status s : keeps_id (Job.set_status s).
Proof. intros j. reflexivity. Qed.

Lemma keeps_id_setattr kw : keeps_id (fun j => setattr j kw).
Proof. intros j. destruct kw; reflexivity. Qed.

Lemma id_fold_setattr kws j : Job.id (fold_left setattr kws j) = Job.id j.
Proof.
  revert j. induction kws as [|kw kws IH]; intros j; simpl; [reflexivity|].
  rewrite IH. apply (keeps_id_setattr kw).
Qed.

Lemma keeps_id_write_status service s kws : keeps_id (write_status service s kws).
Proof. intros j. unfold write_status. rewrite id_fold_setattr. reflexivity. Qed.

Lemma query_first_update_row db jid f jid' :
  keeps_id f ->
  query_first (update_row db jid f) jid'
  = if String.eqb jid' jid then f <$> query_first db jid else query_first db jid'.
Proof.
  intros Hf. unfold query_first. induction db as [|j db IH]; simpl.
  - destruct (String.eqb jid' jid); reflexivity.
  - destruct (String.eqb_spec (Job.id j) jid) as [E|E]; simpl.
    + rewrite Hf, E. destruct (String.eqb_spec jid jid') as [E'|E'].
      * subst jid'. rewrite String.eqb_refl. reflexivity.
      * destruct (String.eqb_spec jid' jid) as [E''|_]; [congruence|].
        reflexivity.
    + destruct (String.eqb_spec (Job.id j) jid') as [E'|E'].
      * subst jid'. destruct (String.eqb_spec (Job.id j) jid); [contradiction|reflexivity].
      * exact IH.
Qed.

Lemma status_of_update_row db jid f jid' :
  keeps_id f ->
  status_of (update_row db jid f) jid'
  = if String.eqb jid' jid then (fun j => Job.status (f j)) <$> query_first db jid
    else status_of db jid'.
Proof.
  intros Hf. unfold status_of. rewrite query_first_update_row by exact Hf.
  destruct (String.eqb jid' jid); [|reflexivity].
  destruct (query_first db jid); reflexivity.
Qed.

Lemma query_first_app db j jid :
  query_first (db ++ [j]) jid
  = match query_first db jid with
    | Some x => Some x
    | None => if String.eqb (Job.id j) jid then Some j else None
    end.
Proof.
  unfold query_first. induction db as [|x db IH]; simpl; [reflexivity|].
  destruct (String.eqb (Job.id x) jid); [reflexivity|exact IH].
Qed.

Lemma query_first_In db jid j : query_first db jid = Some j -> In j db.
Proof. unfold query_first. intros H. apply find_some in H. tauto. Qed.

(** With a primary key, the row of an id is the row [first()] returns. *)
Lemma query_first_NoDup db j :
  NoDup (map Job.id db) -> In j db -> query_first db (Job.id j) = Some j.
Proof.
  unfold query_first. induction db as [|x db IH]; simpl; intros Hnd Hin; [contradiction|].
  apply NoDup_cons in Hnd. destruct Hnd as [Hx Hnd].
  destruct Hin as [->|Hin].
  - rewrite String.eqb_refl. reflexivity.
  - destruct (String.eqb_spec (Job.id x) (Job.id j)) as [E|_].
    + exfalso. apply Hx. rewrite E. apply list_elem_of_In. apply in_map. exact Hin.
    + apply IH; assumption.
Qed.

End TableFacts.

(** ** Upload *)

(** What [upload_file] returns once the request passed validation, the
    object was stored and the job id is free. *)
Lemma upload_file_committed w req env conv_type queue_name :
  up_filename req <> ""%string ->
  detect_conversion (up_conversion_type req) (up_filename req) = Some (conv_type, queue_name) ->
  (up_size req <= env_max_size env)%Z ->
  env_storage_ok env = true ->
  query_first (jobs w) (env_job_id env) = None ->
  let job := upload_row req env conv_type in
  let e := enqueue (env_redis_fault env) (redis w) queue_name (upload_message job) in
  upload_file w req env
  = (mkWorld (if e.2 then update_row (jobs w ++ [job]) (env_job_id env) (Job.set_status PENDING)
              else jobs w ++ [job]) e.1,
     Return (mkUploadBody (env_job_id env) (up_filename req) (ConversionType_value conv_type)
               (JobStatus_value (if e.2 then PENDING else UPLOADED))
               (if bool_decide ((if e.2 then PENDING else UPLOADED) = UPLOADED)
                then "File uploaded successfully"
                else "File uploaded and conversion queued successfully"))).
Proof.
  intros Hname Hdet Hsize Hstore Hfresh. cbv zeta. unfold upload_file.
  destruct (String.eqb_spec (up_filename req) "") as [E|_]; [contradiction|].
  rewrite Hdet.
  destruct (Z.ltb_spec (env_max_size env) (up_size req)) as [Hlt|_]; [lia|].
  rewrite Hstore. cbn [negb]. rewrite Hfresh.
  destruct (enqueue _ _ _ _) as [r1 ok]. reflexivity.
Qed.





(** ** Cancel *)

Lemma keeps_id_mark_cancelled now : keeps_id (mark_cancelled now).
Proof. intros j. reflexivity. Qed.

(** A cancel that finds a terminal row is rejected and changes nothing. *)
Lemma cancel_job_terminal w jid job fault now :
  query_first (jobs w) jid = Some job ->
  terminal (Job.status job) = true ->
  cancel_job w jid fault now
  = (w, HTTPException 400
          ("Cannot cancel job with status: " +:+ JobStatus_value (Job.status job))).
Proof. intros Hq Ht. unfold cancel_job. rewrite Hq, Ht. reflexivity. Qed.

(** A cancel that finds a row neither terminal nor PENDING marks it and
    leaves Redis alone. *)
Lemma cancel_job_not_pending w jid job fault now :
  query_first (jobs w) jid = Some job ->
  terminal (Job.status job) = false ->
  Job.status job <> PENDING ->
  cancel_job w jid fault now
  = (mkWorld (update_row (jobs w) jid (mark_cancelled now)) (redis w),
     Return (mkCancelBody jid "cancelled" "Job cancelled successfully")).
Proof.
  intros Hq Ht Hp. unfold cancel_job. rewrite Hq, Ht.
  rewrite bool_decide_eq_false_2 by exact Hp. reflexivity.
Qed.

(** C5 (as the code has it).  Cancel is rejected, with the row unchanged,
    for the three terminal statuses.  A job in PROCESSING is not rejected:
    the guard lists the terminal statuses only, so an in-flight job, like an
    UPLOADED one, is accepted and marked CANCELLED, and the queue is not
    touched. *)
Theorem cancel_job_guard (w : World) (jid : string) (job : Job.t) (fault : bool) (now : Z) :
  query_first (jobs w) jid = Some job ->
  (terminal (Job.status job) = true ->
   cancel_job w jid fault now
   = (w, HTTPException 400
           ("Cannot cancel job with status: " +:+ JobStatus_value (Job.status job))))
  /\ (Job.status job = PROCESSING \/ Job.status job = UPLOADED ->
      let '(w', resp) := cancel_job w jid fault now in
      resp = Return (mkCancelBody jid "cancelled" "Job cancelled successfully")
      /\ status_of (jobs w') jid = Some CANCELLED
      /\ redis w' = redis w).
Proof.
  intros Hq. split.
  - apply cancel_job_terminal. exact Hq.
  - intros Hs.
    rewrite (cancel_job_not_pending w jid job fault now Hq)
      by (destruct Hs as [-> | ->]; (reflexivity || discriminate)).
    split; [reflexivity|]. split; [|reflexivity].
    cbn [jobs]. rewrite status_of_update_row by apply keeps_id_mark_cancelled.
    rewrite String.eqb_refl, Hq. reflexivity.
Qed.

Lemma cancel_job_guard_witness :
  (cancel_job docx_completed "job-1" false 1003).2
  = HTTPException 400 "Cannot cancel job with status: completed"
  /\ status_of (jobs (cancel_job docx_completed "job-1" false 1003).1) "job-1"
     = Some COMPLETED
  /\ status_of (jobs (cancel_job docx_claimed.1 "job-1" false 1003).1) "job-1"
     = Some CANCELLED.
Proof.
  assert (Hc : exists job, query_first (jobs docx_completed) "job-1" = Some job
                           /\ Job.status job = COMPLETED)
    by (eexists; split; vm_compute; reflexivity).
  destruct Hc as (job & Hq & Hs).
  pose proof (proj1 (cancel_job_guard docx_completed "job-1" job false 1003 Hq)) as H1.
  rewrite Hs in H1. specialize (H1 eq_refl). rewrite H1. cbn [fst snd].
  split; [reflexivity|]. split; [vm_compute; reflexivity|].
  assert (Hp : exists job, query_first (jobs docx_claimed.1) "job-1" = Some job
                           /\ Job.status job = PROCESSING)
    by (eexists; split; vm_compute; reflexivity).
  destruct Hp as (job' & Hq' & Hs').
  pose proof (proj2 (cancel_job_guard docx_claimed.1 "job-1" job' false 1003 Hq')
                (or_introl Hs')) as H2.
  destruct (cancel_job docx_claimed.1 "job-1" false 1003) as [w' resp].
  apply H2.
Defined.

(** C5, the claim refuted: the job of [report.docx] is PROCESSING, claimed
    by a worker; the cancel request is answered with success and the row
    becomes CANCELLED. *)
Lemma cancel_processing_job_accepted :
  status_of (jobs docx_claimed.1) "job-1" = Some PROCESSING
  /\ (cancel_job docx_claimed.1 "job-1" false 1003).2
     = Return (mkCancelBody "job-1" "cancelled" "Job cancelled successfully")
  /\ status_of (jobs (cancel_job docx_claimed.1 "job-1" false 1003).1) "job-1"
     = Some CANCELLED.
Proof. vm_compute. repeat split; reflexivity. Qed.

(** C2 (the code departs from the claim).  The job of [scan.pdf] is PENDING
    with its message in the image queue.  Cancelling it reaches the reference
    to [ConversionType.MP4_TO_MP3], which the enumeration does not have: the
    endpoint answers 500, the row stays PENDING, the message stays queued and
    the next dequeue hands it to a worker.  For a DOCX job the same request
    removes the message and marks the row, and a COMPLETED job is rejected. *)
Theorem cancel_pending_image_job_fails :
  status_of (jobs jpg_pending) "job-1" = Some PENDING
  /\ Redis.zcard (redis jpg_pending PDF_IMAGE) = 1%Z
  /\ (cancel_job jpg_pending "job-1" false 1003).2
     = HTTPException 500 "Internal server error: MP4_TO_MP3"
  /\ (let w' := (cancel_job jpg_pending "job-1" false 1003).1 in
      status_of (jobs w') "job-1" = Some PENDING
      /\ job_id <$> (dequeue false (redis w') PDF_IMAGE).2 = Some "job-1"%string)
  /\ (let w' := (cancel_job docx_pending "job-1" false 1003).1 in
      status_of (jobs w') "job-1" = Some CANCELLED
      /\ redis w' DOCX_PDF = []
      /\ (dequeue false (redis w') DOCX_PDF).2 = None)
  /\ (cancel_job docx_completed "job-1" false 1003).2
     = HTTPException 400 "Cannot cancel job with status: completed".
Proof. vm_compute. repeat split; reflexivity. Qed.

(** Whatever the tables hold, a PENDING job of an image conversion cannot be
    cancelled: the request fails with 500 and changes nothing. *)
Lemma cancel_job_pending_image w jid job fault now :
  query_first (jobs w) jid = Some job ->
  Job.status job = PENDING ->
  Job.conversion_type job <> DOCX_TO_PDF ->
  Job.conversion_type job <> PDF_TO_DOCX ->
  cancel_job w jid fault now = (w, internal_error "MP4_TO_MP3").
Proof.
  intros Hq Hs H1 H2. unfold cancel_job. rewrite Hq, Hs. cbn [terminal].
  rewrite bool_decide_eq_true_2 by reflexivity.
  unfold cancel_queue_name.
  rewrite (bool_decide_eq_false_2 _ H1), (bool_decide_eq_false_2 _ H2). reflexivity.
Qed.

(** ** Retry-uploaded *)

Section RetryFacts.

Variable fault : string -> bool.






End RetryFacts.







(** ** The worker harness *)

Section HarnessFacts.

Variables service_name worker_id : string.

(** [_process_job], path by path. *)
Lemma _process_job_unfold message env w k :
  _process_job service_name worker_id message env (w, k)
  = let jid := job_id message in
    let '(r, w3) := convert env message (claimed service_name worker_id message env w) in
    let k' := released jid k in
    match r with
    | Ok (true, out, err) =>
        (Ok tt, (status_write service_name (final_fault env) jid COMPLETED
                   (completed_kwargs out env) w3, k'))
    | Ok (false, out, err) =>
        (Ok tt, (status_write service_name (final_fault env) jid FAILED
                   (failed_kwargs err env) w3, k'))
    | Raise (Exception e) =>
        (Ok tt, (status_write service_name (final_fault env) jid FAILED
                   (failed_kwargs (Some e) env) w3, k'))
    | Raise CancelledError => (Raise CancelledError, (w3, k'))
    end.
Proof.
  cbv zeta.
  unfold _process_job, try_finally, try_except, bind, active_jobs_add, _update_status,
    await, active_jobs_discard, claimed, claim_kwargs.
  destruct (convert env message _) as [r w3]. cbn [is_running active_jobs].
  destruct r as [[[success out] err]|e].
  - destruct success; reflexivity.
  - destruct e; reflexivity.
Qed.

Lemma not_in_released jid k : jid ∉ active_jobs (released jid k).
Proof.
  unfold released. cbn [active_jobs]. apply not_elem_of_difference. right.
  apply elem_of_singleton. reflexivity.
Qed.

Lemma status_fold_setattr kws j : Job.status (fold_left setattr kws j) = Job.status j.
Proof.
  revert j. induction kws as [|kw kws IH]; intros j; cbn; [reflexivity|].
  rewrite IH. destruct kw; reflexivity.
Qed.

Lemma status_write_status s kws j : Job.status (write_status service_name s kws j) = s.
Proof. unfold write_status. rewrite status_fold_setattr. reflexivity. Qed.

(** A status write that goes through sets the status of the row. *)
Lemma status_of_status_write db_fault jid s kws w jid' :
  status_of (jobs (status_write service_name db_fault jid s kws w)) jid'
  = if negb db_fault && String.eqb jid' jid
    then (fun _ => s) <$> status_of (jobs w) jid
    else status_of (jobs w) jid'.
Proof.
  unfold status_write. destruct db_fault; [reflexivity|]. cbn [negb andb].
  destruct (query_first (jobs w) jid) as [j|] eqn:Hq.
  - cbn [jobs]. rewrite status_of_update_row by apply keeps_id_write_status.
    destruct (String.eqb jid' jid); [|reflexivity].
    unfold status_of. rewrite Hq. cbn. rewrite status_write_status. reflexivity.
  - destruct (String.eqb_spec jid' jid) as [->|_]; [|reflexivity].
    unfold status_of. rewrite Hq. reflexivity.
Qed.

Lemma redis_status_write db_fault jid s kws w :
  redis (status_write service_name db_fault jid s kws w) = redis w.
Proof.
  unfold status_write. destruct db_fault; [reflexivity|].
  destruct (query_first (jobs w) jid); reflexivity.
Qed.

(** [_process_job] leaves [is_running] alone. *)
Lemma _process_job_is_running message env st :
  is_running (_process_job service_name worker_id message env st).2.2 = is_running st.2.
Proof.
  destruct st as [w k]. rewrite _process_job_unfold. cbv zeta.
  destruct (convert env message _) as [r w3].
  destruct r as [[[[] out] err]|[e|]]; reflexivity.
Qed.

Lemma worker_turn_is_running queue_name t st :
  is_running (worker_turn service_name worker_id queue_name t st).2.2 = is_running st.2.
Proof.
  destruct st as [w k]. unfold worker_turn, bind, await_dequeue.
  destruct (cancelled t); [reflexivity|].
  destruct (dequeue _ _ _) as [r [m|]]; [|reflexivity].
  rewrite _process_job_is_running. reflexivity.
Qed.

(** No turn of the loop ends in an [Exception]. *)
Lemma worker_turn_result queue_name t st :
  (worker_turn service_name worker_id queue_name t st).1 = Ok tt
  \/ (worker_turn service_name worker_id queue_name t st).1 = Raise CancelledError.
Proof.
  destruct st as [w k]. unfold worker_turn, bind, await_dequeue.
  destruct (cancelled t); [right; reflexivity|].
  destruct (dequeue _ _ _) as [r [m|]]; [|left; reflexivity].
  rewrite _process_job_unfold. cbv zeta.
  destruct (convert (job_env t) m _) as [r0 w3].
  destruct r0 as [[[[] out] err]|[e|]]; auto.
Qed.

Lemma worker_turn_uncancelled queue_name t st :
  uncancelled t -> (worker_turn service_name worker_id queue_name t st).1 = Ok tt.
Proof.
  intros [Hc Hconv]. destruct st as [w k]. unfold worker_turn, bind, await_dequeue.
  rewrite Hc. destruct (dequeue _ _ _) as [r [m|]]; [|reflexivity].
  rewrite _process_job_unfold. cbv zeta.
  specialize (Hconv m (claimed service_name worker_id m (job_env t)
                         {| jobs := jobs w; redis := r |})).
  destruct (convert (job_env t) m _) as [r0 w3].
  destruct r0 as [[[[] out] err]|[e|]]; try reflexivity.
  exfalso. apply Hconv. reflexivity.
Qed.

(** The loop takes every turn it is granted unless it is cancelled. *)
Lemma _worker_loop_all_turns queue_name turns : forall st,
  is_running st.2 = true ->
  Forall uncancelled turns ->
  (_worker_loop service_name worker_id queue_name turns st).1 = length turns.
Proof.
  induction turns as [|t turns IH]; intros st Hrun Hall; [reflexivity|].
  apply Forall_cons in Hall. destruct Hall as [Ht Hall].
  cbn [_worker_loop length]. rewrite Hrun.
  pose proof (worker_turn_uncancelled queue_name t st Ht) as Hok.
  pose proof (worker_turn_is_running queue_name t st) as Hrun'.
  destruct (worker_turn service_name worker_id queue_name t st) as [r st'].
  cbn [fst snd] in Hok, Hrun'. subst r.
  specialize (IH st'). rewrite Hrun', Hrun in IH. specialize (IH eq_refl Hall).
  destruct (_worker_loop service_name worker_id queue_name turns st') as [n st''].
  cbn [fst] in *. rewrite IH. reflexivity.
Qed.

End HarnessFacts.

(** C7 (as the code has it).  Nothing but a task cancellation leaves
    [_process_job], and the job id has left the active set whenever it
    returns or raises.  An exception that escapes the conversion, like a
    conversion that reports failure, ends in a FAILED write, which marks the
    row when the row exists and the store takes the write.  An exception
    inside a status write is caught by the write itself: a fault in the
    claim leaves the stores as they were and the conversion still runs; a
    fault in the last write leaves the stores as the conversion left them.
    A worker loop that is not cancelled takes every turn it is granted. *)
Theorem process_job_isolation (service_name worker_id : string) (queue_name : QueueName) :
  (forall message env w k,
      let jid := job_id message in
      let c := convert env message (claimed service_name worker_id message env w) in
      let '(r, st') := _process_job service_name worker_id message env (w, k) in
      (r = Ok tt \/ (r = Raise CancelledError /\ c.1 = Raise CancelledError))
      /\ (jid ∉ active_jobs (snd st'))
      /\ (forall e, c.1 = Raise (Exception e) ->
                    final_fault env = false ->
                    is_Some (query_first (jobs c.2) jid) ->
                    r = Ok tt /\ status_of (jobs st'.1) jid = Some FAILED)
      /\ (forall out err, c.1 = Ok (false, out, err) ->
                          final_fault env = false ->
                          is_Some (query_first (jobs c.2) jid) ->
                          r = Ok tt /\ status_of (jobs st'.1) jid = Some FAILED)
      /\ (claim_fault env = true ->
          claimed service_name worker_id message env w = w)
      /\ (final_fault env = true -> st'.1 = c.2))
  /\ (forall turns st,
        is_running st.2 = true ->
        Forall uncancelled turns ->
        (_worker_loop service_name worker_id queue_name turns st).1 = length turns).
Proof.
  split; [|intros turns st; apply _worker_loop_all_turns].
  intros message env w k. cbv zeta. rewrite _process_job_unfold. cbv zeta.
  destruct (convert env message _) as [r w3]. cbn [fst snd].
  assert (Hfailed : forall kws,
             final_fault env = false ->
             is_Some (query_first (jobs w3) (job_id message)) ->
             status_of (jobs (status_write service_name (final_fault env) (job_id message)
                                FAILED kws w3)) (job_id message) = Some FAILED).
  { intros kws Hf [j Hq]. rewrite status_of_status_write, Hf, String.eqb_refl.
    unfold status_of. rewrite Hq. reflexivity. }
  assert (Hclaim : claim_fault env = true ->
                   claimed service_name worker_id message env w = w).
  { intros Hc. unfold claimed, status_write. rewrite Hc. reflexivity. }
  assert (Hfinal : forall s kws, final_fault env = true ->
                   status_write service_name (final_fault env) (job_id message) s kws w3 = w3).
  { intros s kws Hf. unfold status_write. rewrite Hf. reflexivity. }
  destruct r as [[[[] out] err]|[e|]]; cbn [fst snd].
  - split; [left; reflexivity|]. split; [apply not_in_released|].
    split; [discriminate|]. split; [discriminate|]. split; [exact Hclaim|]. apply Hfinal.
  - split; [left; reflexivity|]. split; [apply not_in_released|].
    split; [discriminate|].
    split; [intros out' err' _ Hf Hq; split; [reflexivity|exact (Hfailed _ Hf Hq)]|].
    split; [exact Hclaim|]. apply Hfinal.
  - split; [left; reflexivity|]. split; [apply not_in_released|].
    split; [intros e' _ Hf Hq; split; [reflexivity|exact (Hfailed _ Hf Hq)]|].
    split; [discriminate|]. split; [exact Hclaim|]. apply Hfinal.
  - split; [right; split; reflexivity|]. split; [apply not_in_released|].
    split; [discriminate|]. split; [discriminate|]. split; [exact Hclaim|]. reflexivity.
Qed.

Lemma process_job_isolation_witness :
  (_process_job "docx-pdf-service" "docx-pdf-worker-0" docx_message raising_env
     (docx_pending, idle_worker)).1 = Ok tt
  /\ status_of
       (jobs (_process_job "docx-pdf-service" "docx-pdf-worker-0" docx_message raising_env
                (docx_pending, idle_worker)).2.1) "job-1" = Some FAILED
  /\ ("job-1"%string
      ∉ active_jobs
          (snd (snd (_process_job "docx-pdf-service" "docx-pdf-worker-0" docx_message
                       raising_env (docx_pending, idle_worker)))))
  /\ (_worker_loop "docx-pdf-service" "docx-pdf-worker-0" DOCX_PDF
        [mkTurn false false raising_env; mkTurn false true raising_env]
        (docx_pending, idle_worker)).1 = 2%nat.
Proof.
  pose proof (proj1 (process_job_isolation "docx-pdf-service" "docx-pdf-worker-0" DOCX_PDF)
                docx_message raising_env docx_pending idle_worker) as H.
  cbv zeta in H.
  destruct (_process_job "docx-pdf-service" "docx-pdf-worker-0" docx_message raising_env
              (docx_pending, idle_worker)) as [r st'].
  destruct H as (_ & Hactive & Hexc & _).
  destruct (Hexc "boom"%string) as [Hr Hs];
    [reflexivity | reflexivity | vm_compute; eexists; reflexivity |].
  cbn [fst snd]. split; [exact Hr|]. split; [exact Hs|]. split; [exact Hactive|].
  apply (proj2 (process_job_isolation "docx-pdf-service" "docx-pdf-worker-0" DOCX_PDF)).
  - reflexivity.
  - repeat constructor; intros m w0; discriminate.
Defined.

(** C7, the claim refuted.  The session raises while the worker claims the
    job of [report.docx]: the exception is logged inside the status write,
    the conversion runs and the row ends COMPLETED, not FAILED.  And when
    the conversion raises and the session then raises in the FAILED write,
    the row stays PROCESSING. *)
Lemma claim_exception_not_failed :
  status_of
    (jobs (_process_job "docx-pdf-service" "docx-pdf-worker-0" docx_message
             (mkJobEnv true false 1001 1002 (docx_conversion good_run))
             (docx_pending, idle_worker)).2.1) "job-1" = Some COMPLETED
  /\ status_of
       (jobs (_process_job "docx-pdf-service" "docx-pdf-worker-0" docx_message
                (mkJobEnv false true 1001 1002 raising_conversion)
                (docx_pending, idle_worker)).2.1) "job-1" = Some PROCESSING.
Proof. vm_compute. split; reflexivity. Qed.

(** ** Terminal statuses *)







(** ** The output path *)

Section OutputPathFacts.














End OutputPathFacts.







Section WorkerOutputPath.

Variables service_name worker_id : string.





End WorkerOutputPath.




(** * Further properties of the queue *)

(** ** The text of a message *)

Section MessageCodec.

Lemma fold_bind_kwarg_None l : fold_left bind_kwarg l None = None.
Proof. induction l as [|kv l IH]; [reflexivity|exact IH]. Qed.

Lemma bind_kwarg_unknown a k v :
  ~ In k message_fields -> bind_kwarg (Some a) (k, v) = None.
Proof.
  intros Hk. unfold bind_kwarg.
  repeat match goal with
  | |- context [String.eqb k ?f] =>
      destruct (String.eqb_spec k f) as [->|_];
        [exfalso; apply Hk; unfold message_fields; simpl; tauto|]
  end.
  reflexivity.
Qed.

Lemma bind_kwarg_other k a k' v a' :
  In k required_fields -> k' <> k ->
  bind_kwarg (Some a) (k', v) = Some a' -> kw_required k a' = kw_required k a.
Proof.
  intros Hin Hne H. unfold bind_kwarg in H.
  repeat match type of H with
  | context [String.eqb k' ?f] =>
      destruct (String.eqb_spec k' f) as [->|_]
  end;
  try discriminate;
  (destruct v as [[| | |]|]; try discriminate; injection H as <-);
  simpl in Hin; destruct Hin as [<-|[<-|[<-|[<-|[]]]]];
  try reflexivity; contradiction.
Qed.

Lemma fold_bind_kwarg_other k l : forall a a',
  In k required_fields -> (forall v, ~ In (k, v) l) ->
  fold_left bind_kwarg l (Some a) = Some a' -> kw_required k a' = kw_required k a.
Proof.
  induction l as [|[k' v] l IH]; intros a a' Hin Hno H.
  - injection H as <-. reflexivity.
  - cbn [fold_left] in H.
    assert (Hne : k' <> k).
    { intros ->. apply (Hno v). left. reflexivity. }
    destruct (bind_kwarg (Some a) (k', v)) as [a1|] eqn:E.
    + rewrite (IH a1 a' Hin) by (try exact H; intros v' Hv'; apply (Hno v'); right; exact Hv').
      exact (bind_kwarg_other k a k' v a1 Hin Hne E).
    + rewrite fold_bind_kwarg_None in H. discriminate.
Qed.

Lemma construct_required k a m :
  In k required_fields -> construct a = Some m -> is_Some (kw_required k a).
Proof.
  intros Hin H. unfold construct in H.
  destruct (kw_job_id a) eqn:E1; [|discriminate].
  destruct (kw_conversion_type a) eqn:E2; [|discriminate].
  destruct (kw_file_path a) eqn:E3; [|discriminate].
  destruct (kw_filename a) eqn:E4; [|discriminate].
  simpl in Hin. destruct Hin as [<-|[<-|[<-|[<-|[]]]]]; unfold kw_required; simpl;
    rewrite ?E1, ?E2, ?E3, ?E4; eexists; reflexivity.
Qed.

End MessageCodec.

(** X1.  The text of a message reads back as the message: [from_json]
    undoes [to_json] on every message, so two messages with the same text
    are the same message. *)
Theorem message_json_round_trip (m : QueueMessage) :
  from_json (to_json m) = Some m
  /\ (forall m', to_json m = to_json m' -> m = m').
Proof.
  split; [apply JsonFacts.from_json_to_json|].
  intros m'. apply JsonFacts.to_json_inj.
Qed.

(** X2.  [from_json] raises on a JSON object with a key that is not a field
    of the dataclass, wherever the key stands and whatever else the object
    holds. *)
Theorem from_json_unknown_key (o : list (string * Json.value)) (k : string)
    (v : Json.value) :
  In (k, v) o -> ~ In k message_fields -> from_json (Json.dumps o) = None.
Proof.
  intros Hin Hk. unfold from_json. rewrite JsonFacts.loads_dumps.
  apply in_split in Hin. destruct Hin as (l1 & l2 & ->).
  rewrite fold_left_app. cbn [fold_left].
  destruct (fold_left bind_kwarg l1 (Some no_kwargs)) as [a|].
  - rewrite (bind_kwarg_unknown a k v Hk), fold_bind_kwarg_None. reflexivity.
  - cbn [bind_kwarg]. rewrite fold_bind_kwarg_None. reflexivity.
Qed.

Lemma from_json_unknown_key_witness :
  from_json (Json.dumps [("job_id"%string, Json.Scalar (Json.Str "job-1"));
                         ("owner"%string, Json.Scalar (Json.Str "nobody"))]) = None.
Proof.
  apply (from_json_unknown_key _ "owner"%string (Json.Scalar (Json.Str "nobody"))).
  - right. left. reflexivity.
  - unfold message_fields. simpl. intros H.
    repeat (destruct H as [H|H]; [discriminate|]). exact H.
Defined.

(** X3.  [from_json] raises on a JSON object that lacks one of the four
    fields the dataclass gives no default: the job id, the conversion
    type, the file path or the file name, whatever else the object
    holds. *)
Theorem from_json_required_fields (o : list (string * Json.value)) (k : string) :
  In k required_fields -> (forall v, ~ In (k, v) o) -> from_json (Json.dumps o) = None.
Proof.
  intros Hin Hno. unfold from_json. rewrite JsonFacts.loads_dumps.
  destruct (fold_left bind_kwarg o (Some no_kwargs)) as [a|] eqn:E; [|reflexivity].
  destruct (construct a) as [m|] eqn:C; [|reflexivity].
  exfalso.
  pose proof (construct_required k a m Hin C) as [x Hx].
  rewrite (fold_bind_kwarg_other k o no_kwargs a Hin Hno E) in Hx.
  simpl in Hin. destruct Hin as [<-|[<-|[<-|[<-|[]]]]]; discriminate.
Qed.

Lemma from_json_required_fields_witness :
  from_json (Json.dumps [("job_id"%string, Json.Scalar (Json.Str "job-1"));
                         ("priority"%string, Json.Scalar (Json.Int 3))]) = None.
Proof.
  apply (from_json_required_fields _ "filename"%string).
  - unfold required_fields. simpl. tauto.
  - intros v H. simpl in H. destruct H as [H|[H|[]]]; discriminate.
Defined.

(** ** Dequeue order *)

Section DrainFacts.

Lemma snoc_case {A} (l : list A) : l = [] \/ exists l' a, l = l' ++ [a].
Proof.
  induction l as [|x l IH] using rev_ind; [left; reflexivity|].
  right. exists l, x. reflexivity.
Qed.

(** A queue of messages is the image of a list of messages. *)
Lemma message_entries z :
  Forall message_entry z -> exists ms, z = map entry_of ms.
Proof.
  induction 1 as [|e z [m ->] _ [ms ->]]; [exists []; reflexivity|].
  exists (m :: ms). reflexivity.
Qed.

Lemma dequeue_snoc r queue_name z member score :
  r queue_name = z ++ [(member, score)] ->
  dequeue false r queue_name = (Redis.set_key r queue_name z, from_json member).
Proof.
  intros H. unfold dequeue. rewrite H, zpopmax_snoc.
  destruct (from_json member); reflexivity.
Qed.

Lemma drain_messages n : forall r queue_name ms,
  r queue_name = map entry_of ms -> drain n r queue_name = firstn n (rev ms).
Proof.
  induction n as [|n IH]; intros r queue_name ms H; [reflexivity|].
  cbn [drain]. destruct (snoc_case ms) as [->|(ms' & m & ->)].
  - unfold dequeue. rewrite H. reflexivity.
  - rewrite map_app in H. cbn [map] in H. unfold entry_of at 2 in H.
    rewrite (dequeue_snoc r queue_name _ _ _ H), JsonFacts.from_json_to_json.
    rewrite rev_app_distr. cbn [rev app firstn]. f_equal.
    apply IH. apply set_key_same.
Qed.

Lemma peek_messages_entries ms : peek_messages (map entry_of ms) = Some ms.
Proof.
  induction ms as [|m ms IH]; [reflexivity|].
  cbn [map peek_messages]. unfold entry_of at 1.
  rewrite JsonFacts.from_json_to_json, IH. reflexivity.
Qed.



Lemma In_firstn {A} n (l : list A) x : In x (firstn n l) -> In x l.
Proof.
  intros H. rewrite <- (firstn_skipn n l). apply in_or_app. left. exact H.
Qed.

Lemma sorted_firstn {A} (R : A -> A -> Prop) n : forall l,
  StronglySorted R l -> StronglySorted R (firstn n l).
Proof.
  induction n as [|n IH]; intros l H; [constructor|].
  destruct H as [|x l Hs Hx]; [constructor|]. cbn [firstn].
  constructor; [exact (IH l Hs)|].
  apply List.Forall_forall. intros y Hy.
  rewrite List.Forall_forall in Hx. apply Hx.
  exact (In_firstn n l y Hy).
Qed.

End DrainFacts.



(** ** Messages of equal priority *)

Section TieFacts.

Lemma string_compare_refl s : String.compare s s = Eq.
Proof.
  pose proof (String.compare_antisym s s) as H.
  destruct (String.compare s s); [reflexivity|discriminate|discriminate].
Qed.

Lemma string_ltb_neq a b : String.ltb a b = true -> String.eqb a b = false.
Proof.
  intros H. destruct (String.eqb_spec a b) as [->|_]; [|reflexivity].
  unfold String.ltb in H. rewrite string_compare_refl in H. discriminate.
Qed.

Lemma string_ltb_asym a b : String.ltb a b = true -> String.ltb b a = false.
Proof.
  unfold String.ltb. rewrite (String.compare_antisym b a).
  destruct (String.compare a b); cbn; congruence.
Qed.

End TieFacts.

(** X5.  Among messages of the same priority the queue is not first in,
    first out: the sorted set orders members of equal score by their text,
    so of two messages of one priority the one whose JSON text is the
    greater leaves first, whichever was enqueued first. *)
Theorem equal_priority_order (r : Redis.keyspace) (queue_name : QueueName)
    (m1 m2 : QueueMessage) :
  r queue_name = [] ->
  priority m1 = priority m2 ->
  String.ltb (to_json m1) (to_json m2) = true ->
  (dequeue false (enqueue false (enqueue false r queue_name m1).1 queue_name m2).1
     queue_name).2 = Some m2
  /\ (dequeue false (enqueue false (enqueue false r queue_name m2).1 queue_name m1).1
        queue_name).2 = Some m2.
Proof.
  intros Hempty Hp Hlt.
  pose proof (string_ltb_neq _ _ Hlt) as Hne.
  pose proof (string_ltb_asym _ _ Hlt) as Hgt.
  assert (Hne' : String.eqb (to_json m2) (to_json m1) = false)
    by (rewrite String.eqb_sym; exact Hne).
  split.
  - unfold enqueue at 2. rewrite Hempty. cbn [Redis.zadd Redis.zremove List.filter
      Redis.zinsert Redis.zmem existsb fst snd].
    unfold enqueue. rewrite set_key_same.
    cbn [Redis.zadd Redis.zremove List.filter Redis.zinsert Redis.zmem existsb fst snd].
    rewrite Hne. cbn [negb orb].
    unfold Redis.zinsert, Redis.entry_ltb. cbn [fst snd].
    rewrite Hp, Z.ltb_irrefl, Z.eqb_refl, Hgt. cbn [orb andb].
    rewrite (dequeue_snoc _ queue_name [(to_json m1, (- priority m2)%Z)]
               (to_json m2) (- priority m2)%Z) by apply set_key_same.
    cbn [snd]. apply JsonFacts.from_json_to_json.
  - unfold enqueue at 2. rewrite Hempty. cbn [Redis.zadd Redis.zremove List.filter
      Redis.zinsert Redis.zmem existsb fst snd].
    unfold enqueue. rewrite set_key_same.
    cbn [Redis.zadd Redis.zremove List.filter Redis.zinsert Redis.zmem existsb fst snd].
    rewrite Hne'. cbn [negb orb].
    unfold Redis.zinsert, Redis.entry_ltb. cbn [fst snd].
    rewrite Hp, Z.ltb_irrefl, Z.eqb_refl, Hlt. cbn [orb andb].
    rewrite (dequeue_snoc _ queue_name [(to_json m1, (- priority m2)%Z)]
               (to_json m2) (- priority m2)%Z) by apply set_key_same.
    cbn [snd]. apply JsonFacts.from_json_to_json.
Qed.

Lemma equal_priority_order_witness :
  (dequeue false
     (enqueue false (enqueue false Redis.empty DOCX_PDF (message_with "job-a" 1)).1
        DOCX_PDF (message_with "job-b" 1)).1 DOCX_PDF).2
  = Some (message_with "job-b" 1)
  /\ (dequeue false
        (enqueue false (enqueue false Redis.empty DOCX_PDF (message_with "job-b" 1)).1
           DOCX_PDF (message_with "job-a" 1)).1 DOCX_PDF).2
     = Some (message_with "job-b" 1).
Proof.
  refine (equal_priority_order Redis.empty DOCX_PDF (message_with "job-a" 1)
            (message_with "job-b" 1) _ _ _).
  - reflexivity.
  - reflexivity.
  - vm_compute. reflexivity.
Defined.

(** ** Removing a job from a queue *)

Section RemoveFacts.

Lemma entry_for_entry_of jid m : entry_for jid (entry_of m) = String.eqb (job_id m) jid.
Proof. unfold entry_for, entry_of. cbn [fst]. rewrite JsonFacts.from_json_to_json. reflexivity. Qed.

(** The scan passes over the messages of other jobs. *)
Lemma remove_job_scan_skip jid ms : forall z rest,
  existsb (entry_for jid) (map entry_of ms) = false ->
  remove_job_scan z (map fst (map entry_of ms) ++ rest) jid = remove_job_scan z rest jid.
Proof.
  induction ms as [|m ms IH]; intros z rest H; [reflexivity|].
  cbn [map existsb] in H. apply orb_false_iff in H. destruct H as [Hm Hms].
  rewrite entry_for_entry_of in Hm.
  cbn [map app remove_job_scan]. unfold entry_of at 1. cbn [fst].
  rewrite JsonFacts.from_json_to_json, Hm. apply IH. exact Hms.
Qed.

Lemma remove_job_scan_absent jid ms z :
  existsb (entry_for jid) (map entry_of ms) = false ->
  remove_job_scan z (map fst (map entry_of ms)) jid = (z, false).
Proof.
  intros H. rewrite <- (app_nil_r (map fst (map entry_of ms))).
  rewrite (remove_job_scan_skip jid ms z [] H). reflexivity.
Qed.

Lemma remove_job_scan_hit jid m z rest :
  job_id m = jid -> Redis.zmem (to_json m) z = true ->
  remove_job_scan z (to_json m :: rest) jid = (Redis.zremove (to_json m) z, true).
Proof.
  intros Hid Hmem. cbn [remove_job_scan].
  rewrite JsonFacts.from_json_to_json, Hid, String.eqb_refl.
  unfold Redis.zrem. rewrite Hmem. reflexivity.
Qed.

(** The first entry a test accepts, with what stands before and after it. *)
Lemma existsb_split {A} (f : A -> bool) l :
  existsb f l = true ->
  exists l1 x l2, l = l1 ++ x :: l2 /\ f x = true /\ existsb f l1 = false.
Proof.
  induction l as [|a l IH]; [discriminate|]. cbn [existsb]. intros H.
  destruct (f a) eqn:E.
  - exists [], a, l. auto.
  - destruct (IH H) as (l1 & x & l2 & -> & Hx & Hl1).
    exists (a :: l1), x, l2. cbn [existsb app]. rewrite E, Hl1. auto.
Qed.

Lemma zmem_In member score z : In (member, score) z -> Redis.zmem member z = true.
Proof.
  intros H. unfold Redis.zmem. apply existsb_exists. exists (member, score).
  split; [exact H|]. apply String.eqb_refl.
Qed.

Lemma zmem_false_zremove member z : Redis.zmem member z = false -> Redis.zremove member z = z.
Proof.
  unfold Redis.zmem, Redis.zremove. induction z as [|x z IH]; [reflexivity|].
  cbn [existsb List.filter]. intros H. apply orb_false_iff in H. destruct H as [Hx Hz].
  rewrite Hx. cbn [negb]. rewrite (IH Hz). reflexivity.
Qed.

Lemma zmem_map_fst member z : Redis.zmem member z = true <-> In member (map fst z).
Proof.
  unfold Redis.zmem. rewrite existsb_exists, in_map_iff. split.
  - intros (e & He & Heq). apply String.eqb_eq in Heq. exists e. auto.
  - intros (e & Heq & He). exists e. split; [exact He|]. rewrite Heq. apply String.eqb_refl.
Qed.

(** With distinct members, [ZREM] takes one entry away. *)
Lemma length_zremove member z :
  NoDup (map fst z) ->
  length (Redis.zremove member z)
  = (length z - (if Redis.zmem member z then 1 else 0))%nat.
Proof.
  unfold Redis.zremove. induction z as [|x z IH]; [reflexivity|].
  cbn [map]. intros Hnd. apply NoDup_cons in Hnd. destruct Hnd as [Hx Hnd].
  cbn [List.filter Redis.zmem existsb].
  destruct (String.eqb_spec x.1 member) as [E|E]; cbn [negb orb length].
  - assert (Hno : Redis.zmem member z = false).
    { destruct (Redis.zmem member z) eqn:M; [|reflexivity].
      exfalso. apply Hx. rewrite E. apply list_elem_of_In. apply zmem_map_fst. exact M. }
    fold (Redis.zremove member z). rewrite (zmem_false_zremove _ _ Hno). lia.
  - rewrite (IH Hnd). fold (Redis.zmem member z).
    destruct (Redis.zmem member z) eqn:M; [|lia].
    destruct z; [discriminate|]. cbn [length]. lia.
Qed.

Lemma set_key_other (r : Redis.keyspace) k z k' : k' <> k -> Redis.set_key r k z k' = r k'.
Proof. intros H. unfold Redis.set_key. rewrite decide_False by exact H. reflexivity. Qed.

End RemoveFacts.

(** X6.  On a queue of messages with distinct members, [remove_job] reports
    [True] exactly when some queued message carries the job id; it then
    takes exactly one entry out of that queue, even when several messages
    carry the id, and otherwise leaves the queue as it was.  No other queue
    changes and nothing is ever added. *)
Theorem remove_job_spec (r : Redis.keyspace) (queue_name : QueueName) (jid : string) :
  Forall message_entry (r queue_name) ->
  NoDup (map fst (r queue_name)) ->
  let '(r', removed) := remove_job false r queue_name jid in
  removed = existsb (entry_for jid) (r queue_name)
  /\ get_queue_size false r' queue_name
     = (get_queue_size false r queue_name - (if removed then 1 else 0))%Z
  /\ (forall k, k <> queue_name -> r' k = r k)
  /\ (removed = false -> r' queue_name = r queue_name)
  /\ (forall e, In e (r' queue_name) -> In e (r queue_name)).
Proof.
  intros Hm Hnd. unfold remove_job, Redis.zrange_all.
  destruct (existsb (entry_for jid) (r queue_name)) eqn:E.
  - destruct (existsb_split _ _ E) as (l1 & x & l2 & Hz & Hx & Hl1).
    assert (Hm' := Hm). rewrite Hz in Hm'. apply List.Forall_app in Hm'.
    destruct Hm' as [Hm1 Hm2]. apply List.Forall_cons_iff in Hm2.
    destruct Hm2 as [[m ->] _]. destruct (message_entries _ Hm1) as [ms1 ->].
    fold (entry_of m) in Hx, Hz. rewrite entry_for_entry_of in Hx. apply String.eqb_eq in Hx.
    assert (Hmem : Redis.zmem (to_json m) (r queue_name) = true).
    { apply (zmem_In _ (- priority m)%Z). rewrite Hz. apply in_or_app. right. left.
      reflexivity. }
    assert (Hscan : remove_job_scan (r queue_name) (map fst (r queue_name)) jid
                    = (Redis.zremove (to_json m) (r queue_name), true)).
    { rewrite Hz at 2. rewrite map_app. cbn [map]. unfold entry_of at 2. cbn [fst].
      rewrite (remove_job_scan_skip jid ms1 _ _ Hl1).
      apply remove_job_scan_hit; assumption. }
    rewrite Hscan. split; [reflexivity|]. split; [|split; [|split]].
    + unfold get_queue_size, Redis.zcard. rewrite set_key_same.
      rewrite (length_zremove _ _ Hnd), Hmem.
      assert (0 < length (r queue_name))%nat
        by (rewrite Hz, length_app; cbn [length]; lia).
      lia.
    + intros k Hk. apply set_key_other. exact Hk.
    + discriminate.
    + intros e. rewrite set_key_same. unfold Redis.zremove. intros He.
      apply filter_In in He. tauto.
  - destruct (message_entries _ Hm) as [ms Hz]. rewrite Hz in E |- *.
    rewrite (remove_job_scan_absent jid ms _ E).
    split; [reflexivity|]. split; [|split; [|split]].
    + unfold get_queue_size. rewrite set_key_same, Hz. lia.
    + intros k Hk. apply set_key_other. exact Hk.
    + intros _. rewrite set_key_same. reflexivity.
    + intros e. rewrite set_key_same. tauto.
Qed.

Lemma remove_job_spec_witness :
  (remove_job false queue_5_1_9 DOCX_PDF "job-one").2 = true
  /\ get_queue_size false (remove_job false queue_5_1_9 DOCX_PDF "job-one").1 DOCX_PDF = 2%Z
  /\ (remove_job false queue_5_1_9 DOCX_PDF "job-none").2 = false.
Proof.
  assert (Hwf : Forall message_entry (queue_5_1_9 DOCX_PDF)).
  { unfold queue_5_1_9. apply (proj2 (enqueue_wf _ _ _ _ _
      (enqueue_wf _ _ _ _ _ (enqueue_wf _ _ _ _ _ queue_wf_empty)))). }
  assert (Hnd : NoDup (map fst (queue_5_1_9 DOCX_PDF))).
  { vm_compute. repeat (apply NoDup_cons; split; [intros H; repeat (apply elem_of_cons in H; destruct H as [H|H]; [discriminate|]); inversion H|]). constructor. }
  pose proof (remove_job_spec queue_5_1_9 DOCX_PDF "job-one" Hwf Hnd) as H1.
  pose proof (remove_job_spec queue_5_1_9 DOCX_PDF "job-none" Hwf Hnd) as H2.
  destruct (remove_job false queue_5_1_9 DOCX_PDF "job-one") as [r1 b1].
  destruct (remove_job false queue_5_1_9 DOCX_PDF "job-none") as [r2 b2].
  destruct H1 as (Hb1 & Hs1 & _). destruct H2 as (Hb2 & _).
  cbn [fst snd]. split; [|split].
  - rewrite Hb1. vm_compute. reflexivity.
  - rewrite Hs1, Hb1. vm_compute. reflexivity.
  - rewrite Hb2. vm_compute. reflexivity.
Defined.

Section EnqueueFacts.

Lemma length_zinsert e z : length (Redis.zinsert e z) = S (length z).
Proof.
  induction z as [|x z IH]; [reflexivity|]. cbn [Redis.zinsert].
  destruct (Redis.entry_ltb e x); cbn [length]; [reflexivity|]. rewrite IH. reflexivity.
Qed.

Lemma In_zinsert e z x : In x (Redis.zinsert e z) <-> x = e \/ In x z.
Proof.
  induction z as [|y z IH]; cbn [Redis.zinsert].
  - cbn. intuition congruence.
  - destruct (Redis.entry_ltb e y); cbn [In]; [intuition congruence|].
    rewrite IH. intuition congruence.
Qed.


Lemma NoDup_zremove member z :
  NoDup (map fst z) -> NoDup (map fst (Redis.zremove member z)).
Proof.
  unfold Redis.zremove. induction z as [|x z IH]; [intros; constructor|].
  cbn [map List.filter]. intros Hnd. apply NoDup_cons in Hnd. destruct Hnd as [Hx Hnd].
  destruct (negb (String.eqb x.1 member)); [|exact (IH Hnd)].
  cbn [map]. apply NoDup_cons. split; [|exact (IH Hnd)].
  intros Hin. apply Hx. apply list_elem_of_In in Hin. apply list_elem_of_In.
  apply in_map_iff in Hin. destruct Hin as (e & He & Hin).
  apply filter_In in Hin. apply in_map_iff. exists e. tauto.
Qed.

Lemma zmem_zremove_same member z : Redis.zmem member (Redis.zremove member z) = false.
Proof.
  unfold Redis.zmem, Redis.zremove. induction z as [|x z IH]; [reflexivity|].
  cbn [List.filter]. destruct (String.eqb x.1 member) eqn:E; cbn [negb existsb]; [exact IH|].
  rewrite E, IH. reflexivity.
Qed.

Lemma NoDup_zinsert member score z :
  Redis.zmem member z = false -> NoDup (map fst z) ->
  NoDup (map fst (Redis.zinsert (member, score) z)).
Proof.
  induction z as [|x z IH]; cbn [Redis.zinsert Redis.zmem existsb map]; intros Hm Hnd.
  - apply NoDup_cons. split; [intros H; inversion H|constructor].
  - apply orb_false_iff in Hm. destruct Hm as [Hx Hz].
    assert (Hnew : member ∉ map fst (x :: z)).
    { intros Hin. apply list_elem_of_In in Hin. cbn [map In] in Hin.
      destruct Hin as [Hin|Hin].
      - rewrite Hin, String.eqb_refl in Hx. discriminate.
      - apply zmem_map_fst in Hin. unfold Redis.zmem in Hin. congruence. }
    destruct (Redis.entry_ltb (member, score) x); cbn [map fst].
    + apply NoDup_cons. split; [exact Hnew|exact Hnd].
    + apply NoDup_cons in Hnd. destruct Hnd as [Hx' Hnd].
      apply NoDup_cons. split; [|exact (IH Hz Hnd)].
      intros Hin. apply list_elem_of_In in Hin. apply in_map_iff in Hin.
      destruct Hin as (e & He & Hin). apply In_zinsert in Hin.
      destruct Hin as [->|Hin].
      * cbn [fst] in He. rewrite He, String.eqb_refl in Hx. discriminate.
      * apply Hx'. apply list_elem_of_In. apply in_map_iff. exists e. tauto.
Qed.

End EnqueueFacts.

(** X7.  [enqueue] reports [True] exactly when the queue grew by one: the
    size of the queue afterwards is the size before plus one when it
    answers [True] and the size before when it answers [False], which it
    does when the Redis client fails or the very text is queued already.
    The members of the queue stay distinct and no other queue changes. *)
Theorem enqueue_size (r : Redis.keyspace) (queue_name : QueueName) (message : QueueMessage)
    (fault : bool) :
  NoDup (map fst (r queue_name)) ->
  let '(r', ok) := enqueue fault r queue_name message in
  get_queue_size false r' queue_name
  = (get_queue_size false r queue_name + (if ok then 1 else 0))%Z
  /\ (ok = true <-> fault = false /\ Redis.zmem (to_json message) (r queue_name) = false)
  /\ NoDup (map fst (r' queue_name))
  /\ (forall k, k <> queue_name -> r' k = r k).
Proof.
  intros Hnd. unfold enqueue. destruct fault.
  - split; [lia|]. split; [split; [discriminate|intros [? _]; discriminate]|].
    split; [exact Hnd|reflexivity].
  - unfold Redis.zadd. cbn [fst snd].
    split; [|split; [|split]].
    + unfold get_queue_size, Redis.zcard. rewrite set_key_same, length_zinsert.
      rewrite (length_zremove _ _ Hnd).
      destruct (Redis.zmem (to_json message) (r queue_name)) eqn:M; cbn; [|lia].
      apply zmem_map_fst in M.
      destruct (r queue_name); [contradiction|]. cbn [length]. lia.
    + destruct (Redis.zmem (to_json message) (r queue_name)); cbn; split;
        (congruence || tauto || (intros [_ ?]; congruence)).
    + rewrite set_key_same. apply NoDup_zinsert.
      * apply zmem_zremove_same.
      * apply NoDup_zremove. exact Hnd.
    + intros k Hk. apply set_key_other. exact Hk.
Qed.

Lemma enqueue_size_witness :
  get_queue_size false (enqueue false queue_5_1_9 DOCX_PDF (message_with "job-two" 2)).1
    DOCX_PDF = 4%Z
  /\ get_queue_size false (enqueue false queue_5_1_9 DOCX_PDF (message_with "job-one" 1)).1
       DOCX_PDF = 3%Z.
Proof.
  assert (Hnd : NoDup (map fst (queue_5_1_9 DOCX_PDF))).
  { vm_compute. repeat (apply NoDup_cons; split; [intros H; repeat (apply elem_of_cons in H; destruct H as [H|H]; [discriminate|]); inversion H|]). constructor. }
  pose proof (enqueue_size queue_5_1_9 DOCX_PDF (message_with "job-two" 2) false Hnd) as H1.
  pose proof (enqueue_size queue_5_1_9 DOCX_PDF (message_with "job-one" 1) false Hnd) as H2.
  destruct (enqueue false queue_5_1_9 DOCX_PDF (message_with "job-two" 2)) as [r1 b1] eqn:E1.
  destruct (enqueue false queue_5_1_9 DOCX_PDF (message_with "job-one" 1)) as [r2 b2] eqn:E2.
  destruct H1 as (Hs1 & _). destruct H2 as (Hs2 & _).
  cbn [fst]. split.
  - rewrite Hs1. apply (f_equal snd) in E1. cbn [snd] in E1. rewrite <- E1.
    vm_compute. reflexivity.
  - rewrite Hs2. apply (f_equal snd) in E2. cbn [snd] in E2. rewrite <- E2.
    vm_compute. reflexivity.
Defined.


(** ** Looking at a queue *)

Section PeekFacts.

Lemma zrevrange_head z count :
  (1 <= count)%Z ->
  RedisCmd.zrevrange z 0 (count - 1) = firstn (Z.to_nat count) (rev z).
Proof.
  intros Hc. unfold RedisCmd.zrevrange. cbv zeta.
  change (0 <? 0)%Z with false. cbv iota. change (0 <? 0)%Z with false. cbv iota.
  rewrite (proj2 (Z.ltb_ge (count - 1) 0)) by lia. cbv iota.
  rewrite (proj2 (Z.ltb_ge (count - 1) 0)) by lia. cbn [orb].
  destruct (Z.leb_spec (Z.of_nat (length z)) 0) as [H0|H0].
  - destruct z; [|cbn [length] in H0; lia]. cbn [rev]. rewrite firstn_nil. reflexivity.
  - change (Z.to_nat 0) with 0%nat. cbn [skipn].
    destruct (Z.leb_spec (Z.of_nat (length z)) (count - 1)) as [H1|H1].
    + replace (Z.to_nat (Z.of_nat (length z) - 1 - 0 + 1)) with (length (rev z))
        by (rewrite length_rev; lia).
      rewrite firstn_all, firstn_all2; [reflexivity|]. rewrite length_rev. lia.
    + f_equal. lia.
Qed.

Lemma zrevrange_all z : RedisCmd.zrevrange z 0 (0 - 1) = rev z.
Proof.
  unfold RedisCmd.zrevrange. cbv zeta.
  change (0 - 1 <? 0)%Z with true. change (0 <? 0)%Z with false. cbv iota.
  destruct z as [|x z]; [reflexivity|].
  change (0 <? 0)%Z with false. cbv iota.
  rewrite (proj2 (Z.ltb_ge _ _)) by (cbn [length]; lia). cbn [orb].
  rewrite (proj2 (Z.leb_gt _ _)) by (cbn [length]; lia).
  rewrite (proj2 (Z.leb_gt _ _)) by (cbn [length]; lia).
  change (Z.to_nat 0) with 0%nat. cbn [skipn].
  replace (Z.to_nat (Z.of_nat (length (x :: z)) + (0 - 1) - 0 + 1))
    with (length (rev (x :: z))) by (rewrite length_rev; lia).
  apply firstn_all.
Qed.

Lemma peek_messages_None l1 member score l2 :
  from_json member = None -> peek_messages (l1 ++ (member, score) :: l2) = None.
Proof.
  intros H. induction l1 as [|[j s] l1 IH]; cbn [app peek_messages].
  - rewrite H. reflexivity.
  - destruct (from_json j); [|reflexivity]. rewrite IH. reflexivity.
Qed.

End PeekFacts.

(** X8.  On a queue of messages, [peek] with a count of at least one shows
    what the next [count] calls of [dequeue] would return, in the same
    order, and removes nothing. *)
Theorem peek_shows_next_dequeues (r : Redis.keyspace) (queue_name : QueueName) (count : Z) :
  Forall message_entry (r queue_name) ->
  (1 <= count)%Z ->
  peek false r queue_name count = drain (Z.to_nat count) r queue_name.
Proof.
  intros Hm Hc. destruct (message_entries _ Hm) as [ms E].
  rewrite (drain_messages _ r queue_name ms E).
  unfold peek. rewrite (zrevrange_head _ _ Hc), E.
  rewrite <- map_rev, firstn_map, peek_messages_entries. reflexivity.
Qed.

Lemma peek_shows_next_dequeues_witness :
  map priority (peek false queue_5_1_9 DOCX_PDF 2) = [1%Z; 5%Z]
  /\ peek false queue_5_1_9 DOCX_PDF 2 = drain 2 queue_5_1_9 DOCX_PDF.
Proof.
  assert (Hwf : Forall message_entry (queue_5_1_9 DOCX_PDF)).
  { unfold queue_5_1_9. apply (proj2 (enqueue_wf _ _ _ _ _
      (enqueue_wf _ _ _ _ _ (enqueue_wf _ _ _ _ _ queue_wf_empty)))). }
  split; [vm_compute; reflexivity|].
  apply (peek_shows_next_dequeues queue_5_1_9 DOCX_PDF 2 Hwf). lia.
Defined.

(** X9.  The edges of [peek].  With a count of 0 the stop rank it sends is
    -1, the last rank, so it returns every message of the queue rather
    than none.  One member that does not decode among those it reads makes
    it return the empty list, and so does a failure of the Redis client. *)
Theorem peek_edges (r : Redis.keyspace) (queue_name : QueueName) :
  (Forall message_entry (r queue_name) ->
   peek false r queue_name 0 = drain (length (r queue_name)) r queue_name
   /\ length (peek false r queue_name 0) = length (r queue_name))
  /\ (forall l1 member score l2,
        rev (r queue_name) = l1 ++ (member, score) :: l2 ->
        from_json member = None ->
        peek false r queue_name 0 = []
        /\ forall count, (Z.of_nat (length l1) < count)%Z ->
                         peek false r queue_name count = [])
  /\ (forall count, peek true r queue_name count = []).
Proof.
  split; [|split].
  - intros Hm. destruct (message_entries _ Hm) as [ms E].
    rewrite (drain_messages _ r queue_name ms E).
    unfold peek. rewrite zrevrange_all, E, <- map_rev, peek_messages_entries.
    rewrite length_map, <- (length_rev ms), firstn_all, length_rev. split; reflexivity.
  - intros l1 member score l2 Hz Hbad. split.
    + unfold peek. rewrite zrevrange_all, Hz, (peek_messages_None _ _ _ _ Hbad).
      reflexivity.
    + intros count Hc. unfold peek. rewrite zrevrange_head by lia. rewrite Hz.
      replace (Z.to_nat count) with (length l1 + S (Z.to_nat count - S (length l1)))%nat
        by lia.
      rewrite firstn_app_2. cbn [firstn].
      rewrite (peek_messages_None _ _ _ _ Hbad). reflexivity.
  - reflexivity.
Qed.

Lemma peek_edges_witness :
  length (peek false queue_5_1_9 DOCX_PDF 0) = 3%nat
  /\ peek false queue_with_garbage DOCX_PDF 1 = [].
Proof.
  assert (Hwf : Forall message_entry (queue_5_1_9 DOCX_PDF)).
  { unfold queue_5_1_9. apply (proj2 (enqueue_wf _ _ _ _ _
      (enqueue_wf _ _ _ _ _ (enqueue_wf _ _ _ _ _ queue_wf_empty)))). }
  split.
  - rewrite (proj2 (proj1 (peek_edges queue_5_1_9 DOCX_PDF) Hwf)). vm_compute. reflexivity.
  - refine (proj2 (proj1 (proj2 (peek_edges queue_with_garbage DOCX_PDF))
                     [] "not a message"%string 0%Z [] _ _) 1%Z _).
    + reflexivity.
    + vm_compute. reflexivity.
    + cbn. lia.
Defined.

(** X10.  [clear_queue] empties one queue: afterwards its size is 0, a
    [dequeue] finds nothing and the other queues hold what they held.  Its
    answer is the number of keys Redis deleted, so it is [False] on a
    queue that was empty already, as it is when the Redis client fails, in
    which case nothing is removed. *)
Theorem clear_queue_spec (r : Redis.keyspace) (queue_name : QueueName) :
  (let '(r', ok) := clear_queue false r queue_name in
   get_queue_size false r' queue_name = 0%Z
   /\ dequeue false r' queue_name = (r', None)
   /\ peek false r' queue_name 1 = []
   /\ (forall k, k <> queue_name -> r' k = r k)
   /\ (ok = true <-> r queue_name <> []))
  /\ clear_queue true r queue_name = (r, false).
Proof.
  split; [|reflexivity].
  unfold clear_queue, RedisCmd.del.
  split; [|split; [|split; [|split]]].
  - unfold get_queue_size. rewrite set_key_same. reflexivity.
  - unfold dequeue. rewrite set_key_same. reflexivity.
  - unfold peek. rewrite set_key_same. reflexivity.
  - intros k Hk. apply set_key_other. exact Hk.
  - destruct (r queue_name); cbn; split; congruence.
Qed.

(** * Further properties of the Job Manager *)

(** ** Routing *)

Section RoutingFacts.

Lemma conversion_map_routes key ct q :
  conversion_map key = Some (ct, q) -> queue_map ct = Some q.
Proof.
  unfold conversion_map.
  repeat match goal with
  | |- context [if ?b then _ else _] => destruct b
  end; intros H; try discriminate; injection H as <- <-; reflexivity.
Qed.

Lemma detect_conversion_routes conversion_type file_name ct q :
  detect_conversion conversion_type file_name = Some (ct, q) -> queue_map ct = Some q.
Proof.
  unfold detect_conversion.
  destruct (truthy conversion_type).
  - destruct (conversion_map (default ""%string conversion_type)) as [[ct' q']|] eqn:E.
    + intros H. injection H as <- <-. exact (conversion_map_routes _ _ _ E).
    + repeat match goal with
      | |- context [if ?b then _ else _] => destruct b
      end; intros H; try discriminate; injection H as <- <-; reflexivity.
  - repeat match goal with
    | |- context [if ?b then _ else _] => destruct b
    end; intros H; try discriminate; injection H as <- <-; reflexivity.
Qed.

End RoutingFacts.

(** X11.  The three places that route a job agree.  The queue [upload_file]
    picks for a conversion type, from the explicit parameter or from the
    file extension, is the queue [retry_uploaded_jobs] picks for that type;
    it is never the notification queue; and a message that lands in one of
    the two queues of the image service carries a type its
    [_process_job] dispatches to a conversion, never to the "Unknown type"
    answer. *)
Theorem routing_agrees (requested : option string) (file_name : string)
    (ct : ConversionType) (q : QueueName) :
  detect_conversion requested file_name = Some (ct, q) ->
  queue_map ct = Some q
  /\ q <> NOTIFICATIONS
  /\ (q = PDF_IMAGE \/ q = IMAGE_PDF ->
      forall run m w,
        conversion_type m = ConversionType_value ct ->
        ImageService.conversion_ run m w
        = (Ok (match ct with
               | PDF_TO_JPG => ImageService._pdf_to_image (job_id m) "jpg" run
               | PDF_TO_PNG => ImageService._pdf_to_image (job_id m) "png" run
               | _ => ImageService._image_to_pdf (job_id m) run
               end), w)
        /\ (ct = PDF_TO_JPG \/ ct = PDF_TO_PNG \/ ct = JPG_TO_PDF \/ ct = PNG_TO_PDF)).
Proof.
  intros H. pose proof (detect_conversion_routes _ _ _ _ H) as Hq.
  split; [exact Hq|]. split.
  - intros ->. destruct ct; discriminate.
  - intros Himg run m w Hm. unfold ImageService.conversion_. rewrite Hm.
    destruct ct; cbn in Hq; injection Hq as <-;
      (destruct Himg as [?|?]; try discriminate); split; try reflexivity; tauto.
Qed.

Lemma routing_agrees_witness :
  queue_map PDF_TO_JPG = Some PDF_IMAGE
  /\ ImageService.conversion_ one_page_run
       (upload_message (upload_row jpg_request (docx_env false) PDF_TO_JPG)) empty_world
     = (Ok (true, Some "converted/job-1.jpg"%string, None), empty_world).
Proof.
  assert (H : detect_conversion (up_conversion_type jpg_request) (up_filename jpg_request)
              = Some (PDF_TO_JPG, PDF_IMAGE)) by (vm_compute; reflexivity).
  destruct (routing_agrees _ _ _ _ H) as (H1 & _ & H3).
  split; [exact H1|].
  rewrite (proj1 (H3 (or_introl eq_refl) one_page_run
                    (upload_message (upload_row jpg_request (docx_env false) PDF_TO_JPG))
                    empty_world eq_refl)).
  vm_compute. reflexivity.
Defined.

(** ** Upload, then status or cancel *)

Section UploadFacts.

(** The row an upload leaves behind. *)
Lemma upload_file_row w req env conv_type queue_name :
  up_filename req <> ""%string ->
  detect_conversion (up_conversion_type req) (up_filename req) = Some (conv_type, queue_name) ->
  (up_size req <= env_max_size env)%Z ->
  env_storage_ok env = true ->
  query_first (jobs w) (env_job_id env) = None ->
  let job := upload_row req env conv_type in
  let ok := (enqueue (env_redis_fault env) (redis w) queue_name (upload_message job)).2 in
  query_first (jobs (upload_file w req env).1) (env_job_id env)
  = Some (if ok then Job.set_status PENDING job else job).
Proof.
  intros Hname Hdet Hsize Hstore Hfresh. cbv zeta.
  rewrite (upload_file_committed w req env conv_type queue_name) by assumption.
  cbv zeta. cbn [fst jobs].
  destruct (enqueue _ _ _ _) as [r1 ok]. cbn [snd]. destruct ok.
  - rewrite query_first_update_row by apply keeps_id_set_status.
    rewrite String.eqb_refl, query_first_app, Hfresh.
    change (Job.id (upload_row req env conv_type)) with (env_job_id env).
    rewrite String.eqb_refl. reflexivity.
  - rewrite query_first_app, Hfresh.
    change (Job.id (upload_row req env conv_type)) with (env_job_id env).
    rewrite String.eqb_refl. reflexivity.
Qed.

(** What a successful upload went through. *)
Lemma upload_file_Return w req env w' body :
  upload_file w req env = (w', Return body) ->
  exists conv_type queue_name,
    up_filename req <> ""%string
    /\ detect_conversion (up_conversion_type req) (up_filename req)
       = Some (conv_type, queue_name)
    /\ (up_size req <= env_max_size env)%Z
    /\ env_storage_ok env = true
    /\ query_first (jobs w) (env_job_id env) = None.
Proof.
  unfold upload_file. intros H.
  destruct (String.eqb_spec (up_filename req) "") as [|Hname]; [discriminate|].
  destruct (detect_conversion _ _) as [[conv_type queue_name]|]; [|discriminate].
  destruct (Z.ltb_spec (env_max_size env) (up_size req)) as [|Hsize]; [discriminate|].
  destruct (env_storage_ok env); [|discriminate]. cbn [negb] in H.
  destruct (query_first (jobs w) (env_job_id env)); [discriminate|].
  exists conv_type, queue_name. auto.
Qed.

End UploadFacts.

(** X12.  What [POST /upload] answers is what [GET /status] then reports:
    after an upload that returned success, the status endpoint finds the
    job under the id of the response and shows the same file name,
    conversion type and status, the size of the upload, and no output
    path. *)
Theorem upload_then_status (w : World) (req : UploadRequest) (env : UploadEnv)
    (w' : World) (body : UploadBody) :
  upload_file w req env = (w', Return body) ->
  exists d,
    get_job_status (jobs w') (body_job_id body) = Return d
    /\ dict_id d = body_job_id body
    /\ dict_filename d = body_filename body
    /\ dict_conversion_type d = body_conversion_type body
    /\ dict_status d = body_status body
    /\ dict_original_size d = up_size req
    /\ dict_output_path d = None.
Proof.
  intros H.
  destruct (upload_file_Return _ _ _ _ _ H)
    as (conv_type & queue_name & Hname & Hdet & Hsize & Hstore & Hfresh).
  pose proof (upload_file_row w req env conv_type queue_name Hname Hdet Hsize Hstore Hfresh)
    as Hrow.
  cbv zeta in Hrow. rewrite H in Hrow. cbn [fst] in Hrow.
  pose proof (upload_file_committed w req env conv_type queue_name
                Hname Hdet Hsize Hstore Hfresh) as Hc.
  cbv zeta in Hc. rewrite H in Hc. injection Hc as _ ->.
  cbn [body_job_id body_filename body_conversion_type body_status].
  unfold get_job_status. rewrite Hrow.
  destruct (enqueue _ _ _ _) as [r1 ok]. cbn [snd].
  eexists. split; [reflexivity|]. destruct ok; repeat split; reflexivity.
Qed.

Lemma upload_then_status_witness :
  dict_status <$> (match get_job_status (jobs docx_pending) "job-1" with
                   | Return d => Some d
                   | HTTPException _ _ => None
                   end) = Some "pending"%string.
Proof.
  destruct (upload_file empty_world docx_request (docx_env false)) as [w' [body|c d]] eqn:E;
    [|vm_compute in E; discriminate].
  destruct (upload_then_status _ _ _ _ _ E) as (d & Hd & _ & _ & _ & Hs & _).
  assert (Hw : docx_pending = w') by (unfold docx_pending; rewrite E; reflexivity).
  assert (Hb : body_job_id body = "job-1"%string /\ body_status body = "pending"%string).
  { vm_compute in E. injection E as _ <-. split; reflexivity. }
  destruct Hb as [Hb1 Hb2]. rewrite Hw, <- Hb1, Hd. cbn. rewrite Hs, Hb2. reflexivity.
Defined.



(** ** Listings *)

Section ListingFacts.

Lemma JobStatus_of_value_spec v s : JobStatus_of_value v = Some s <-> JobStatus_value s = v.
Proof.
  split.
  - intros H. apply find_some in H. destruct H as [_ H]. apply String.eqb_eq in H. exact H.
  - intros <-. destruct s; reflexivity.
Qed.

Lemma ConversionType_of_value_spec v c :
  ConversionType_of_value v = Some c <-> ConversionType_value c = v.
Proof.
  split.
  - intros H. apply find_some in H. destruct H as [_ H]. apply String.eqb_eq in H. exact H.
  - intros <-. destruct c; reflexivity.
Qed.

Lemma JobStatus_of_value_valid v : is_Some (JobStatus_of_value v) <-> In v status_values.
Proof.
  split.
  - intros [s H]. apply JobStatus_of_value_spec in H. subst v.
    destruct s; unfold status_values; simpl; tauto.
  - intros H. unfold status_values in H. simpl in H.
    repeat (destruct H as [<-|H]; [eexists; reflexivity|]). contradiction.
Qed.

Lemma ConversionType_of_value_valid v :
  is_Some (ConversionType_of_value v) <-> In v conversion_values.
Proof.
  split.
  - intros [s H]. apply ConversionType_of_value_spec in H. subst v.
    destruct s; unfold conversion_values; simpl; tauto.
  - intros H. unfold conversion_values in H. simpl in H.
    repeat (destruct H as [<-|H]; [eexists; reflexivity|]). contradiction.
Qed.

Lemma filter_filter {A} (f g : A -> bool) l :
  List.filter g (List.filter f l) = List.filter (fun x => f x && g x) l.
Proof.
  induction l as [|x l IH]; [reflexivity|]. cbn [List.filter].
  destruct (f x); cbn [andb List.filter]; [|exact IH].
  destruct (g x); rewrite IH; reflexivity.
Qed.

Lemma filter_true {A} (l : list A) : List.filter (fun _ => true) l = l.
Proof. induction l as [|x l IH]; [reflexivity|]. cbn. rewrite IH. reflexivity. Qed.

Lemma status_test s j :
  bool_decide (Job.status j = s) = String.eqb (JobStatus_value (Job.status j)) (JobStatus_value s).
Proof. destruct (Job.status j), s; reflexivity. Qed.

Lemma conversion_test c j :
  bool_decide (Job.conversion_type j = c)
  = String.eqb (ConversionType_value (Job.conversion_type j)) (ConversionType_value c).
Proof. destruct (Job.conversion_type j), c; reflexivity. Qed.

(** The filters accept the parameters exactly when both are valid, and
    then keep the rows that pass. *)
Lemma apply_filters_spec query status conversion_type :
  (valid_filter status_values status /\ valid_filter conversion_values conversion_type ->
   apply_filters query status conversion_type
   = Return (List.filter (passes status conversion_type) query))
  /\ (forall query', apply_filters query status conversion_type = Return query' ->
        valid_filter status_values status /\ valid_filter conversion_values conversion_type)
  /\ (forall code detail,
        apply_filters query status conversion_type = HTTPException code detail ->
        code = 400%Z).
Proof.
  unfold apply_filters, valid_filter, passes.
  destruct (truthy status) eqn:Ts; destruct (truthy conversion_type) eqn:Tc; cbn [negb orb andb].
  - destruct (JobStatus_of_value (default ""%string status)) as [s|] eqn:Es;
      destruct (ConversionType_of_value (default ""%string conversion_type)) as [c|] eqn:Ec.
    + pose proof (proj1 (JobStatus_of_value_spec _ _) Es) as Hs.
      pose proof (proj1 (ConversionType_of_value_spec _ _) Ec) as Hc.
      split; [|split].
      * intros _. rewrite filter_filter. f_equal. apply List.filter_ext. intros j.
        rewrite status_test, conversion_test, Hs, Hc. reflexivity.
      * intros _ _. split; right.
        -- apply JobStatus_of_value_valid. eexists. exact Es.
        -- apply ConversionType_of_value_valid. eexists. exact Ec.
      * discriminate.
    + split; [|split].
      * intros [_ [?|H]]; [discriminate|].
        apply ConversionType_of_value_valid in H. destruct H as [? H]. congruence.
      * discriminate.
      * intros code detail H. injection H as <- _. reflexivity.
    + split; [|split].
      * intros [[?|H] _]; [discriminate|].
        apply JobStatus_of_value_valid in H. destruct H as [? H]. congruence.
      * discriminate.
      * intros code detail H. injection H as <- _. reflexivity.
    + split; [|split].
      * intros [[?|H] _]; [discriminate|].
        apply JobStatus_of_value_valid in H. destruct H as [? H]. congruence.
      * discriminate.
      * intros code detail H. injection H as <- _. reflexivity.
  - destruct (JobStatus_of_value (default ""%string status)) as [s|] eqn:Es.
    + pose proof (proj1 (JobStatus_of_value_spec _ _) Es) as Hs.
      split; [|split].
      * intros _. f_equal. apply List.filter_ext. intros j.
        rewrite status_test, Hs, andb_true_r. reflexivity.
      * intros _ _. split; [right|left; reflexivity].
        apply JobStatus_of_value_valid. eexists. exact Es.
      * discriminate.
    + split; [|split].
      * intros [[?|H] _]; [discriminate|].
        apply JobStatus_of_value_valid in H. destruct H as [? H]. congruence.
      * discriminate.
      * intros code detail H. injection H as <- _. reflexivity.
  - destruct (ConversionType_of_value (default ""%string conversion_type)) as [c|] eqn:Ec.
    + pose proof (proj1 (ConversionType_of_value_spec _ _) Ec) as Hc.
      split; [|split].
      * intros _. f_equal. apply List.filter_ext. intros j.
        rewrite conversion_test, Hc. reflexivity.
      * intros _ _. split; [left; reflexivity|right].
        apply ConversionType_of_value_valid. eexists. exact Ec.
      * discriminate.
    + split; [|split].
      * intros [_ [?|H]]; [discriminate|].
        apply ConversionType_of_value_valid in H. destruct H as [? H]. congruence.
      * discriminate.
      * intros code detail H. injection H as <- _. reflexivity.
  - split; [|split].
    + intros _. rewrite filter_true. reflexivity.
    + intros _ _. split; left; reflexivity.
    + discriminate.
Qed.

Lemma In_insert_desc j l x : In x (insert_desc j l) <-> x = j \/ In x l.
Proof.
  induction l as [|y l IH]; cbn [insert_desc].
  - cbn. intuition congruence.
  - destruct (created_not_before j y); cbn [In]; [intuition congruence|].
    rewrite IH. intuition congruence.
Qed.

Lemma length_insert_desc j l : length (insert_desc j l) = S (length l).
Proof.
  induction l as [|y l IH]; [reflexivity|]. cbn [insert_desc].
  destruct (created_not_before j y); cbn [length]; [reflexivity|]. rewrite IH. reflexivity.
Qed.

Lemma In_order_by l x : In x (order_by_created_at_desc l) <-> In x l.
Proof.
  induction l as [|y l IH]; [reflexivity|].
  unfold order_by_created_at_desc in *. cbn [fold_right].
  rewrite In_insert_desc, IH. cbn [In]. intuition congruence.
Qed.

Lemma length_order_by l : length (order_by_created_at_desc l) = length l.
Proof.
  induction l as [|y l IH]; [reflexivity|].
  unfold order_by_created_at_desc in *. cbn [fold_right].
  rewrite length_insert_desc, IH. reflexivity.
Qed.

Lemma ordered_desc_total a b : created_not_before a b = false -> ordered_desc b a.
Proof.
  unfold ordered_desc, created_not_before.
  destruct (Job.created_at a), (Job.created_at b); try congruence.
  intros H. apply Z.leb_gt in H. apply Z.leb_le. lia.
Qed.

Lemma ordered_desc_trans a b c : ordered_desc a b -> ordered_desc b c -> ordered_desc a c.
Proof.
  unfold ordered_desc, created_not_before.
  destruct (Job.created_at a), (Job.created_at b), (Job.created_at c); try congruence.
  rewrite !Z.leb_le. lia.
Qed.

Lemma insert_desc_sorted j l :
  StronglySorted ordered_desc l -> StronglySorted ordered_desc (insert_desc j l).
Proof.
  induction 1 as [|x l Hs IH Hx]; cbn [insert_desc].
  - constructor; constructor.
  - destruct (created_not_before j x) eqn:E.
    + constructor; [constructor; assumption|].
      constructor; [exact E|].
      eapply List.Forall_impl; [|exact Hx]. intros y Hy.
      exact (ordered_desc_trans _ _ _ E Hy).
    + constructor; [exact IH|].
      apply List.Forall_forall. intros y Hy. apply In_insert_desc in Hy.
      destruct Hy as [->|Hy]; [exact (ordered_desc_total _ _ E)|].
      rewrite List.Forall_forall in Hx. exact (Hx y Hy).
Qed.

Lemma order_by_sorted l : StronglySorted ordered_desc (order_by_created_at_desc l).
Proof.
  induction l as [|y l IH]; [constructor|].
  unfold order_by_created_at_desc in *. cbn [fold_right].
  apply insert_desc_sorted. exact IH.
Qed.

Lemma sorted_skipn {A} (R : A -> A -> Prop) n : forall l,
  StronglySorted R l -> StronglySorted R (skipn n l).
Proof.
  induction n as [|n IH]; intros l H; [exact H|].
  destruct H as [|x l Hs Hx]; [constructor|]. cbn [skipn]. exact (IH l Hs).
Qed.

Lemma In_skipn {A} n (l : list A) x : In x (skipn n l) -> In x l.
Proof.
  intros H. rewrite <- (firstn_skipn n l). apply in_or_app. right. exact H.
Qed.

(** A page of a query. *)
Lemma page_spec query limit offset :
  (0 <= limit)%Z -> (0 <= offset)%Z ->
  (forall j, In j (page query limit offset) -> In j query)
  /\ StronglySorted ordered_desc (page query limit offset)
  /\ Z.of_nat (length (page query limit offset))
     = Z.min limit (Z.max 0 (Z.of_nat (length query) - offset)).
Proof.
  intros Hl Ho. unfold page. split; [|split].
  - intros j Hj. apply In_order_by. apply (In_skipn (Z.to_nat offset)).
    exact (In_firstn _ _ _ Hj).
  - apply sorted_firstn, sorted_skipn, order_by_sorted.
  - rewrite length_firstn, length_skipn, length_order_by. lia.
Qed.

Lemma ordered_desc_newest_first a b : ordered_desc a b -> newest_first a b.
Proof.
  unfold ordered_desc, created_not_before, newest_first. intros H x y Hx Hy.
  rewrite Hx, Hy in H. apply Z.leb_le. exact H.
Qed.

Lemma sorted_newest_first l : StronglySorted ordered_desc l -> StronglySorted newest_first l.
Proof.
  induction 1 as [|a l Hs IH Hall]; constructor; [exact IH|].
  eapply List.Forall_impl; [|exact Hall]. intros b. apply ordered_desc_newest_first.
Qed.

End ListingFacts.

(** X14.  [GET /jobs] with a limit and an offset that are not negative
    answers with a page exactly when both filters are absent, empty or the
    value of a member of their enumeration, in lower case as the members
    have it.  The page then holds rows of the table that pass the filters,
    newest first; [total] counts every row that passes, whatever the page;
    and the page has [limit] rows, or as many as are left after
    [offset]. *)
Theorem list_jobs_page (db : table) (status conversion_type : option string)
    (limit offset : Z) :
  (0 <= limit)%Z -> (0 <= offset)%Z ->
  let matching := List.filter (passes status conversion_type) db in
  (succeeded (list_jobs db status conversion_type limit offset) = true
   <-> valid_filter status_values status
       /\ valid_filter conversion_values conversion_type)
  /\ (forall body,
        list_jobs db status conversion_type limit offset = Return body ->
        exists rows,
          list_jobs_ body = map to_dict rows
          /\ (forall j, In j rows -> In j matching)
          /\ StronglySorted newest_first rows
          /\ list_total body = Z.of_nat (length matching)
          /\ Z.of_nat (length rows)
             = Z.min limit (Z.max 0 (list_total body - offset))).
Proof.
  intros Hl Ho. cbv zeta. unfold list_jobs.
  destruct (apply_filters_spec db status conversion_type) as (Hok & Hret & Herr).
  destruct (apply_filters db status conversion_type) as [query|code detail] eqn:E.
  - destruct (Hret query eq_refl) as [Hv1 Hv2].
    specialize (Hok (conj Hv1 Hv2)). injection Hok as ->.
    rewrite (proj2 (Z.ltb_ge limit 0) Hl), (proj2 (Z.ltb_ge offset 0) Ho).
    split; [split; [intros _; auto|reflexivity]|].
    intros body H. injection H as <-. cbn [list_jobs_ list_total].
    destruct (page_spec (List.filter (passes status conversion_type) db) limit offset Hl Ho)
      as (Hin & Hsorted & Hlen).
    eexists. split; [reflexivity|]. split; [exact Hin|].
    split; [exact (sorted_newest_first _ Hsorted)|]. auto.
  - split; [|discriminate]. split; [discriminate|].
    intros (Hv1 & Hv2). discriminate (Hok (conj Hv1 Hv2)).
Qed.

Lemma list_jobs_page_witness :
  succeeded (list_jobs (jobs docx_pending) (Some "pending"%string) None 10 0) = true
  /\ succeeded (list_jobs (jobs docx_pending) (Some "PENDING"%string) None 10 0) = false.
Proof.
  assert (H10 : (0 <= 10)%Z) by lia. assert (H0 : (0 <= 0)%Z) by lia.
  split.
  - apply (proj1 (list_jobs_page (jobs docx_pending) (Some "pending"%string) None 10 0
                    H10 H0)).
    split; [right; unfold status_values; simpl; tauto|left; reflexivity].
  - destruct (succeeded (list_jobs (jobs docx_pending) (Some "PENDING"%string) None 10 0))
      eqn:E; [|reflexivity].
    apply (proj1 (list_jobs_page (jobs docx_pending) (Some "PENDING"%string) None 10 0
                    H10 H0)) in E.
    destruct E as ([E|E] & _); [discriminate|].
    unfold status_values in E. simpl in E.
    repeat (destruct E as [E|E]; [discriminate|]). contradiction.
Defined.

Section SessionFacts.

(** What a listing of a session holds. *)
Lemma list_session_jobs_rows db cookie fresh status conversion_type limit offset body :
  list_session_jobs db cookie fresh status conversion_type limit offset = Return body ->
  let sid := session_session_id body in
  let mine :=
    List.filter (passes status conversion_type)
      (List.filter (fun j => bool_decide (Job.session_id j = Some sid)) db) in
  (sid, session_set_cookie body) = get_or_create_session_id cookie fresh
  /\ (0 <= limit)%Z /\ (0 <= offset)%Z
  /\ session_jobs body = map to_dict (page mine limit offset)
  /\ session_total body = Z.of_nat (length mine).
Proof.
  unfold list_session_jobs.
  destruct (get_or_create_session_id cookie fresh) as [sid set_cookie].
  set (q0 := List.filter (fun j => bool_decide (Job.session_id j = Some sid)) db).
  destruct (apply_filters_spec q0 status conversion_type) as (Hok & Hret & _).
  destruct (apply_filters q0 status conversion_type) as [query|code detail]; [|discriminate].
  specialize (Hok (Hret query eq_refl)). injection Hok as ->.
  destruct (Z.ltb_spec limit 0) as [|Hl]; [discriminate|].
  destruct (Z.ltb_spec offset 0) as [|Ho]; [discriminate|].
  intros H. injection H as <-. cbv zeta.
  cbn [session_session_id session_set_cookie session_jobs session_total].
  fold q0. auto.
Qed.

End SessionFacts.



(** X16.  An uploaded job is listed for the session that uploaded it and
    for no other.  After an upload that returned success into a table with
    distinct ids, a session listing without filters from offset 0 shows
    the new job whenever the session is the uploader's and the page is
    large enough for the session's jobs, and never shows it to any other
    session. *)
Theorem upload_listed_for_its_session (w : World) (req : UploadRequest) (env : UploadEnv)
    (w' : World) (body : UploadBody) (cookie : option string) (fresh : string)
    (limit : Z) (listing : SessionListBody) :
  NoDup (map Job.id (jobs w)) ->
  upload_file w req env = (w', Return body) ->
  list_session_jobs (jobs w') cookie fresh None None limit 0 = Return listing ->
  (session_session_id listing = up_session_id req ->
   (session_total listing <= limit)%Z ->
   In (body_job_id body) (map dict_id (session_jobs listing)))
  /\ (session_session_id listing <> up_session_id req ->
      ~ In (body_job_id body) (map dict_id (session_jobs listing))).
Proof.
  intros Hnd Hup Hlist.
  destruct (upload_file_Return _ _ _ _ _ Hup)
    as (ct & q & Hname & Hdet & Hsize & Hstore & Hfresh).
  pose proof (upload_file_row w req env ct q Hname Hdet Hsize Hstore Hfresh) as Hrow.
  cbv zeta in Hrow. rewrite Hup in Hrow. cbn [fst] in Hrow.
  pose proof (upload_file_committed w req env ct q Hname Hdet Hsize Hstore Hfresh) as Hc.
  cbv zeta in Hc. rewrite Hup in Hc. injection Hc as Hw' ->. cbn [body_job_id].
  set (job := upload_row req env ct) in *.
  set (ok := (enqueue (env_redis_fault env) (redis w) q (upload_message job)).2) in *.
  set (row := if ok then Job.set_status PENDING job else job) in *.
  assert (Hrow_sid : Job.session_id row = Some (up_session_id req))
    by (unfold row; destruct ok; reflexivity).
  assert (Hrow_id : Job.id row = env_job_id env) by (unfold row; destruct ok; reflexivity).
  assert (Hin : In row (jobs w')) by exact (query_first_In _ _ _ Hrow).
  assert (Hnd' : NoDup (map Job.id (jobs w'))).
  { rewrite Hw'. cbn [jobs].
    assert (Hnew : NoDup (map Job.id (jobs w ++ [job]))).
    { rewrite map_app. apply NoDup_app. split; [exact Hnd|]. split.
      - intros x Hx Hx'. cbn in Hx'. apply list_elem_of_singleton in Hx'. subst x.
        apply list_elem_of_In in Hx. apply in_map_iff in Hx. destruct Hx as (j & Hid & Hj).
        change (Job.id job) with (env_job_id env) in Hid.
        unfold query_first in Hfresh.
        pose proof (find_none _ _ Hfresh j Hj) as Hn. cbn in Hn.
        rewrite Hid, String.eqb_refl in Hn. discriminate.
      - cbn. apply NoDup_singleton. }
    destruct ok; [|exact Hnew].
    clear -Hnew. revert Hnew. generalize (jobs w ++ [job]). intros l.
    induction l as [|x l IH]; [intros; constructor|].
    cbn [update_row map]. intros Hn. destruct (String.eqb (Job.id x) (env_job_id env)).
    - exact Hn.
    - cbn [map]. apply NoDup_cons in Hn. destruct Hn as [Hx Hl].
      apply NoDup_cons. split; [|exact (IH Hl)].
      intros Hin. apply Hx. clear -Hin. apply list_elem_of_In in Hin. apply list_elem_of_In.
      revert Hin. induction l as [|y l IH]; [intros []|]. cbn [update_row map].
      destruct (String.eqb (Job.id y) (env_job_id env)); cbn [map In]; tauto. }
  destruct (list_session_jobs_rows _ _ _ _ _ _ _ _ Hlist) as (_ & Hl & _ & Hjobs & Htotal).
  cbv zeta in Hjobs, Htotal.
  set (sid := session_session_id listing) in *.
  set (mine := List.filter (passes None None)
                 (List.filter (fun j => bool_decide (Job.session_id j = Some sid)) (jobs w')))
    in *.
  split.
  - intros Hsid Hbig. rewrite Hjobs, map_map. apply in_map_iff. exists row.
    split; [exact Hrow_id|].
    unfold page. change (Z.to_nat 0) with 0%nat. rewrite skipn_O.
    rewrite firstn_all2 by (rewrite length_order_by; lia).
    apply In_order_by. unfold mine. apply filter_In. split; [|reflexivity].
    apply filter_In. split; [exact Hin|]. apply bool_decide_eq_true. rewrite Hrow_sid, Hsid.
    reflexivity.
  - intros Hsid Hlisted. rewrite Hjobs, map_map in Hlisted. apply in_map_iff in Hlisted.
    destruct Hlisted as (j & Hid & Hj). cbn in Hid.
    destruct (page_spec mine limit 0 Hl (Z.le_refl 0)) as (Hpage & _).
    apply Hpage in Hj. unfold mine in Hj. apply filter_In in Hj. destruct Hj as [Hj _].
    apply filter_In in Hj. destruct Hj as [Hj Hs]. apply bool_decide_eq_true in Hs.
    assert (Hsame : j = row).
    { pose proof (query_first_NoDup _ _ Hnd' Hj) as Hq. rewrite Hid, Hrow in Hq.
      congruence. }
    subst j. rewrite Hrow_sid in Hs. congruence.
Qed.

Lemma upload_listed_for_its_session_witness :
  In "job-1"%string
    (map dict_id (match list_session_jobs (jobs docx_pending) (Some "session-1"%string)
                          "session-2" None None 10 0 with
                  | Return listing => session_jobs listing
                  | HTTPException _ _ => []
                  end)).
Proof.
  destruct (upload_file empty_world docx_request (docx_env false)) as [w' [body|c d]] eqn:E;
    [|vm_compute in E; discriminate].
  assert (Hw : docx_pending = w') by (unfold docx_pending; rewrite E; reflexivity).
  assert (Hb : body_job_id body = "job-1"%string).
  { vm_compute in E. injection E as _ <-. reflexivity. }
  rewrite Hw, <- Hb.
  destruct (list_session_jobs (jobs w') (Some "session-1"%string) "session-2" None None 10 0)
    as [listing|c d] eqn:L; [|rewrite <- Hw in L; vm_compute in L; discriminate].
  assert (Hnd : NoDup (map Job.id (jobs empty_world))) by constructor.
  apply (proj1 (upload_listed_for_its_session _ _ _ _ _ _ _ _ _ Hnd E L)).
  - rewrite <- Hw in L. vm_compute in L. injection L as <-. reflexivity.
  - rewrite <- Hw in L. vm_compute in L. injection L as <-. cbn. lia.
Defined.

(** ** Download *)

Section StreamFacts.

Lemma read_spec n : forall unread,
  (read n unread).1 +:+ (read n unread).2 = unread
  /\ String.length (read n unread).1 = Nat.min n (String.length unread).
Proof.
  induction n as [|n IH]; intros unread; [split; reflexivity|].
  destruct unread as [|c s]; [split; reflexivity|].
  cbn [read]. destruct (IH s) as [Happ Hlen].
  destruct (read n s) as [chunk rest]. cbn [fst snd] in *.
  split.
  - change (String c (chunk +:+ rest) = String c s). rewrite Happ. reflexivity.
  - cbn [String.length]. rewrite Hlen. reflexivity.
Qed.

Lemma chunk_size_pos : (0 < chunk_size)%nat.
Proof. unfold chunk_size. lia. Qed.

Lemma length_empty s : String.length s = 0%nat -> s = EmptyString.
Proof. destruct s; [reflexivity|discriminate]. Qed.

Lemma generate_loop_spec turns : forall unread,
  (String.length unread < turns)%nat ->
  body_bytes (generate_loop turns unread) = unread
  /\ Forall chunk_ok (generate_loop turns unread).
Proof.
  induction turns as [|turns IH]; intros unread Hlt; [lia|].
  cbn [generate_loop].
  destruct (read_spec chunk_size unread) as [Happ Hlen].
  destruct (read chunk_size unread) as [chunk rest]. cbn [fst snd] in *.
  pose proof chunk_size_pos as Hpos.
  destruct (String.eqb_spec chunk "") as [->|Hne].
  - cbn [String.length] in Hlen.
    assert (String.length unread = 0)%nat by lia.
    rewrite (length_empty unread) by assumption. split; [reflexivity|constructor].
  - assert (Hc : (1 <= String.length chunk)%nat).
    { destruct chunk; [contradiction|cbn [String.length]; lia]. }
    assert (Hrest : (String.length rest < turns)%nat).
    { rewrite <- Happ, JsonFacts.length_append in Hlt. lia. }
    destruct (IH rest Hrest) as [Hb Hf]. cbn [body_bytes fold_right].
    fold (body_bytes (generate_loop turns rest)). rewrite Hb. split; [exact Happ|].
    constructor; [|exact Hf]. unfold chunk_ok. lia.
Qed.

Lemma generate_spec data :
  body_bytes (generate data) = data /\ Forall chunk_ok (generate data).
Proof. apply generate_loop_spec. lia. Qed.

End StreamFacts.

Section OutcomeFacts.

(** What each conversion returns: success with the path of the output and
    no error, or failure with an error and no path. *)
Lemma docx_to_pdf_outcome jid run :
  _docx_to_pdf jid run = (true, Some (converted jid ".pdf"), None)
  \/ exists e, _docx_to_pdf jid run = (false, None, Some e).
Proof.
  unfold _docx_to_pdf, converted.
  destruct (mkdtemp run); [|right; eexists; reflexivity].
  destruct (download_file run) as [[]|]; try (right; eexists; reflexivity).
  destruct (libreoffice run) as [[|returncode stderr]|]; try (right; eexists; reflexivity).
  destruct (negb (returncode =? 0)%Z); [right; eexists; reflexivity|].
  destruct (negb (output_exists run) && bool_decide (pdf_files run = []));
    [right; eexists; reflexivity|].
  destruct (upload_file_ run) as [[]|]; try (right; eexists; reflexivity).
  left. reflexivity.
Qed.

Lemma pdf_to_docx_outcome jid run :
  PdfDocx._pdf_to_docx jid run = (true, Some (converted jid ".docx"), None)
  \/ exists e, PdfDocx._pdf_to_docx jid run = (false, None, Some e).
Proof.
  unfold PdfDocx._pdf_to_docx, converted.
  destruct (PdfDocx.download_to_temp run) as [[]|]; try (right; eexists; reflexivity).
  destruct (PdfDocx.mkstemp run); [|right; eexists; reflexivity].
  destruct (PdfDocx.pdf2docx run); [|right; eexists; reflexivity].
  destruct (PdfDocx.output_nonempty run); [|right; eexists; reflexivity].
  destruct (PdfDocx.upload run) as [[]|]; try (right; eexists; reflexivity).
  left. reflexivity.
Qed.

Lemma pdf_to_image_outcome jid fmt run :
  ImageService._pdf_to_image jid fmt run
  = (true, Some (converted jid (if single_page run then "." +:+ fmt else ".zip")), None)
  \/ exists e, ImageService._pdf_to_image jid fmt run = (false, None, Some e).
Proof.
  unfold ImageService._pdf_to_image, converted, single_page.
  destruct (ImageService.download_to_temp run) as [[]|]; try (right; eexists; reflexivity).
  destruct (ImageService.pages run) as [n|]; [|right; eexists; reflexivity].
  destruct (ImageService.write_files run); [|right; eexists; reflexivity].
  destruct (ImageService.upload run) as [[]|]; try (right; eexists; reflexivity).
  left. destruct (Nat.eqb n 1); reflexivity.
Qed.

Lemma image_to_pdf_outcome jid run :
  ImageService._image_to_pdf jid run = (true, Some (converted jid ".pdf"), None)
  \/ exists e, ImageService._image_to_pdf jid run = (false, None, Some e).
Proof.
  unfold ImageService._image_to_pdf, converted.
  destruct (ImageService.download_to_temp run) as [[]|]; try (right; eexists; reflexivity).
  destruct (ImageService.write_files run); [|right; eexists; reflexivity].
  destruct (ImageService.output_nonempty run); [|right; eexists; reflexivity].
  destruct (ImageService.upload run) as [[]|]; try (right; eexists; reflexivity).
  left. reflexivity.
Qed.

End OutcomeFacts.

Section SuffixFacts.

Lemma substring_skip a : forall k n b,
  substring (String.length a + k) n (a +:+ b) = substring k n b.
Proof.
  induction a as [|c a IH]; intros k n b; [reflexivity|].
  change (String c a +:+ b) with (String c (a +:+ b)).
  cbn [String.length Nat.add substring]. apply IH.
Qed.

Lemma endswith_app a b suffix :
  (String.length suffix <= String.length b)%nat ->
  endswith (a +:+ b) suffix = endswith b suffix.
Proof.
  intros H. unfold endswith. rewrite JsonFacts.length_append.
  rewrite (proj2 (Nat.leb_le _ _)) by lia. rewrite (proj2 (Nat.leb_le _ _)) by exact H.
  replace (String.length a + String.length b - String.length suffix)%nat
    with (String.length a + (String.length b - String.length suffix))%nat by lia.
  rewrite substring_skip. reflexivity.
Qed.

(** A path under [converted/] ends as its extension does. *)
Lemma endswith_converted jid ext suffix :
  (String.length suffix <= String.length ext)%nat ->
  endswith (converted jid ext) suffix = endswith ext suffix.
Proof.
  intros H. unfold converted.
  rewrite endswith_app by (rewrite JsonFacts.length_append; lia).
  apply endswith_app. exact H.
Qed.

Lemma truthy_converted jid ext : truthy (Some (converted jid ext)) = true.
Proof. reflexivity. Qed.

End SuffixFacts.

(** X17.  [GET /download] serves the stored output of a COMPLETED job and
    nothing else.  When it answers with a stream, the row of the job is
    COMPLETED, carries a non-empty output path, the object store holds an
    object under that path, and the chunks streamed, each of 1 to 8192
    bytes, add up to exactly that object.  A job in any other status,
    CANCELLED and FAILED included, is refused with 400 whatever the store
    holds; an unknown id, a row without output path and a path without
    object are answered with 404. *)
Theorem download_serves_stored_output (db : table) (s : Storage.store) (c : Storage.client)
    (jid : string) :
  (forall dl,
      download db s c jid = Return dl ->
      exists job out data,
        query_first db jid = Some job
        /\ Job.status job = COMPLETED
        /\ Job.output_path job = Some out /\ out <> ""%string
        /\ c = Storage.Answers /\ s !! out = Some data
        /\ body_bytes (chunks dl) = data
        /\ Forall chunk_ok (chunks dl))
  /\ (forall job,
        query_first db jid = Some job -> Job.status job <> COMPLETED ->
        download db s c jid
        = HTTPException 400 ("Job not completed. Current status: "
                             +:+ JobStatus_value (Job.status job)))
  /\ (query_first db jid = None ->
      download db s c jid = HTTPException 404 "Job not found")
  /\ (forall job,
        query_first db jid = Some job -> Job.status job = COMPLETED ->
        truthy (Job.output_path job) = false ->
        download db s c jid = HTTPException 404 "Output file not found")
  /\ (forall job out,
        query_first db jid = Some job -> Job.status job = COMPLETED ->
        Job.output_path job = Some out -> out <> ""%string ->
        c <> Storage.Answers \/ s !! out = None ->
        succeeded (download db s c jid) = false).
Proof.
  unfold download. split; [|split; [|split; [|split]]].
  - intros dl H. destruct (query_first db jid) as [job|]; [|discriminate].
    destruct (bool_decide (Job.status job = COMPLETED)) eqn:Hs; [|discriminate].
    apply bool_decide_eq_true in Hs. cbn [negb] in H.
    destruct (Job.output_path job) as [out|] eqn:Ho; [|discriminate].
    cbn [truthy default from_option id] in H.
    destruct (String.eqb_spec out "") as [|Hne]; cbn [negb] in H; [discriminate|].
    destruct c as [| |e]; cbn [Storage.get_object] in H; try discriminate.
    destruct (s !! out) as [data|] eqn:Hd; [|discriminate].
    destruct (output_name job) as [name type]. injection H as <-. cbn [chunks].
    destruct (generate_spec data) as [Hb Hf].
    exists job, out, data. repeat split; assumption.
  - intros job -> Hs. rewrite bool_decide_eq_false_2 by exact Hs. reflexivity.
  - intros ->. reflexivity.
  - intros job -> Hs Ho. rewrite bool_decide_eq_true_2 by exact Hs. rewrite Ho. reflexivity.
  - intros job out -> Hs Ho Hne Hmiss. rewrite bool_decide_eq_true_2 by exact Hs.
    rewrite Ho. cbn [truthy default from_option id].
    destruct (String.eqb_spec out "") as [|_]; [contradiction|]. cbn [negb].
    destruct c as [| |e]; cbn [Storage.get_object]; try reflexivity.
    destruct Hmiss as [Hc|Hd]; [contradiction|]. rewrite Hd. reflexivity.
Qed.

Section SplitextFacts.

Lemma rfind_from_absent c s : forall i, occurs c s = false -> rfind_from c s i = (-1)%Z.
Proof.
  induction s as [|x s IH]; intros i H; [reflexivity|].
  cbn [occurs] in H. apply orb_false_iff in H. destruct H as [Hx Hs].
  cbn [rfind_from]. rewrite (IH (i + 1)%Z Hs), Hx. reflexivity.
Qed.

Lemma rfind_from_last c a t : forall i,
  (0 <= i)%Z -> occurs c t = false ->
  rfind_from c (a +:+ String c t) i = (i + Z.of_nat (String.length a))%Z.
Proof.
  induction a as [|x a IH]; intros i Hi Ht.
  - change (EmptyString +:+ String c t) with (String c t). cbn [rfind_from String.length].
    rewrite (rfind_from_absent c t _ Ht), Ascii.eqb_refl. cbn. lia.
  - change (String x a +:+ String c t) with (String x (a +:+ String c t)).
    cbn [rfind_from]. rewrite (IH (i + 1)%Z) by (lia || exact Ht).
    rewrite (proj2 (Z.leb_le _ _)) by lia. cbn [String.length]. lia.
Qed.

Lemma occurs_app c a b : occurs c (a +:+ b) = occurs c a || occurs c b.
Proof.
  induction a as [|x a IH]; [reflexivity|].
  change (String x a +:+ b) with (String x (a +:+ b)). cbn [occurs]. rewrite IH.
  apply orb_assoc.
Qed.

Lemma substring_prefix a : forall b, substring 0 (String.length a) (a +:+ b) = a.
Proof.
  induction a as [|x a IH]; intros b.
  - cbn [String.length]. destruct (EmptyString +:+ b); reflexivity.
  - change (String x a +:+ b) with (String x (a +:+ b)).
    cbn [String.length substring]. rewrite IH. reflexivity.
Qed.

Lemma substring_all b : substring 0 (String.length b) b = b.
Proof.
  induction b as [|x b IH]; [reflexivity|]. cbn [String.length substring].
  rewrite IH. reflexivity.
Qed.

(** The loop over a name finds a character that is not a dot exactly when
    there is one. *)
Lemma name_before_dot_spec s : forall pre rest,
  name_before_dot (pre +:+ s +:+ rest) (String.length pre) (String.length s)
  = negb (all_dots s).
Proof.
  induction s as [|x s IH]; intros pre rest; [reflexivity|].
  cbn [String.length name_before_dot all_dots].
  change (String x s +:+ rest) with (String x (s +:+ rest)).
  rewrite <- (Nat.add_0_r (String.length pre)) at 1.
  rewrite substring_skip. cbn [substring].
  assert (E : substring 0 0 (s +:+ rest) = EmptyString) by (destruct (s +:+ rest); reflexivity).
  rewrite E.
  destruct (Ascii.eqb_spec x ".") as [->|Hx].
  - change (String.eqb (String "." EmptyString) ".") with true. cbn [negb andb].
    replace (pre +:+ String "." (s +:+ rest))
      with ((pre +:+ String "." EmptyString) +:+ s +:+ rest)
      by (rewrite JsonFacts.append_assoc; reflexivity).
    replace (S (String.length pre)) with (String.length (pre +:+ String "." EmptyString))
      by (rewrite JsonFacts.length_append; cbn [String.length]; lia).
    apply IH.
  - assert (Hne : String.eqb (String x EmptyString) "." = false).
    { destruct (String.eqb_spec (String x EmptyString) ".") as [H|_]; [|reflexivity].
      injection H as H. contradiction. }
    rewrite Hne. reflexivity.
Qed.

(** [splitext] on a plain file name gives the stem and the extension. *)
Lemma splitext_plain stem ext :
  plain_name stem ext ->
  splitext (stem +:+ "." +:+ ext) = (stem, "." +:+ ext).
Proof.
  intros (Hs1 & Hs2 & He1 & He2). unfold splitext, rfind.
  change (stem +:+ "." +:+ ext) with (stem +:+ String "." ext).
  rewrite (rfind_from_last "." stem ext 0) by (lia || exact He2).
  rewrite (rfind_from_absent "/" (stem +:+ String "." ext))
    by (rewrite occurs_app; cbn [occurs]; rewrite Hs1, He1; reflexivity).
  cbv zeta. rewrite (proj2 (Z.ltb_lt _ _)) by lia.
  replace (Z.to_nat (-1 + 1)) with (String.length EmptyString) by reflexivity.
  replace (Z.to_nat (0 + Z.of_nat (String.length stem) - (-1 + 1)))
    with (String.length stem) by lia.
  change (stem +:+ String "." ext) with (EmptyString +:+ stem +:+ String "." ext) at 1.
  rewrite name_before_dot_spec, Hs2. cbn [negb andb].
  replace (Z.to_nat (0 + Z.of_nat (String.length stem))) with (String.length stem) by lia.
  rewrite substring_prefix.
  rewrite <- (Nat.add_0_r (String.length stem)) at 1.
  rewrite substring_skip, JsonFacts.length_append.
  replace (String.length stem + String.length (String "." ext) - String.length stem)%nat
    with (String.length (String "." ext)) by lia.
  rewrite substring_all. reflexivity.
Qed.

End SplitextFacts.

Section OutputNameFacts.

(** The name and type of a download whose output is not an archive. *)
Lemma output_name_plain job ext content_type :
  output_map (Job.conversion_type job) = Some (ext, content_type) ->
  (forall out, Job.output_path job = Some out -> endswith out ".zip" = false) ->
  output_name job = ((splitext (Job.filename job)).1 +:+ ext, content_type).
Proof.
  intros Hmap Hzip. unfold output_name.
  destruct (Job.output_path job) as [out|].
  - cbn [default from_option id]. rewrite (Hzip out eq_refl), andb_false_r, Hmap. reflexivity.
  - cbn [truthy andb]. rewrite Hmap. reflexivity.
Qed.

Lemma output_name_zip job jid :
  Job.output_path job = Some (converted jid ".zip") ->
  output_name job
  = ((splitext (Job.filename job)).1 +:+ "_pages.zip", "application/zip"%string).
Proof.
  intros Ho. unfold output_name. rewrite Ho. cbn [default from_option id].
  rewrite truthy_converted, endswith_converted by (cbn; lia). reflexivity.
Qed.

End OutputNameFacts.

(** X18.  The name and the media type of a download follow what the worker
    stored.  For a job whose output path is the one a successful conversion
    of its service returned: a DOCX-to-PDF and an image-to-PDF job are
    served as [.pdf] with type application/pdf, a PDF-to-DOCX job as
    [.docx]; a PDF-to-image job of one page as [.jpg] or [.png] with the
    image type, and one of several pages, which the worker stores as an
    archive, as [_pages.zip] with type application/zip.  The fallback type
    application/octet-stream is never used. *)
Theorem download_name_follows_conversion (job : Job.t) :
  let base_name := (splitext (Job.filename job)).1 in
  (forall run err,
      _docx_to_pdf (Job.id job) run = (true, Job.output_path job, err) ->
      Job.conversion_type job = DOCX_TO_PDF ->
      output_name job = (base_name +:+ ".pdf", "application/pdf"%string))
  /\ (forall run err,
        PdfDocx._pdf_to_docx (Job.id job) run = (true, Job.output_path job, err) ->
        Job.conversion_type job = PDF_TO_DOCX ->
        output_name job
        = (base_name +:+ ".docx",
           "application/vnd.openxmlformats-officedocument.wordprocessingml.document"%string))
  /\ (forall run m w w' err,
        ImageService.conversion_ run m w = (Ok (true, Job.output_path job, err), w') ->
        job_id m = Job.id job ->
        conversion_type m = ConversionType_value (Job.conversion_type job) ->
        output_name job
        = match Job.conversion_type job with
          | PDF_TO_JPG =>
              if single_page run then (base_name +:+ ".jpg", "image/jpeg"%string)
              else (base_name +:+ "_pages.zip", "application/zip"%string)
          | PDF_TO_PNG =>
              if single_page run then (base_name +:+ ".png", "image/png"%string)
              else (base_name +:+ "_pages.zip", "application/zip"%string)
          | _ => (base_name +:+ ".pdf", "application/pdf"%string)
          end)
  /\ (output_name job).2 <> "application/octet-stream"%string.
Proof.
  cbv zeta. split; [|split; [|split]].
  - intros run err H Hct.
    destruct (docx_to_pdf_outcome (Job.id job) run) as [E|[e E]];
      rewrite E in H; [|discriminate].
    injection H as H _. apply output_name_plain; [rewrite Hct; reflexivity|].
    intros out Ho. rewrite <- H in Ho. injection Ho as <-.
    rewrite endswith_converted by (vm_compute; lia). reflexivity.
  - intros run err H Hct.
    destruct (pdf_to_docx_outcome (Job.id job) run) as [E|[e E]];
      rewrite E in H; [|discriminate].
    injection H as H _. apply output_name_plain; [rewrite Hct; reflexivity|].
    intros out Ho. rewrite <- H in Ho. injection Ho as <-.
    rewrite endswith_converted by (vm_compute; lia). reflexivity.
  - intros run m w w' err H Hid Hm. unfold ImageService.conversion_ in H.
    rewrite Hm, Hid in H. injection H as H _.
    destruct (Job.conversion_type job) eqn:Hct; cbn in H; try discriminate.
    + destruct (pdf_to_image_outcome (Job.id job) "jpg" run) as [E|[e E]];
        rewrite E in H; [|discriminate].
      injection H as H _. destruct (single_page run).
      * apply output_name_plain; [rewrite Hct; reflexivity|].
        intros out Ho. rewrite <- H in Ho. injection Ho as <-.
        rewrite endswith_converted by (vm_compute; lia). reflexivity.
      * apply (output_name_zip job (Job.id job)). symmetry. exact H.
    + destruct (pdf_to_image_outcome (Job.id job) "png" run) as [E|[e E]];
        rewrite E in H; [|discriminate].
      injection H as H _. destruct (single_page run).
      * apply output_name_plain; [rewrite Hct; reflexivity|].
        intros out Ho. rewrite <- H in Ho. injection Ho as <-.
        rewrite endswith_converted by (vm_compute; lia). reflexivity.
      * apply (output_name_zip job (Job.id job)). symmetry. exact H.
    + destruct (image_to_pdf_outcome (Job.id job) run) as [E|[e E]];
        rewrite E in H; [|discriminate].
      injection H as H _. apply output_name_plain; [rewrite Hct; reflexivity|].
      intros out Ho. rewrite <- H in Ho. injection Ho as <-.
      rewrite endswith_converted by (vm_compute; lia). reflexivity.
    + destruct (image_to_pdf_outcome (Job.id job) run) as [E|[e E]];
        rewrite E in H; [|discriminate].
      injection H as H _. apply output_name_plain; [rewrite Hct; reflexivity|].
      intros out Ho. rewrite <- H in Ho. injection Ho as <-.
      rewrite endswith_converted by (vm_compute; lia). reflexivity.
  - unfold output_name.
    destruct (truthy (Job.output_path job) && endswith _ ".zip"); [discriminate|].
    destruct (Job.conversion_type job); discriminate.
Qed.

(** X19.  A download is named after the upload.  For a job whose file name
    is a plain one, a stem, a dot and an extension without slashes, the
    base name of the download is the stem, whatever the case of the
    extension: with an output that is no archive the file is named stem
    and the extension of the conversion, [report.docx] becoming
    [report.pdf], and the header offers it as an attachment under that
    name. *)
Theorem download_named_after_upload (job : Job.t) (stem ext : string)
    (new_ext content_type : string) :
  Job.filename job = stem +:+ "." +:+ ext ->
  plain_name stem ext ->
  output_map (Job.conversion_type job) = Some (new_ext, content_type) ->
  (forall out, Job.output_path job = Some out -> endswith out ".zip" = false) ->
  output_name job = (stem +:+ new_ext, content_type)
  /\ forall db s jid dl,
       query_first db jid = Some job ->
       download db s Storage.Answers jid = Return dl ->
       content_disposition dl = "attachment; filename=" +:+ stem +:+ new_ext
       /\ media_type dl = content_type.
Proof.
  intros Hname Hplain Hmap Hzip.
  assert (Hn : output_name job = (stem +:+ new_ext, content_type)).
  { rewrite (output_name_plain job new_ext content_type Hmap Hzip), Hname.
    rewrite (splitext_plain stem ext Hplain). reflexivity. }
  split; [exact Hn|].
  intros db s jid dl Hq H. unfold download in H. rewrite Hq in H.
  destruct (negb (bool_decide (Job.status job = COMPLETED))); [discriminate|].
  destruct (negb (truthy (Job.output_path job))); [discriminate|].
  destruct (Storage.get_object _ _ _) as [[data|]|]; try discriminate.
  rewrite Hn in H. injection H as <-. split; reflexivity.
Qed.

Lemma download_named_after_upload_witness :
  (output_name (Job.set_output_path (Some (converted "job-1" ".pdf"))
                  (upload_row docx_request (docx_env false) DOCX_TO_PDF)))
  = ("report.pdf"%string, "application/pdf"%string).
Proof.
  refine (proj1 (download_named_after_upload _ "report" "docx" ".pdf" "application/pdf"
                   _ _ _ _)).
  - reflexivity.
  - repeat split; reflexivity.
  - reflexivity.
  - intros out H. injection H as <-. vm_compute. reflexivity.
Defined.

(** ** Clean-up *)

Section CleanupFacts.

Variable env : CleanupEnv.

Lemma expired_terminal j : expired env j = true -> terminal (Job.status j) = true.
Proof.
  unfold expired. destruct (Job.created_at j); [|discriminate].
  destruct (Job.status j); cbn; rewrite ?andb_false_r; try discriminate; reflexivity.
Qed.

Lemma In_delete_row db jid j : In j (delete_row db jid) <-> In j db /\ Job.id j <> jid.
Proof.
  unfold delete_row. rewrite filter_In. split; intros [H1 H2]; split; try exact H1.
  - intros E. rewrite E, String.eqb_refl in H2. discriminate.
  - destruct (String.eqb_spec (Job.id j) jid); [contradiction|reflexivity].
Qed.

Lemma NoDup_ids_filter (f : Job.t -> bool) db :
  NoDup (map Job.id db) -> NoDup (map Job.id (List.filter f db)).
Proof.
  induction db as [|x db IH]; [intros; constructor|].
  cbn [map List.filter]. intros Hnd. apply NoDup_cons in Hnd. destruct Hnd as [Hx Hnd].
  destruct (f x); [|exact (IH Hnd)].
  cbn [map]. apply NoDup_cons. split; [|exact (IH Hnd)].
  intros Hin. apply Hx. apply list_elem_of_In in Hin. apply list_elem_of_In.
  apply in_map_iff in Hin. destruct Hin as (j & Hid & Hj). apply filter_In in Hj.
  apply in_map_iff. exists j. tauto.
Qed.

(** With a primary key, [db.delete] takes one row away. *)
Lemma length_delete_row db j :
  NoDup (map Job.id db) -> In j db ->
  S (length (delete_row db (Job.id j))) = length db.
Proof.
  unfold delete_row. induction db as [|x db IH]; [intros _ []|].
  cbn [map]. intros Hnd Hin. apply NoDup_cons in Hnd. destruct Hnd as [Hx Hnd].
  cbn [List.filter length].
  destruct (String.eqb_spec (Job.id x) (Job.id j)) as [E|E]; cbn [negb length].
  - f_equal. rewrite forallb_filter_id; [reflexivity|].
    apply forallb_forall. intros y Hy.
    destruct (String.eqb_spec (Job.id y) (Job.id j)) as [E'|_]; [|reflexivity].
    exfalso. apply Hx. rewrite E, <- E'. apply list_elem_of_In. apply in_map. exact Hy.
  - f_equal. apply IH; [exact Hnd|]. destruct Hin as [->|Hin]; [contradiction|exact Hin].
Qed.

(** A turn of the loop deletes the row of its job, or nothing. *)
Lemma cleanup_one_table db s n job db1 s1 n1 :
  cleanup_one env (db, s, n) job = (db1, s1, n1) ->
  (db1 = db /\ n1 = n) \/ (db1 = delete_row db (Job.id job) /\ n1 = (n + 1)%Z).
Proof.
  unfold cleanup_one.
  destruct (if negb (String.eqb (Job.file_path job) "") then _ else _) as [s1' [b1|e1]];
    [|intros H; injection H as <- _ <-; left; auto].
  destruct (if truthy (Job.output_path job) then _ else _) as [s2 [b2|e2]];
    intros H; injection H as <- _ <-; [right; auto|left; auto].
Qed.

Lemma cleanup_fold_table l : forall db s n db' s' n',
  NoDup (map Job.id db) -> NoDup (map Job.id l) -> (forall j, In j l -> In j db) ->
  fold_left (cleanup_one env) l (db, s, n) = (db', s', n') ->
  (forall j, In j db' -> In j db)
  /\ (forall j, In j db -> ~ In (Job.id j) (map Job.id l) -> In j db')
  /\ (n' - n = Z.of_nat (length db) - Z.of_nat (length db'))%Z.
Proof.
  induction l as [|job l IH]; intros db s n db' s' n' Hdb Hl Hin Hfold.
  - cbn [fold_left] in Hfold. injection Hfold as <- _ <-.
    split; [auto|]. split; [auto|lia].
  - cbn [fold_left map] in *. apply NoDup_cons in Hl. destruct Hl as [Hjob Hl].
    destruct (cleanup_one env (db, s, n) job) as [[db1 s1] n1] eqn:E1.
    pose proof (cleanup_one_table _ _ _ _ _ _ _ E1) as Hone.
    assert (Hdb1 : NoDup (map Job.id db1)).
    { destruct Hone as [[-> _]|[-> _]]; [exact Hdb|]. apply NoDup_ids_filter. exact Hdb. }
    assert (Hin1 : forall j, In j l -> In j db1).
    { intros j Hj. destruct Hone as [[-> _]|[-> _]]; [apply Hin; right; exact Hj|].
      apply In_delete_row. split; [apply Hin; right; exact Hj|].
      intros E. apply Hjob. rewrite <- E. apply list_elem_of_In. apply in_map. exact Hj. }
    destruct (IH db1 s1 n1 db' s' n' Hdb1 Hl Hin1 Hfold) as (H1 & H2 & H3).
    split; [|split].
    + intros j Hj. specialize (H1 j Hj).
      destruct Hone as [[-> _]|[-> _]]; [exact H1|]. apply In_delete_row in H1. tauto.
    + intros j Hj Hno. apply H2.
      * destruct Hone as [[-> _]|[-> _]]; [exact Hj|]. apply In_delete_row.
        split; [exact Hj|]. intros E. apply Hno. left. symmetry. exact E.
      * intros Hc. apply Hno. right. exact Hc.
    + destruct Hone as [[-> ->]|[-> ->]]; [exact H3|].
      pose proof (length_delete_row db job Hdb (Hin job (or_introl eq_refl))). lia.
Qed.

(** When the store can be reached, a turn deletes the objects it is served
    for and the row. *)
Lemma cleanup_one_reachable db s n job :
  reachable env ->
  cleanup_one env (db, s, n) job
  = (delete_row db (Job.id job), purge env (job_objects job) s, (n + 1)%Z).
Proof.
  intros Hr. unfold cleanup_one, job_objects, purge, served.
  assert (Hdel : forall s0 name,
            Storage.delete_object (storage_client env name) s0 name
            = (if match storage_client env name with Storage.Answers => true | _ => false end
               then delete name s0 else s0,
               Returns (match storage_client env name with
                        | Storage.Answers => true | _ => false end))).
  { intros s0 name. pose proof (Hr name) as Hn.
    destruct (storage_client env name) as [| |e]; cbn; try reflexivity.
    exfalso. exact (Hn e eq_refl). }
  destruct (String.eqb (Job.file_path job) ""); cbn [negb app];
    destruct (truthy (Job.output_path job)); cbn [fold_left app];
    rewrite ?Hdel; reflexivity.
Qed.

Lemma cleanup_fold_reachable l : forall db s n,
  reachable env ->
  fold_left (cleanup_one env) l (db, s, n)
  = (fold_left (fun db j => delete_row db (Job.id j)) l db,
     purge env (flat_map job_objects l) s,
     (n + Z.of_nat (length l))%Z).
Proof.
  induction l as [|job l IH]; intros db s n Hr.
  - cbn. f_equal. lia.
  - cbn [fold_left flat_map length]. rewrite (cleanup_one_reachable db s n job Hr), IH by exact Hr.
    unfold purge. rewrite fold_left_app. f_equal. lia.
Qed.

Lemma delete_rows_spec l : forall db,
  fold_left (fun db j => delete_row db (Job.id j)) l db
  = List.filter (fun x => negb (existsb (fun j => String.eqb (Job.id x) (Job.id j)) l)) db.
Proof.
  induction l as [|job l IH]; intros db.
  - cbn. rewrite filter_true. reflexivity.
  - cbn [fold_left existsb]. rewrite IH. unfold delete_row. rewrite filter_filter.
    apply List.filter_ext. intros x. destruct (String.eqb (Job.id x) (Job.id job)); reflexivity.
Qed.

Lemma purge_lookup names : forall s name,
  purge env names s !! name
  = if existsb (fun p => String.eqb p name && served env p) names then None else s !! name.
Proof.
  unfold purge. induction names as [|p names IH]; intros s name; [reflexivity|].
  cbn [fold_left existsb]. rewrite IH.
  destruct (existsb (fun p0 => String.eqb p0 name && served env p0) names);
    [rewrite orb_true_r; reflexivity|]. rewrite orb_false_r.
  destruct (served env p); [|rewrite andb_false_r; reflexivity]. rewrite andb_true_r.
  destruct (String.eqb_spec p name) as [->|Hne].
  - apply lookup_delete_eq.
  - apply lookup_delete_ne. exact Hne.
Qed.

End CleanupFacts.

(** The clean-up keeps every row that is not expired. *)
Lemma cleanup_keeps_unexpired (db : table) (s : Storage.store) env j :
  NoDup (map Job.id db) -> In j db -> expired env j = false ->
  In j (cleanup_expired_jobs db s env).1.1.
Proof.
  intros Hnd Hj He. unfold cleanup_expired_jobs.
  destruct (fold_left (cleanup_one env) (List.filter (expired env) db) (db, s, 0%Z))
    as [[db' s'] n'] eqn:E.
  destruct (cleanup_fold_table env (List.filter (expired env) db) db s 0%Z db' s' n' Hnd
              (NoDup_ids_filter _ _ Hnd)
              (fun j Hj => proj1 (proj1 (filter_In _ _ _) Hj)) E) as (_ & H2 & _).
  cbn [fst]. apply H2; [exact Hj|]. intros Hin. apply in_map_iff in Hin.
  destruct Hin as (x & Hid & Hx). apply filter_In in Hx. destruct Hx as [Hx Hxe].
  assert (x = j).
  { pose proof (query_first_NoDup _ _ Hnd Hx) as Q1.
    pose proof (query_first_NoDup _ _ Hnd Hj) as Q2. rewrite Hid in Q1. congruence. }
  subst x. congruence.
Qed.

(** X20.  The clean-up only ever deletes expired terminal jobs.  On a table
    with distinct ids, whatever the object store does, every row left is a
    row of the table unchanged; every row that is not expired is kept, in
    particular every job that is UPLOADED, PENDING or PROCESSING and every
    job without creation time; and [cleaned_jobs] is the number of rows
    that are gone. *)
Theorem cleanup_keeps_live_jobs (db : table) (s : Storage.store) (env : CleanupEnv) :
  NoDup (map Job.id db) ->
  let '(db', _, resp) := cleanup_expired_jobs db s env in
  (forall j, In j db' -> In j db)
  /\ (forall j, In j db -> expired env j = false -> In j db')
  /\ (forall j, In j db -> terminal (Job.status j) = false -> In j db')
  /\ (forall j, In j db -> Job.created_at j = None -> In j db')
  /\ exists body,
       resp = Return body
       /\ cleaned_jobs body = (Z.of_nat (length db) - Z.of_nat (length db'))%Z.
Proof.
  intros Hnd.
  pose proof (fun j => cleanup_keeps_unexpired db s env j Hnd) as Hkeep.
  unfold cleanup_expired_jobs in *.
  destruct (fold_left (cleanup_one env) (List.filter (expired env) db) (db, s, 0%Z))
    as [[db' s'] n'] eqn:E.
  destruct (cleanup_fold_table env (List.filter (expired env) db) db s 0%Z db' s' n' Hnd
              (NoDup_ids_filter _ _ Hnd)
              (fun j Hj => proj1 (proj1 (filter_In _ _ _) Hj)) E) as (H1 & _ & H3).
  cbn [fst] in Hkeep.
  split; [exact H1|]. split; [exact Hkeep|]. split; [|split].
  - intros j Hj Ht. apply Hkeep; [exact Hj|].
    destruct (expired env j) eqn:Ee; [|reflexivity].
    apply expired_terminal in Ee. congruence.
  - intros j Hj Hc. apply Hkeep; [exact Hj|]. unfold expired. rewrite Hc. reflexivity.
  - eexists. split; [reflexivity|]. cbn [cleaned_jobs]. lia.
Qed.

Lemma cleanup_keeps_live_jobs_witness :
  map Job.id (cleanup_expired_jobs old_table old_store (cleanup_env Storage.Answers)).1.1
  = ["job-queued"; "job-fresh"]%string
  /\ In (aged "job-queued" PENDING 0 None)
       (cleanup_expired_jobs old_table old_store (cleanup_env Storage.Answers)).1.1.
Proof.
  assert (Hnd : NoDup (map Job.id old_table)).
  { vm_compute. repeat (apply NoDup_cons; split; [intros H; repeat (apply elem_of_cons in H; destruct H as [H|H]; [discriminate|]); inversion H|]). constructor. }
  pose proof (cleanup_keeps_live_jobs old_table old_store (cleanup_env Storage.Answers) Hnd)
    as H.
  destruct (cleanup_expired_jobs old_table old_store (cleanup_env Storage.Answers))
    as [[db' s'] resp] eqn:E.
  destruct H as (_ & _ & Hlive & _).
  cbn [fst]. split.
  - apply (f_equal (fun x => map Job.id x.1.1)) in E. cbn [fst] in E. rewrite <- E.
    vm_compute. reflexivity.
  - apply Hlive; [right; left; reflexivity|reflexivity].
Defined.

(** X21.  When the object store can be reached, the clean-up removes
    exactly the expired jobs: COMPLETED and CANCELLED jobs created more than
    [expiry_hours] before the first reading of the clock, and FAILED jobs
    created more than [failed_expiry_hours] before the second.  What is left
    of a table with distinct ids is the table without these rows, in its
    order; [cleaned_jobs] is their number; and a second clean-up under the
    same clock finds nothing to delete. *)
Theorem cleanup_removes_expired (db : table) (s : Storage.store) (env : CleanupEnv) :
  NoDup (map Job.id db) ->
  reachable env ->
  let '(db', s', resp) := cleanup_expired_jobs db s env in
  db' = List.filter (fun j => negb (expired env j)) db
  /\ (exists body,
        resp = Return body
        /\ cleaned_jobs body = Z.of_nat (length (List.filter (expired env) db))
        /\ (cleaned_jobs body + Z.of_nat (length db') = Z.of_nat (length db))%Z)
  /\ (exists body,
        cleanup_expired_jobs db' s' env = (db', s', Return body)
        /\ cleaned_jobs body = 0%Z).
Proof.
  intros Hnd Hr. unfold cleanup_expired_jobs.
  rewrite (cleanup_fold_reachable env _ db s 0%Z Hr), delete_rows_spec.
  assert (Hf : List.filter
                 (fun x => negb (existsb (fun j => String.eqb (Job.id x) (Job.id j))
                                   (List.filter (expired env) db))) db
               = List.filter (fun j => negb (expired env j)) db).
  { apply List.filter_ext_in. intros x Hx. f_equal.
    destruct (expired env x) eqn:Ex.
    - apply existsb_exists. exists x. split; [|apply String.eqb_refl].
      apply filter_In. auto.
    - destruct (existsb _ _) eqn:Eb; [|reflexivity]. exfalso.
      apply existsb_exists in Eb. destruct Eb as (j & Hj & Hid).
      apply filter_In in Hj. destruct Hj as [Hj Hje]. apply String.eqb_eq in Hid.
      assert (j = x).
      { pose proof (query_first_NoDup _ _ Hnd Hj) as Q1.
        pose proof (query_first_NoDup _ _ Hnd Hx) as Q2. rewrite <- Hid in Q1. congruence. }
      subst j. congruence. }
  rewrite Hf.
  assert (Hnone : List.filter (expired env) (List.filter (fun j => negb (expired env j)) db)
                  = []).
  { rewrite filter_filter. clear. induction db as [|x db IH]; [reflexivity|].
    cbn [List.filter]. destruct (expired env x); cbn; exact IH. }
  split; [reflexivity|]. split.
  - eexists. split; [reflexivity|]. cbn [cleaned_jobs]. split; [lia|].
    pose proof (List.filter_length (expired env) db). lia.
  - rewrite Hnone. cbn [fold_left]. eexists. split; reflexivity.
Qed.

Lemma cleanup_removes_expired_witness :
  ((fun r => match r with
             | Return body => cleaned_jobs body
             | HTTPException _ _ => (-1)%Z
             end)
     (cleanup_expired_jobs old_table old_store (cleanup_env Storage.S3Error)).2) = 2%Z.
Proof.
  assert (Hnd : NoDup (map Job.id old_table)).
  { vm_compute. repeat (apply NoDup_cons; split; [intros H; repeat (apply elem_of_cons in H; destruct H as [H|H]; [discriminate|]); inversion H|]). constructor. }
  assert (Hr : reachable (cleanup_env Storage.S3Error)) by (intros name e; discriminate).
  pose proof (cleanup_removes_expired old_table old_store (cleanup_env Storage.S3Error)
                Hnd Hr) as H.
  destruct (cleanup_expired_jobs old_table old_store (cleanup_env Storage.S3Error))
    as [[db' s'] resp].
  destruct H as (_ & (body & -> & Hn & _) & _). cbn [snd]. rewrite Hn.
  vm_compute. reflexivity.
Defined.

(** X22.  What the clean-up does to the object store, when the store can
    be reached.  The input and the output of every expired job are gone
    where the store served the deletion; every object the store refused to
    delete with an [S3Error] is still there although the row of its job is
    deleted, so nothing in the table points to it any more; and no object
    is touched that is not the input or output of an expired job. *)
Theorem cleanup_objects (db : table) (s : Storage.store) (env : CleanupEnv) :
  reachable env ->
  let '(_, s', _) := cleanup_expired_jobs db s env in
  (forall j name,
      In j db -> expired env j = true -> In name (job_objects j) ->
      served env name = true -> s' !! name = None)
  /\ (forall name, served env name = false -> s' !! name = s !! name)
  /\ (forall name,
        (forall j, In j db -> expired env j = true -> ~ In name (job_objects j)) ->
        s' !! name = s !! name).
Proof.
  intros Hr. unfold cleanup_expired_jobs.
  rewrite (cleanup_fold_reachable env _ db s 0%Z Hr).
  split; [|split].
  - intros j name Hj He Hn Hs. rewrite purge_lookup.
    rewrite (proj2 (existsb_exists _ _)); [reflexivity|].
    exists name. split; [|rewrite String.eqb_refl, Hs; reflexivity].
    apply in_flat_map. exists j. split; [apply filter_In; auto|exact Hn].
  - intros name Hs. rewrite purge_lookup.
    destruct (existsb _ _) eqn:Eb; [|reflexivity]. exfalso.
    apply existsb_exists in Eb. destruct Eb as (p & _ & Hp).
    apply andb_true_iff in Hp. destruct Hp as [Hp1 Hp2]. apply String.eqb_eq in Hp1.
    subst p. congruence.
  - intros name Hno. rewrite purge_lookup.
    destruct (existsb _ _) eqn:Eb; [|reflexivity]. exfalso.
    apply existsb_exists in Eb. destruct Eb as (p & Hin & Hp).
    apply andb_true_iff in Hp. destruct Hp as [Hp1 _]. apply String.eqb_eq in Hp1.
    subst p. apply in_flat_map in Hin. destruct Hin as (j & Hj & Hn).
    apply filter_In in Hj. destruct Hj as [Hj He]. exact (Hno j Hj He Hn).
Qed.

Lemma cleanup_objects_witness :
  (cleanup_expired_jobs old_table old_store (cleanup_env Storage.Answers)).1.2
    !! "converted/job-done.pdf"%string = None
  /\ (cleanup_expired_jobs old_table old_store (cleanup_env Storage.S3Error)).1.2
       !! "converted/job-done.pdf"%string = Some "pdf"%string.
Proof.
  split.
  - assert (Hr : reachable (cleanup_env Storage.Answers)) by (intros name e; discriminate).
    pose proof (cleanup_objects old_table old_store (cleanup_env Storage.Answers) Hr) as H.
    destruct (cleanup_expired_jobs old_table old_store (cleanup_env Storage.Answers))
      as [[db' s'] resp].
    destruct H as (H & _). cbn [fst snd].
    apply (H (aged "job-done" COMPLETED 0 (Some "converted/job-done.pdf"%string))).
    + left. reflexivity.
    + reflexivity.
    + right. left. reflexivity.
    + reflexivity.
  - assert (Hr : reachable (cleanup_env Storage.S3Error)) by (intros name e; discriminate).
    pose proof (cleanup_objects old_table old_store (cleanup_env Storage.S3Error) Hr) as H.
    destruct (cleanup_expired_jobs old_table old_store (cleanup_env Storage.S3Error))
      as [[db' s'] resp].
    destruct H as (_ & H & _). cbn [fst snd]. rewrite H by reflexivity.
    vm_compute. reflexivity.
Defined.

(** * Further properties of the workers *)


Section FrameFacts.

Variables service_name worker_id : string.

Lemma given_columns_write_status s kws j :
  given_columns (write_status service_name s kws j) = given_columns j.
Proof.
  unfold write_status.
  transitivity (given_columns (Job.set_assigned_service (Some service_name)
                                 (Job.set_status s j))); [|reflexivity].
  generalize (Job.set_assigned_service (Some service_name) (Job.set_status s j)).
  induction kws as [|kw kws IH]; intros j0; [reflexivity|].
  cbn [fold_left]. rewrite IH. destruct kw; reflexivity.
Qed.

Lemma ids_update_row db jid f :
  keeps_id f -> map Job.id (update_row db jid f) = map Job.id db.
Proof.
  intros Hf. induction db as [|x db IH]; [reflexivity|]. cbn [update_row].
  destruct (String.eqb (Job.id x) jid); cbn [map]; [rewrite Hf|rewrite IH]; reflexivity.
Qed.

Lemma update_row_absent db jid f : query_first db jid = None -> update_row db jid f = db.
Proof.
  unfold query_first. induction db as [|x db IH]; [reflexivity|]. cbn [find update_row].
  destruct (String.eqb (Job.id x) jid); [discriminate|]. intros H. rewrite (IH H). reflexivity.
Qed.

(** What a status write changes: nothing but the row of its job, and in
    that row none of the columns the upload gave. *)
Lemma status_write_frame db_fault jid s kws w :
  redis (status_write service_name db_fault jid s kws w) = redis w
  /\ map Job.id (jobs (status_write service_name db_fault jid s kws w)) = map Job.id (jobs w)
  /\ (forall jid', jid' <> jid ->
        query_first (jobs (status_write service_name db_fault jid s kws w)) jid'
        = query_first (jobs w) jid')
  /\ (query_first (jobs w) jid = None -> status_write service_name db_fault jid s kws w = w)
  /\ (given_columns <$> query_first (jobs (status_write service_name db_fault jid s kws w)) jid
      = given_columns <$> query_first (jobs w) jid).
Proof.
  split; [apply redis_status_write|]. unfold status_write. destruct db_fault; [auto|].
  destruct (query_first (jobs w) jid) as [j|] eqn:Hq; [|rewrite Hq; auto].
  cbn [jobs]. split; [apply ids_update_row, keeps_id_write_status|]. split; [|split].
  - intros jid' Hne. rewrite query_first_update_row by apply keeps_id_write_status.
    destruct (String.eqb_spec jid' jid); [contradiction|reflexivity].
  - discriminate.
  - rewrite query_first_update_row by apply keeps_id_write_status.
    rewrite String.eqb_refl, Hq. cbn. rewrite given_columns_write_status. reflexivity.
Qed.

End FrameFacts.

(** X24.  A worker writes the row of the job it processes and nothing else.
    Whatever the conversion returns or raises and whether or not the status
    writes go through, with a conversion that leaves the shared stores
    alone [_process_job] leaves the queues as they are, adds and deletes
    no row, leaves every other row as it is and, in the row of its job,
    every column the upload gave: id, file name, conversion type, size,
    input path, creation time, retry counters and the data of the client.
    A message whose job has no row is converted all the same and changes
    nothing. *)
Theorem process_job_frame (service_name worker_id : string) (message : QueueMessage)
    (env : JobEnv) (w : World) (k : Worker) :
  keeps_stores (convert env) ->
  let jid := job_id message in
  let w' := (_process_job service_name worker_id message env (w, k)).2.1 in
  redis w' = redis w
  /\ map Job.id (jobs w') = map Job.id (jobs w)
  /\ (forall jid', jid' <> jid -> query_first (jobs w') jid' = query_first (jobs w) jid')
  /\ given_columns <$> query_first (jobs w') jid = given_columns <$> query_first (jobs w) jid
  /\ (query_first (jobs w) jid = None -> w' = w).
Proof.
  intros Hkeep. cbv zeta. rewrite _process_job_unfold. cbv zeta.
  pose proof (Hkeep message (claimed service_name worker_id message env w)) as Hc.
  destruct (convert env message _) as [r w3]. cbn [snd] in Hc. subst w3.
  unfold claimed.
  set (w1 := status_write service_name (claim_fault env) (job_id message) PROCESSING
               (claim_kwargs worker_id env) w).
  destruct (status_write_frame service_name (claim_fault env) (job_id message) PROCESSING
              (claim_kwargs worker_id env) w) as (A1 & A2 & A3 & A4 & A5).
  fold w1 in A1, A2, A3, A4, A5.
  assert (Hend : forall s kws,
            let w2 := status_write service_name (final_fault env) (job_id message) s kws w1 in
            redis w2 = redis w
            /\ map Job.id (jobs w2) = map Job.id (jobs w)
            /\ (forall jid', jid' <> job_id message ->
                  query_first (jobs w2) jid' = query_first (jobs w) jid')
            /\ given_columns <$> query_first (jobs w2) (job_id message)
               = given_columns <$> query_first (jobs w) (job_id message)
            /\ (query_first (jobs w) (job_id message) = None -> w2 = w)).
  { intros s kws. cbv zeta.
    destruct (status_write_frame service_name (final_fault env) (job_id message) s kws w1)
      as (B1 & B2 & B3 & B4 & B5).
    split; [congruence|]. split; [congruence|]. split; [|split].
    - intros jid' Hne. rewrite (B3 jid' Hne). exact (A3 jid' Hne).
    - congruence.
    - intros Hnone. rewrite B4; [exact (A4 Hnone)|]. rewrite (A4 Hnone). exact Hnone. }
  destruct r as [[[[] out] err]|[e|]]; cbn [fst snd]; try apply Hend.
  split; [exact A1|]. split; [exact A2|]. split; [exact A3|]. split; [exact A5|exact A4].
Qed.

Lemma process_job_frame_witness :
  redis (_process_job "docx-pdf-service" "docx-pdf-worker-0" docx_message good_env
           (docx_pending, idle_worker)).2.1 = redis docx_pending
  /\ map Job.id (jobs docx_completed) = ["job-1"%string].
Proof.
  assert (Hk : keeps_stores (convert good_env)) by (intros m w; reflexivity).
  pose proof (process_job_frame "docx-pdf-service" "docx-pdf-worker-0" docx_message good_env
                docx_pending idle_worker Hk) as H.
  cbv zeta in H. destruct H as (H1 & H2 & _).
  split; [exact H1|]. unfold docx_completed. rewrite H2. vm_compute. reflexivity.
Defined.

Section LoopFacts.

Variables service_name worker_id : string.
Variable queue_name : QueueName.

Lemma dequeue_redis fault r :
  get_queue_size false (dequeue fault r queue_name).1 queue_name
  = (if fault then get_queue_size false r queue_name
     else Z.max 0 (get_queue_size false r queue_name - 1))
  /\ (forall q, q <> queue_name -> (dequeue fault r queue_name).1 q = r q).
Proof.
  unfold dequeue, get_queue_size, Redis.zcard. destruct fault; [auto|].
  destruct (snoc_case (r queue_name)) as [E|(z & [member score] & E)].
  - rewrite E. cbn [Redis.zpopmax fst]. rewrite E. cbn. auto.
  - rewrite E, zpopmax_snoc.
    assert (Hset : forall (rm : Redis.keyspace * option QueueMessage),
              rm.1 = Redis.set_key r queue_name z ->
              Z.of_nat (length (rm.1 queue_name))
              = Z.max 0 (Z.of_nat (length (z ++ [(member, score)])) - 1)
              /\ (forall q, q <> queue_name -> rm.1 q = r q)).
    { intros rm ->. rewrite set_key_same, length_app. cbn [length]. split; [lia|].
      intros q Hq. apply set_key_other. exact Hq. }
    destruct (from_json member); apply Hset; reflexivity.
Qed.

Lemma _process_job_stores message env w k :
  keeps_stores (convert env) ->
  let st' := (_process_job service_name worker_id message env (w, k)).2 in
  redis st'.1 = redis w
  /\ map Job.id (jobs st'.1) = map Job.id (jobs w)
  /\ active_jobs st'.2 = active_jobs k ∖ {[job_id message]}.
Proof.
  intros Hk. cbv zeta. rewrite _process_job_unfold. cbv zeta.
  pose proof (Hk message (claimed service_name worker_id message env w)) as Hc.
  destruct (convert env message _) as [r w3]. cbn [snd] in Hc. subst w3. unfold claimed.
  assert (Hw : forall f s kws f' s' kws',
            redis (status_write service_name f (job_id message) s kws
                     (status_write service_name f' (job_id message) s' kws' w)) = redis w
            /\ map Job.id (jobs (status_write service_name f (job_id message) s kws
                                   (status_write service_name f' (job_id message) s' kws' w)))
               = map Job.id (jobs w)).
  { intros f s kws f' s' kws'.
    destruct (status_write_frame service_name f (job_id message) s kws
                (status_write service_name f' (job_id message) s' kws' w)) as (B1 & B2 & _).
    destruct (status_write_frame service_name f' (job_id message) s' kws' w)
      as (A1 & A2 & _).
    split; congruence. }
  assert (Hk' : active_jobs (released (job_id message) k)
                = active_jobs k ∖ {[job_id message]}).
  { unfold released. cbn [active_jobs]. apply set_eq. intros x.
    rewrite !elem_of_difference, elem_of_union, elem_of_singleton. tauto. }
  destruct r as [[[[] out] err]|[e|]]; cbn [fst snd];
    (split; [|split]; [try apply Hw|try apply Hw|exact Hk']).
  - destruct (status_write_frame service_name (claim_fault env) (job_id message) PROCESSING
                (claim_kwargs worker_id env) w) as (A1 & _). exact A1.
  - destruct (status_write_frame service_name (claim_fault env) (job_id message) PROCESSING
                (claim_kwargs worker_id env) w) as (_ & A2 & _). exact A2.
Qed.

Lemma worker_turn_stores t w k :
  quiet t ->
  let st' := (worker_turn service_name worker_id queue_name t (w, k)).2 in
  redis st'.1 = (dequeue (dequeue_fault t) (redis w) queue_name).1
  /\ map Job.id (jobs st'.1) = map Job.id (jobs w)
  /\ active_jobs st'.2 ⊆ active_jobs k.
Proof.
  intros [[Hc _] Hk]. cbv zeta. unfold worker_turn, bind, await_dequeue. rewrite Hc.
  destruct (dequeue (dequeue_fault t) (redis w) queue_name) as [r [m|]]; cbn [fst snd].
  - destruct (_process_job_stores m (job_env t) (mkWorld (jobs w) r) k Hk) as (H1 & H2 & H3).
    cbv zeta in H1, H2, H3. split; [exact H1|]. split; [exact H2|].
    rewrite H3. apply subseteq_difference_l. reflexivity.
  - auto.
Qed.

Lemma served_turns_cons t turns :
  served_turns (t :: turns)
  = ((if dequeue_fault t then 0 else 1) + served_turns turns)%nat.
Proof. unfold served_turns. cbn [List.filter]. destruct (dequeue_fault t); reflexivity. Qed.

Lemma _worker_loop_stores turns : forall w k,
  is_running k = true -> Forall quiet turns ->
  let st' := (_worker_loop service_name worker_id queue_name turns (w, k)).2 in
  get_queue_size false (redis st'.1) queue_name
  = Z.max 0 (get_queue_size false (redis w) queue_name - Z.of_nat (served_turns turns))
  /\ (forall q, q <> queue_name -> redis st'.1 q = redis w q)
  /\ map Job.id (jobs st'.1) = map Job.id (jobs w)
  /\ active_jobs st'.2 ⊆ active_jobs k.
Proof.
  induction turns as [|t turns IH]; intros w k Hrun Hall; cbv zeta.
  - cbn [_worker_loop snd fst]. unfold served_turns, get_queue_size, Redis.zcard. cbn.
    split; [lia|]. auto.
  - apply Forall_cons in Hall. destruct Hall as [Ht Hall].
    cbn [_worker_loop snd]. rewrite Hrun.
    pose proof (worker_turn_uncancelled service_name worker_id queue_name t (w, k) (proj1 Ht))
      as Hok.
    pose proof (worker_turn_is_running service_name worker_id queue_name t (w, k)) as Hrun'.
    pose proof (worker_turn_stores t w k Ht) as Hst. cbv zeta in Hst.
    destruct (worker_turn service_name worker_id queue_name t (w, k)) as [r [w1 k1]].
    cbn [fst snd] in Hok, Hrun', Hst. subst r. rewrite Hrun in Hrun'.
    specialize (IH w1 k1 Hrun' Hall). cbv zeta in IH.
    destruct (_worker_loop service_name worker_id queue_name turns (w1, k1)) as [n [w2 k2]].
    cbn [fst snd] in IH |- *.
    destruct IH as (I1 & I2 & I3 & I4). destruct Hst as (S1 & S2 & S3).
    destruct (dequeue_redis (dequeue_fault t) (redis w)) as [D1 D2].
    split; [|split; [|split]].
    + rewrite I1, S1, D1, served_turns_cons. destruct (dequeue_fault t); lia.
    + intros q Hq. rewrite (I2 q Hq), S1. exact (D2 q Hq).
    + congruence.
    + etransitivity; [exact I4|exact S3].
Qed.

End LoopFacts.

(** X25.  A worker loop takes the messages off its own queue one per turn.
    While no cancellation arrives and the conversions leave the shared
    stores alone, after any number of turns the queue of the loop is
    shorter by the number of turns in which Redis served the dequeue, or
    empty when fewer messages were queued, a message that does not decode
    counting like any other; the other queues hold what they held; no row
    is added to or deleted from the job table; and no job id is left in
    the active set, so that a health endpoint such as the one of the
    PDF-to-DOCX service reports 0 active jobs once the loop of an idle
    service has run. *)
Theorem worker_loop_drains (service_name worker_id : string) (queue_name : QueueName)
    (turns : list Turn) (w : World) (k : Worker) :
  is_running k = true ->
  Forall quiet turns ->
  let st' := (_worker_loop service_name worker_id queue_name turns (w, k)).2 in
  get_queue_size false (redis st'.1) queue_name
  = Z.max 0 (get_queue_size false (redis w) queue_name - Z.of_nat (served_turns turns))
  /\ (forall q, q <> queue_name -> redis st'.1 q = redis w q)
  /\ map Job.id (jobs st'.1) = map Job.id (jobs w)
  /\ (active_jobs k = ∅ -> health_active_jobs (health st'.2) = 0%Z).
Proof.
  intros Hrun Hall. cbv zeta.
  destruct (_worker_loop_stores service_name worker_id queue_name turns w k Hrun Hall)
    as (H1 & H2 & H3 & H4).
  cbv zeta in H1, H2, H3, H4.
  split; [exact H1|]. split; [exact H2|]. split; [exact H3|].
  intros Hempty. unfold health. cbn [health_active_jobs].
  rewrite Hempty in H4.
  assert (E : active_jobs (_worker_loop service_name worker_id queue_name turns (w, k)).2.2
              = ∅) by (apply set_eq; intros x; split; [apply H4|intros Hx; inversion Hx]).
  rewrite E, size_empty. reflexivity.
Qed.

Lemma worker_loop_drains_witness :
  get_queue_size false
    (redis (_worker_loop "docx-pdf-service" "docx-pdf-worker-0" DOCX_PDF
              [mkTurn false false good_env; mkTurn false true good_env;
               mkTurn false false good_env]
              (mkWorld [] queue_5_1_9, idle_worker)).2.1) DOCX_PDF = 1%Z.
Proof.
  assert (Hq : quiet (mkTurn false false good_env)).
  { split; [split; [reflexivity|intros m w; discriminate]|intros m w; reflexivity]. }
  assert (Hq' : quiet (mkTurn false true good_env)).
  { split; [split; [reflexivity|intros m w; discriminate]|intros m w; reflexivity]. }
  pose proof (worker_loop_drains "docx-pdf-service" "docx-pdf-worker-0" DOCX_PDF
                [mkTurn false false good_env; mkTurn false true good_env;
                 mkTurn false false good_env]
                (mkWorld [] queue_5_1_9) idle_worker eq_refl) as H.
  cbv zeta in H.
  destruct H as (H & _); [repeat (constructor; [assumption|]); constructor|].
  rewrite H. vm_compute. reflexivity.
Defined.



(** * Further properties: queue statistics and the object store *)

Section StatsFacts.

Lemma get_all_queue_stats_lookup fault r q :
  get_all_queue_stats fault r !! QueueName_value q = Some (get_queue_size (fault q) r q).
Proof.
  unfold get_all_queue_stats, QueueName_members. cbn [fold_left].
  destruct q; cbn [QueueName_value];
    repeat (first [rewrite lookup_insert_eq; reflexivity
                  |rewrite lookup_insert_ne by discriminate]).
Qed.

End StatsFacts.

(** X27.  The monitoring service and the Job Manager count the same
    queues.  The keys the monitoring service names by hand are the keys of
    the four conversion queues, so when Redis answers it reports, under the
    name of the queue without its [queue:] prefix, the size
    [get_all_queue_stats] reports under the full name, and nothing for the
    notification queue.  When the very first [zcard] raises it reports an
    empty dictionary, not zeros; zeros for the four queues are what it
    reports when it holds no client; [get_all_queue_stats] reports 0 for
    each queue on which the client raises. *)
Theorem queue_stats_agree (r : Redis.keyspace) :
  (forall q,
      conversion_queue q ->
      Monitoring.get_redis_queue_stats true (fun _ => false) r !! short_name q
      = get_all_queue_stats (fun _ => false) r !! QueueName_value q
      /\ Monitoring.get_redis_queue_stats true (fun _ => false) r !! short_name q
         = Some (get_queue_size false r q))
  /\ Monitoring.get_redis_queue_stats true (fun _ => false) r !! short_name NOTIFICATIONS
     = None
  /\ (forall fault, fault "queue:docx_pdf"%string = true ->
                    Monitoring.get_redis_queue_stats true fault r = ∅)
  /\ (forall fault q, conversion_queue q ->
                      Monitoring.get_redis_queue_stats false fault r !! short_name q
                      = Some 0%Z)
  /\ (forall fault q, fault q = true ->
                      get_all_queue_stats fault r !! QueueName_value q = Some 0%Z).
Proof.
  split; [|split; [|split; [|split]]].
  - intros q Hq. rewrite get_all_queue_stats_lookup.
    assert (H : Monitoring.get_redis_queue_stats true (fun _ => false) r !! short_name q
                = Some (get_queue_size false r q)).
    { unfold Monitoring.get_redis_queue_stats, Monitoring.queue_names. cbn [negb].
      cbn [Monitoring.stats_loop]. cbv zeta.
      destruct q; try (exfalso; apply Hq; reflexivity);
        vm_compute short_name;
        change (Monitoring.replace "queue:" "" "queue:docx_pdf") with "docx_pdf"%string;
        change (Monitoring.replace "queue:" "" "queue:pdf_docx") with "pdf_docx"%string;
        change (Monitoring.replace "queue:" "" "queue:pdf_image") with "pdf_image"%string;
        change (Monitoring.replace "queue:" "" "queue:image_pdf") with "image_pdf"%string;
        repeat (first [rewrite lookup_insert_eq; reflexivity
                      |rewrite lookup_insert_ne by discriminate]). }
    split; [exact H|exact H].
  - unfold Monitoring.get_redis_queue_stats, Monitoring.queue_names. cbn [negb].
    cbn [Monitoring.stats_loop]. cbv zeta. vm_compute short_name.
    change (Monitoring.replace "queue:" "" "queue:docx_pdf") with "docx_pdf"%string.
    change (Monitoring.replace "queue:" "" "queue:pdf_docx") with "pdf_docx"%string.
    change (Monitoring.replace "queue:" "" "queue:pdf_image") with "pdf_image"%string.
    change (Monitoring.replace "queue:" "" "queue:image_pdf") with "image_pdf"%string.
    repeat rewrite lookup_insert_ne by discriminate. apply lookup_empty.
  - intros fault Hf. unfold Monitoring.get_redis_queue_stats, Monitoring.queue_names.
    cbn [negb Monitoring.stats_loop]. rewrite Hf. reflexivity.
  - intros fault q Hq. unfold Monitoring.get_redis_queue_stats, Monitoring.queue_names.
    cbn [negb map]. unfold list_to_map. cbn [foldr uncurry].
    destruct q; try (exfalso; apply Hq; reflexivity);
      vm_compute short_name;
      change (Monitoring.replace "queue:" "" "queue:docx_pdf") with "docx_pdf"%string;
      change (Monitoring.replace "queue:" "" "queue:pdf_docx") with "pdf_docx"%string;
      change (Monitoring.replace "queue:" "" "queue:pdf_image") with "pdf_image"%string;
      change (Monitoring.replace "queue:" "" "queue:image_pdf") with "image_pdf"%string;
      repeat (first [rewrite lookup_insert_eq; reflexivity
                    |rewrite lookup_insert_ne by discriminate]).
  - intros fault q Hf. rewrite get_all_queue_stats_lookup, Hf. reflexivity.
Qed.

(** X28.  [download_to_temp] and its temporary file.  When it returns a
    path, the path is the new file [mkstemp] made, it holds the bytes of
    the object, and no other file changed.  When it returns [None] because
    [mkstemp] raised, the object is missing or the store answered with an
    [S3Error], the file system is as it was before: the temporary file is
    unlinked.  When the client raises any other exception, the outer
    handler returns [None] without unlinking, and the empty temporary file
    stays behind. *)
Theorem download_to_temp_file (mkstemp : call string) (c : Storage.client)
    (s : Storage.store) (fs : Storage.files) (object_name : string) :
  (forall p, mkstemp = Returns p -> fs !! p = None) ->
  let '(fs', result) := Storage.download_to_temp mkstemp c s fs object_name in
  (forall p, result = Some p ->
      mkstemp = Returns p /\ c = Storage.Answers
      /\ fs' !! p = s !! object_name /\ is_Some (s !! object_name)
      /\ forall p', p' <> p -> fs' !! p' = fs !! p')
  /\ (result = None -> (forall e, c <> Storage.Fails e) -> fs' = fs)
  /\ (forall p e, mkstemp = Returns p -> c = Storage.Fails e ->
                  result = None /\ fs' = <[p := ""%string]> fs).
Proof.
  intros Hnew. unfold Storage.download_to_temp, Storage.download_file.
  unfold Storage.files, Storage.store in *.
  destruct mkstemp as [temp_path|e0].
  - specialize (Hnew temp_path eq_refl).
    destruct c as [| |e].
    + destruct (s !! object_name) as [data|] eqn:Hd.
      * split; [|split].
        -- intros p Hp. injection Hp as <-. split; [reflexivity|]. split; [reflexivity|].
           split; [|split; [eexists; reflexivity|]].
           ++ rewrite lookup_insert_eq. reflexivity.
           ++ intros p' Hne. rewrite !lookup_insert_ne by congruence. reflexivity.
        -- discriminate.
        -- intros p e _ Hc. discriminate.
      * split; [discriminate|]. split; [|intros p e _ Hc; discriminate].
        intros _ _. apply delete_insert_id. exact Hnew.
    + split; [discriminate|]. split; [|intros p e _ Hc; discriminate].
      intros _ _. apply delete_insert_id. exact Hnew.
    + split; [discriminate|]. split.
      * intros _ Hc. exfalso. exact (Hc e eq_refl).
      * intros p e' Hp _. injection Hp as <-. split; reflexivity.
  - split; [discriminate|]. split; [reflexivity|]. intros p e Hp. discriminate.
Qed.

Lemma download_to_temp_file_witness :
  Storage.download_to_temp (Returns "/tmp/tmp1.pdf"%string) Storage.Answers
    (<["uploads/a.pdf"%string := "bytes"%string]> ∅) ∅ "uploads/missing.pdf" = (∅, None)
  /\ (Storage.download_to_temp (Returns "/tmp/tmp1.pdf"%string) (Storage.Fails "refused")
        (<["uploads/a.pdf"%string := "bytes"%string]> ∅) ∅ "uploads/a.pdf").1
       !! "/tmp/tmp1.pdf"%string = Some ""%string.
Proof.
  pose proof (download_to_temp_file (Returns "/tmp/tmp1.pdf"%string) Storage.Answers
                (<["uploads/a.pdf"%string := "bytes"%string]> ∅) ∅ "uploads/missing.pdf"
                (fun p _ => lookup_empty p)) as H1.
  pose proof (download_to_temp_file (Returns "/tmp/tmp1.pdf"%string) (Storage.Fails "refused")
                (<["uploads/a.pdf"%string := "bytes"%string]> ∅) ∅ "uploads/a.pdf"
                (fun p _ => lookup_empty p)) as H2.
  destruct (Storage.download_to_temp (Returns "/tmp/tmp1.pdf"%string) Storage.Answers _ _ _)
    as [fs1 r1] eqn:E1.
  destruct (Storage.download_to_temp (Returns "/tmp/tmp1.pdf"%string) (Storage.Fails _) _ _ _)
    as [fs2 r2] eqn:E2.
  destruct H1 as (_ & H1 & _). destruct H2 as (_ & _ & H2).
  assert (Hr1 : r1 = None).
  { unfold Storage.download_to_temp, Storage.download_file in E1.
    unfold Storage.files, Storage.store in *.
    rewrite lookup_insert_ne in E1 by discriminate. rewrite lookup_empty in E1.
    injection E1 as _ <-. reflexivity. }
  split.
  - rewrite (H1 Hr1) by discriminate. rewrite Hr1. reflexivity.
  - destruct (H2 _ _ eq_refl eq_refl) as [_ ->]. cbn [fst]. apply lookup_insert_eq.
Defined.
